(** * go-mp3: bit reader, side information, Huffman spectrum, IMDCT window,
      PCM reading and seeking, and the LAME/Xing tag

    A shallow embedding of the decoder's integer-level code paths.  Go's
    [int] is the 64-bit two's-complement integer, [uint32] the 32-bit
    unsigned one; both are carried by [Z] with the wrap-around written
    where the source performs arithmetic.  A Go run-time panic (index or
    slice bound out of range, division by zero) is the [Panic] outcome. *)

From Stdlib Require Import ZArith List Lia Bool.
From Stdlib.Strings Require Import Byte.
Import ListNotations.
Open Scope Z_scope.

(** ** Machine integers *)

(** Go [int] on the 64-bit targets: results wrap into [-2^63, 2^63). *)
Definition wrap_int (z : Z) : Z := (z + 2 ^ 63) mod 2 ^ 64 - 2 ^ 63.

(** Conversion [uint(x)] of an [int]. *)
Definition to_uint (z : Z) : Z := z mod 2 ^ 64.

(** Conversion to, and arithmetic in, [uint32]. *)
Definition to_uint32 (z : Z) : Z := z mod 2 ^ 32.

(** [x >> k] on a signed [int] (arithmetic shift, [k] in range) and
    [x & m]; both agree with [Z.shiftr] and [Z.land] on two's complement. *)
Definition int_shr (x k : Z) : Z := Z.shiftr x k.
Definition int_shl (x k : Z) : Z := wrap_int (Z.shiftl x k).
Definition int_add (x y : Z) : Z := wrap_int (x + y).
Definition int_sub (x y : Z) : Z := wrap_int (x - y).
Definition int_mul (x y : Z) : Z := wrap_int (x * y).

(** ** Outcomes of possibly panicking code *)

Inductive outcome (A : Type) : Type :=
| Ret (a : A)
| Panic.
Arguments Ret {A} a.
Arguments Panic {A}.

Definition obind {A B} (o : outcome A) (k : A -> outcome B) : outcome B :=
  match o with
  | Ret a => k a
  | Panic => Panic
  end.

Declare Scope go_scope.
Delimit Scope go_scope with go.
Notation "x <- c ;; k" := (obind c (fun x => k))
  (at level 61, c at next level, right associativity) : go_scope.
Notation "' p <- c ;; k" := (obind c (fun x => match x with p => k end))
  (at level 61, p pattern, c at next level, right associativity) : go_scope.

(** ** Package bits *)

Module Bits.

(** The package has a single error value. *)
Inductive error : Type := ErrOutOfBounds.

Record t : Type := mk {
  vec : list byte;
  bitPos : Z;
  bytePos : Z;
  err : option error
}.

Definition Err (b : t) : option error := err b.

Definition New (v : list byte) : t :=
  {| vec := v; bitPos := 0; bytePos := 0; err := None |}.

Definition Append (b : t) (buf : list byte) : t := New (vec b ++ buf).

Definition len (b : t) : Z := Z.of_nat (length (vec b)).

Definition byte_val (x : byte) : Z := Z.of_N (Byte.to_N x).

Definition set_err (b : t) : t :=
  {| vec := vec b; bitPos := bitPos b; bytePos := bytePos b;
     err := Some ErrOutOfBounds |}.

Definition set_cursor (b : t) (byp bip : Z) : t :=
  {| vec := vec b; bitPos := bip; bytePos := byp; err := err b |}.

(** [b.vec[i]]: panics outside [0, len). *)
Definition index (b : t) (i : Z) : outcome byte :=
  if (i <? 0) || (len b <=? i) then Panic
  else match nth_error (vec b) (Z.to_nat i) with
       | Some x => Ret x
       | None => Panic
       end.

(** [b.vec[i:]]: panics outside [0, len]. *)
Definition slice_from (b : t) (i : Z) : outcome (list byte) :=
  if (i <? 0) || (len b <? i) then Panic
  else Ret (skipn (Z.to_nat i) (vec b)).

Definition Bit (b : t) : outcome (Z * t) :=
  if len b <=? bytePos b then Ret (0, set_err b)
  else
    (x <- index b (bytePos b) ;;
     let tmp := Z.shiftr (byte_val x) (to_uint (7 - to_uint (bitPos b))) in
     let tmp := Z.land tmp 1 in
     let byp := int_add (bytePos b) (int_shr (int_add (bitPos b) 1) 3) in
     let bip := Z.land (int_add (bitPos b) 1) 7 in
     Ret (tmp, set_cursor b byp bip))%go.

(** [bb := make([]byte, 4); copy(bb, src)]: the first four bytes of
    [src], zero-filled. *)
Definition copy4 (src : list byte) : list Z :=
  map (fun k => byte_val (nth k src x00)) [0%nat; 1%nat; 2%nat; 3%nat].

Definition be32 (bb : list Z) : Z :=
  Z.lor (Z.lor (Z.lor (to_uint32 (Z.shiftl (nth 0 bb 0) 24))
                      (to_uint32 (Z.shiftl (nth 1 bb 0) 16)))
               (to_uint32 (Z.shiftl (nth 2 bb 0) 8)))
        (nth 3 bb 0).

Definition Bits (b : t) (num : Z) : outcome (Z * t) :=
  if num =? 0 then Ret (0, b)
  else
    let currentBitPos := int_add (int_mul (bytePos b) 8) (bitPos b) in
    let totalBits := int_mul (len b) 8 in
    if totalBits <? int_add currentBitPos num then Ret (0, set_err b)
    else
      (src <- slice_from b (bytePos b) ;;
       let bb := copy4 src in
       let tmp := be32 bb in
       let tmp := to_uint32 (Z.shiftl tmp (to_uint (bitPos b))) in
       let tmp := Z.shiftr tmp (to_uint (32 - to_uint num)) in
       let byp := int_add (bytePos b) (int_shr (int_add (bitPos b) num) 3) in
       let bip := Z.land (int_add (bitPos b) num) 7 in
       Ret (tmp, set_cursor b byp bip))%go.

Definition BitPos (b : t) : Z :=
  int_add (int_shl (bytePos b) 3) (bitPos b).

Definition SetPos (b : t) (pos : Z) : t :=
  set_cursor b (int_shr pos 3) (Z.land pos 7).

Definition LenInBytes (b : t) : Z := len b.

(** [b.vec[len(b.vec)-offset:]] *)
Definition Tail (b : t) (offset : Z) : outcome (list byte) :=
  slice_from b (int_sub (len b) offset).

(** The operations that act on a reader through its pointer. *)
Inductive op : Type :=
| OpBit
| OpBits (num : Z)
| OpSetPos (pos : Z)
| OpBitPos
| OpLenInBytes
| OpTail (offset : Z)
| OpErr.

Definition step (o : op) (b : t) : outcome t :=
  match o with
  | OpBit => (r <- Bit b ;; Ret (snd r))%go
  | OpBits num => (r <- Bits b num ;; Ret (snd r))%go
  | OpSetPos pos => Ret (SetPos b pos)
  | OpBitPos => Ret b
  | OpLenInBytes => Ret b
  | OpTail offset => (_ <- Tail b offset ;; Ret b)%go
  | OpErr => Ret b
  end.

Fixpoint run (os : list op) (b : t) : outcome t :=
  match os with
  | [] => Ret b
  | o :: os' => (b' <- step o b ;; run os' b')%go
  end.

(** The reader's invariant between calls: the bit offset is a bit
    offset, and cursor and buffer length are sizes whose bit counts Go
    holds without overflow. *)
Definition wf (b : t) : Prop :=
  0 <= bitPos b <= 7 /\ 0 <= bytePos b < 2 ^ 59 /\ len b < 2 ^ 59.

(** Reference semantics of the buffer as a bit string, most significant
    bit of each byte first: bit [k] of the buffer. *)
Definition bit_at (v : list byte) (k : Z) : Z :=
  Z.b2z (Z.testbit (byte_val (nth (Z.to_nat (k / 8)) v x00)) (7 - k mod 8)).

(** The integer formed by the [n] bits that start at bit [k]. *)
Fixpoint bits_value (v : list byte) (k : Z) (n : nat) : Z :=
  match n with
  | O => 0
  | S n' => bit_at v k * 2 ^ Z.of_nat n' + bits_value v (k + 1) n'
  end.

End Bits.

(** ** Results of fallible functions *)

Inductive result (E A : Type) : Type :=
| Ok (a : A)
| Err (e : E).
Arguments Ok {E A} a.
Arguments Err {E A} e.

(** [for i := range n { body }] over a state, stopping at a panic. *)
Fixpoint for_each {St : Type} (body : nat -> St -> outcome St)
  (idx : list nat) (st : St) : outcome St :=
  match idx with
  | [] => Ret st
  | i :: idx' => (st' <- body i st ;; for_each body idx' st')%go
  end.

Definition for_range {St : Type} (n : Z) (body : nat -> St -> outcome St)
  (st : St) : outcome St :=
  for_each body (seq 0 (Z.to_nat n)) st.

(** ** Package consts (the values the embedded code uses) *)

Module consts.

Inductive Mode : Type :=
| ModeStereo
| ModeJointStereo
| ModeDualChannel
| ModeSingleChannel.

Definition Mode_eqb (a b : Mode) : bool :=
  match a, b with
  | ModeStereo, ModeStereo
  | ModeJointStereo, ModeJointStereo
  | ModeDualChannel, ModeDualChannel
  | ModeSingleChannel, ModeSingleChannel => true
  | _, _ => false
  end.

Definition SamplesPerGr : Z := 576.

End consts.

(** ** Package frameheader

    The package is not among the embedded sources.  A header is carried
    by the values its accessors return to the callers embedded here. *)

Module frameheader.

Record FrameHeader : Type := mkFrameHeader {
  NumberOfChannels : Z;
  (** [FrameSize() (int, error)]: [None] when the error is not nil. *)
  FrameSize : option Z;
  SideInfoSize : Z;
  LowSamplingFrequency : Z;
  SamplingFrequency : Z;
  Mode : consts.Mode;
  Granules : Z
}.

End frameheader.

(** ** Package sideinfo *)

Module sideinfo.
Import frameheader.

(** The [[2][2]int] fields of [SideInfo], indexed [[gr][ch]].  The struct
    holds one array per name; the embedding keeps them as a family
    indexed by the field's name. *)
Inductive field : Type :=
| Part2_3Length
| BigValues
| GlobalGain
| ScalefacCompress
| WinSwitchFlag
| BlockType
| MixedBlockFlag
| Region0Count
| Region1Count
| Preflag
| ScalefacScale
| Count1TableSelect
| Count1.

Definition field_eqb (a b : field) : bool :=
  match a, b with
  | Part2_3Length, Part2_3Length | BigValues, BigValues
  | GlobalGain, GlobalGain | ScalefacCompress, ScalefacCompress
  | WinSwitchFlag, WinSwitchFlag | BlockType, BlockType
  | MixedBlockFlag, MixedBlockFlag | Region0Count, Region0Count
  | Region1Count, Region1Count | Preflag, Preflag
  | ScalefacScale, ScalefacScale | Count1TableSelect, Count1TableSelect
  | Count1, Count1 => true
  | _, _ => false
  end.

Record SideInfo : Type := mkSideInfo {
  MainDataBegin : Z;
  PrivateBits : Z;
  Scfsi : nat -> nat -> Z;                (* [2][4]int *)
  grch : field -> nat -> nat -> Z;        (* [2][2]int, one per field *)
  TableSelect : nat -> nat -> nat -> Z;   (* [2][2][3]int *)
  SubblockGain : nat -> nat -> nat -> Z   (* [2][2][3]int *)
}.

(** [&SideInfo{}] *)
Definition zero : SideInfo :=
  {| MainDataBegin := 0; PrivateBits := 0; Scfsi := fun _ _ => 0;
     grch := fun _ _ _ => 0; TableSelect := fun _ _ _ => 0;
     SubblockGain := fun _ _ _ => 0 |}.

Definition set_MainDataBegin (si : SideInfo) (v : Z) : SideInfo :=
  {| MainDataBegin := v; PrivateBits := PrivateBits si; Scfsi := Scfsi si;
     grch := grch si; TableSelect := TableSelect si;
     SubblockGain := SubblockGain si |}.

Definition set_PrivateBits (si : SideInfo) (v : Z) : SideInfo :=
  {| MainDataBegin := MainDataBegin si; PrivateBits := v; Scfsi := Scfsi si;
     grch := grch si; TableSelect := TableSelect si;
     SubblockGain := SubblockGain si |}.

Definition set_Scfsi (si : SideInfo) (ch band : nat) (v : Z) : SideInfo :=
  {| MainDataBegin := MainDataBegin si; PrivateBits := PrivateBits si;
     Scfsi := fun c b =>
       if (c =? ch)%nat && (b =? band)%nat then v else Scfsi si c b;
     grch := grch si; TableSelect := TableSelect si;
     SubblockGain := SubblockGain si |}.

(** [si.F[gr][ch] = v] *)
Definition set (si : SideInfo) (f : field) (gr ch : nat) (v : Z) : SideInfo :=
  {| MainDataBegin := MainDataBegin si; PrivateBits := PrivateBits si;
     Scfsi := Scfsi si;
     grch := fun f' g c =>
       if field_eqb f' f && (g =? gr)%nat && (c =? ch)%nat then v
       else grch si f' g c;
     TableSelect := TableSelect si; SubblockGain := SubblockGain si |}.

Definition set_TableSelect (si : SideInfo) (gr ch region : nat) (v : Z)
  : SideInfo :=
  {| MainDataBegin := MainDataBegin si; PrivateBits := PrivateBits si;
     Scfsi := Scfsi si; grch := grch si;
     TableSelect := fun g c r =>
       if (g =? gr)%nat && (c =? ch)%nat && (r =? region)%nat then v
       else TableSelect si g c r;
     SubblockGain := SubblockGain si |}.

Definition set_SubblockGain (si : SideInfo) (gr ch window : nat) (v : Z)
  : SideInfo :=
  {| MainDataBegin := MainDataBegin si; PrivateBits := PrivateBits si;
     Scfsi := Scfsi si; grch := grch si; TableSelect := TableSelect si;
     SubblockGain := fun g c w =>
       if (g =? gr)%nat && (c =? ch)%nat && (w =? window)%nat then v
       else SubblockGain si g c w |}.

(** [sideInfoBitsToRead[lsf]]; the outer array has two rows. *)
Definition sideInfoBitsToRead (lsf : Z) : outcome (list Z) :=
  if lsf =? 0 then Ret [9; 5; 3; 4]       (* MPEG 1 *)
  else if lsf =? 1 then Ret [8; 1; 2; 9]  (* MPEG 2 *)
  else Panic.

Inductive error : Type :=
| FrameSizeError                      (* the error of [header.FrameSize()] *)
| FramesizeTooBig (framesize : Z)     (* "mp3: framesize = %d" *)
| UnexpectedEOFError                  (* [consts.UnexpectedEOFError] *)
| CouldntReadSideinfo (sideinfoSize : Z).

(** What the source's [ReadFull] hands back beside the bytes. *)
Inductive io_error : Type :=
| EOF
| OtherIOError.

(** The parser's local state: the bit reader over the side-info bytes and
    the struct being filled. *)
Definition pstate : Type := (Bits.t * SideInfo)%type.

(** [si.F[gr][ch] = s.Bits(n)] *)
Definition read_field (f : field) (gr ch : nat) (n : Z) (st : pstate)
  : outcome pstate :=
  ('(v, s) <- Bits.Bits (fst st) n ;; Ret (s, set (snd st) f gr ch v))%go.

Definition readScfsi (nch : Z) (st : pstate) : outcome pstate :=
  for_range nch (fun ch =>
    for_range 4 (fun scfsiBand st =>
      if (2 <=? ch)%nat then Panic else
      ('(v, s) <- Bits.Bits (fst st) 1 ;;
       Ret (s, set_Scfsi (snd st) ch scfsiBand v))%go)) st.

(** The branch taken when [WinSwitchFlag[gr][ch] == 1]. *)
Definition readWindowSwitching (gr ch : nat) (st : pstate) : outcome pstate :=
  (st <- read_field BlockType gr ch 2 st ;;
   st <- read_field MixedBlockFlag gr ch 1 st ;;
   st <- for_range 2 (fun region st =>
           ('(v, s) <- Bits.Bits (fst st) 5 ;;
            Ret (s, set_TableSelect (snd st) gr ch region v))) st ;;
   st <- for_range 3 (fun window st =>
           ('(v, s) <- Bits.Bits (fst st) 3 ;;
            Ret (s, set_SubblockGain (snd st) gr ch window v))) st ;;
   let '(s, si) := st in
   let si :=
     if (grch si BlockType gr ch =? 2) && (grch si MixedBlockFlag gr ch =? 0)
     then set si Region0Count gr ch 8
     else set si Region0Count gr ch 7 in
   let si := set si Region1Count gr ch
                 (int_sub 20 (grch si Region0Count gr ch)) in
   Ret (s, si))%go.

(** The branch taken otherwise. *)
Definition readNoWindowSwitching (mpeg1Frame : bool) (gr ch : nat)
  (st : pstate) : outcome pstate :=
  (st <- for_range 3 (fun region st =>
           ('(v, s) <- Bits.Bits (fst st) 5 ;;
            Ret (s, set_TableSelect (snd st) gr ch region v))) st ;;
   st <- read_field Region0Count gr ch 4 st ;;
   st <- read_field Region1Count gr ch 3 st ;;
   let '(s, si) := st in
   let si := set si BlockType gr ch 0 in
   let si := if negb mpeg1Frame then set si MixedBlockFlag 0 ch 0 else si in
   Ret (s, si))%go.

(** The body of the [gr], [ch] loops.  [[2][2]] arrays: an index of 2 or
    more panics at the first store. *)
Definition readGranuleChannel (mpeg1Frame : bool) (bitsToRead : list Z)
  (gr ch : nat) (st : pstate) : outcome pstate :=
  if (2 <=? gr)%nat || (2 <=? ch)%nat then Panic else
  (st <- read_field Part2_3Length gr ch 12 st ;;
   st <- read_field BigValues gr ch 9 st ;;
   st <- read_field GlobalGain gr ch 8 st ;;
   st <- read_field ScalefacCompress gr ch (nth 3 bitsToRead 0) st ;;
   st <- read_field WinSwitchFlag gr ch 1 st ;;
   st <- (if grch (snd st) WinSwitchFlag gr ch =? 1
          then readWindowSwitching gr ch st
          else readNoWindowSwitching mpeg1Frame gr ch st) ;;
   st <- (if mpeg1Frame then read_field Preflag gr ch 1 st else Ret st) ;;
   st <- read_field ScalefacScale gr ch 1 st ;;
   read_field Count1TableSelect gr ch 1 st)%go.

(** The parse of the buffered side-info bytes (everything after
    [s := bits.New(buf)]). *)
Definition parse (header : FrameHeader) (buf : list byte)
  : outcome SideInfo :=
  let nch := NumberOfChannels header in
  let s := Bits.New buf in
  let mpeg1Frame := LowSamplingFrequency header =? 0 in
  (bitsToRead <- sideInfoBitsToRead (LowSamplingFrequency header) ;;
   let si := zero in
   '(v, s) <- Bits.Bits s (nth 0 bitsToRead 0) ;;
   let si := set_MainDataBegin si v in
   '(v, s) <- (if consts.Mode_eqb (Mode header) consts.ModeSingleChannel
               then Bits.Bits s (nth 1 bitsToRead 0)
               else Bits.Bits s (nth 2 bitsToRead 0)) ;;
   let si := set_PrivateBits si v in
   st <- (if mpeg1Frame then readScfsi nch (s, si) else Ret (s, si)) ;;
   st <- for_range (Granules header) (fun gr =>
           for_range nch (fun ch =>
             readGranuleChannel mpeg1Frame bitsToRead gr ch)) st ;;
   Ret (snd st))%go.

Section Read.

(** The source behind the [FullReader] interface: [ReadFull src n] is a
    call with a buffer of [n] bytes; it yields the bytes stored at the
    front of the buffer (their number is the call's count), the call's
    error, and the source afterwards. *)
Context {Source : Type}.
Variable ReadFull : Source -> Z -> list byte * option io_error * Source.

(** [buf := make([]byte, n)] after the call stored [data] at its front. *)
Definition filled (n : Z) (data : list byte) : list byte :=
  firstn (Z.to_nat n) (data ++ repeat x00 (Z.to_nat n)).

Definition Read (source : Source) (header : FrameHeader)
  : outcome (result error SideInfo * Source) :=
  match FrameSize header with
  | None => Ret (Err FrameSizeError, source)
  | Some framesize =>
    if 2000 <? framesize then Ret (Err (FramesizeTooBig framesize), source)
    else
      let sideinfoSize := SideInfoSize header in
      if sideinfoSize <? 0 then Panic   (* make with a negative length *)
      else
        let '(data, err, source) := ReadFull source sideinfoSize in
        let n := Z.of_nat (length data) in
        if n <? sideinfoSize then
          match err with
          | Some EOF => Ret (Err UnexpectedEOFError, source)
          | _ => Ret (Err (CouldntReadSideinfo sideinfoSize), source)
          end
        else
          (si <- parse header (filled sideinfoSize data) ;;
           Ret (Ok si, source))%go
  end.

End Read.



End sideinfo.


(** ** Package maindata: [readHuffman] *)

Module maindata.
Import frameheader sideinfo.

(** [MainData.Is] is [[2][2][576]float32].  The values stored here are
    Huffman-decoded integers, which [float32] holds exactly; the embedding
    keeps them as integers. *)
Record MainData : Type := mkMainData {
  Is : nat -> nat -> Z -> Z
}.

(** [mainData.Is[gr][ch][i] = v]; an index outside the array panics. *)
Definition store_Is (md : MainData) (gr ch : nat) (i v : Z)
  : outcome MainData :=
  if (2 <=? gr)%nat || (2 <=? ch)%nat || (i <? 0)
     || (consts.SamplesPerGr <=? i)
  then Panic
  else Ret {| Is := fun g c k =>
                if (g =? gr)%nat && (c =? ch)%nat && (k =? i) then v
                else Is md g c k |}.

(** [l[i]] on a slice. *)
Definition at_index (l : list Z) (i : Z) : outcome Z :=
  if (i <? 0) || (Z.of_nat (length l) <=? i) then Panic
  else Ret (nth (Z.to_nat i) l 0).

(** [sideInfo.TableSelect[gr][ch][k]] *)
Definition tableSelect (si : SideInfo) (gr ch k : nat) : Z :=
  TableSelect si gr ch k.

(** What the bit reader, the side information and the main data are
    after a call, together. *)
Definition state : Type := (Bits.t * SideInfo * MainData)%type.

Section readHuffman.

(** [huffman.Decode(m, table)]: the four values [x, y, v, w] or an error,
    and the reader it leaves.  The package is not among the embedded
    sources. *)
Context {HuffmanError : Type}.
Variable huffman_Decode :
  Bits.t -> Z -> result HuffmanError (Z * Z * Z * Z) * Bits.t.

(** [consts.SfBandIndices[lsf][sfreq][consts.SfBandIndicesLong]]: the
    long-block scalefactor-band boundaries. *)
Variable SfBandIndicesLong : Z -> Z -> list Z.

Inductive error : Type :=
| InvalidIndexI (i : Z)        (* "invalid index i: %d" *)
| InvalidIndexJ (j : Z)        (* "invalid index j: %d" *)
| IsPosTooBig (isPos : Z)      (* "isPos was too big: %d" *)
| DecodeError (e : HuffmanError).

(** Region boundaries, or the error the function returns for them. *)
Definition regionStarts (header : FrameHeader) (sideInfo : SideInfo)
  (gr ch : nat) : outcome (result error (Z * Z)) :=
  if (grch sideInfo WinSwitchFlag gr ch =? 1)
     && (grch sideInfo BlockType gr ch =? 2)
  then Ret (Ok (36, consts.SamplesPerGr))
  else
    let sfreq := SamplingFrequency header in
    let lsf := LowSamplingFrequency header in
    let l := SfBandIndicesLong lsf sfreq in
    let i := int_add (grch sideInfo Region0Count gr ch) 1 in
    if (i <? 0) || (Z.of_nat (length l) <=? i) then Ret (Err (InvalidIndexI i))
    else
      (region1Start <- at_index l i ;;
       let j := int_add (int_add (grch sideInfo Region0Count gr ch)
                                 (grch sideInfo Region1Count gr ch)) 2 in
       if (j <? 0) || (Z.of_nat (length l) <=? j)
       then Ret (Err (InvalidIndexJ j))
       else
         (region2Start <- at_index l j ;;
          Ret (Ok (region1Start, region2Start))))%go.

(** The big-values loop from position [isPos] on.  [fuel] bounds the
    number of iterations; the loop leaves by its own condition or by the
    position check long before 289 are made. *)
Fixpoint bigValuesLoop (fuel : nat) (sideInfo : SideInfo) (gr ch : nat)
  (region1Start region2Start : Z) (isPos : Z) (m : Bits.t) (md : MainData)
  : outcome (option error * (Bits.t * MainData)) :=
  if isPos <? int_mul (grch sideInfo BigValues gr ch) 2 then
    match fuel with
    | O => Ret (None, (m, md))
    | S fuel' =>
      if consts.SamplesPerGr <=? isPos
      then Ret (Some (IsPosTooBig isPos), (m, md))
      else
        let tableNum :=
          if isPos <? region1Start then tableSelect sideInfo gr ch 0
          else if isPos <? region2Start then tableSelect sideInfo gr ch 1
          else tableSelect sideInfo gr ch 2 in
        match huffman_Decode m tableNum with
        | (Err e, m) => Ret (Some (DecodeError e), (m, md))
        | (Ok (x, y, _, _), m) =>
          (md <- store_Is md gr ch isPos x ;;
           let isPos := isPos + 1 in
           md <- store_Is md gr ch isPos y ;;
           bigValuesLoop fuel' sideInfo gr ch region1Start region2Start
                         (isPos + 1) m md)%go
        end
    end
  else Ret (None, (m, md)).

(** The quadruple loop; it yields the position it stopped at. *)
Fixpoint count1Loop (fuel : nat) (tableNum bitPosEnd : Z) (gr ch : nat)
  (isPos : Z) (m : Bits.t) (md : MainData)
  : outcome (option error * (Z * Bits.t * MainData)) :=
  if (isPos <=? 572) && (Bits.BitPos m <=? bitPosEnd) then
    match fuel with
    | O => Ret (None, (isPos, m, md))
    | S fuel' =>
      match huffman_Decode m tableNum with
      | (Err e, m) => Ret (Some (DecodeError e), (isPos, m, md))
      | (Ok (x, y, v, w), m) =>
        (md <- store_Is md gr ch isPos v ;;
         let isPos := isPos + 1 in
         if consts.SamplesPerGr <=? isPos then Ret (None, (isPos, m, md)) else
         md <- store_Is md gr ch isPos w ;;
         let isPos := isPos + 1 in
         if consts.SamplesPerGr <=? isPos then Ret (None, (isPos, m, md)) else
         md <- store_Is md gr ch isPos x ;;
         let isPos := isPos + 1 in
         if consts.SamplesPerGr <=? isPos then Ret (None, (isPos, m, md)) else
         md <- store_Is md gr ch isPos y ;;
         let isPos := isPos + 1 in
         count1Loop fuel' tableNum bitPosEnd gr ch isPos m md)%go
      end
    end
  else Ret (None, (isPos, m, md)).

(** [for isPos < SamplesPerGr { Is[isPos] = 0; isPos++ }] *)
Fixpoint zeroLoop (fuel : nat) (gr ch : nat) (isPos : Z) (md : MainData)
  : outcome MainData :=
  if isPos <? consts.SamplesPerGr then
    match fuel with
    | O => Ret md
    | S fuel' =>
      (md <- store_Is md gr ch isPos 0 ;;
       zeroLoop fuel' gr ch (isPos + 1) md)%go
    end
  else Ret md.

(** What follows the loops: the position goes back by one quadruple when
    the reader has passed the bit after [bitPosEnd], and is not left
    negative.  It is the value recorded as [Count1]. *)
Definition count1Position (bitPosEnd isPos : Z) (m : Bits.t) : Z :=
  let isPos :=
    if int_add bitPosEnd 1 <? Bits.BitPos m then int_sub isPos 4
    else isPos in
  if isPos <? 0 then 0 else isPos.

(** The two decoding loops, from the region boundaries to the position
    and reader state the quadruple loop ends with. *)
Definition huffmanLoops (fb fq : nat) (m : Bits.t) (sideInfo : SideInfo)
  (mainData : MainData) (bitPosEnd region1Start region2Start : Z)
  (gr ch : nat) : outcome (option error * (Z * Bits.t * MainData)) :=
  (r <- bigValuesLoop fb sideInfo gr ch region1Start region2Start 0
                      m mainData ;;
   match r with
   | (Some e, (m, md)) => Ret (Some e, (0, m, md))
   | (None, (m, md)) =>
     let tableNum := int_add (grch sideInfo Count1TableSelect gr ch) 32 in
     let isPos := int_mul (grch sideInfo BigValues gr ch) 2 in
     count1Loop fq tableNum bitPosEnd gr ch isPos m md
   end)%go.

(** [readHuffman] with the loops' iteration bounds as parameters. *)
Definition readHuffman_fuel (fb fq fz : nat) (m : Bits.t)
  (header : FrameHeader) (sideInfo : SideInfo) (mainData : MainData)
  (part2Start : Z) (gr ch : nat) : outcome (option error * state) :=
  if (2 <=? gr)%nat || (2 <=? ch)%nat then Panic else
  if grch sideInfo Part2_3Length gr ch =? 0 then
    (md <- for_range consts.SamplesPerGr
             (fun i md => store_Is md gr ch (Z.of_nat i) 0) mainData ;;
     Ret (None, (m, sideInfo, md)))%go
  else
    let bitPosEnd :=
      int_sub (int_add part2Start (grch sideInfo Part2_3Length gr ch)) 1 in
    (rs <- regionStarts header sideInfo gr ch ;;
     match rs with
     | Err e => Ret (Some e, (m, sideInfo, mainData))
     | Ok (region1Start, region2Start) =>
       r <- huffmanLoops fb fq m sideInfo mainData bitPosEnd
              region1Start region2Start gr ch ;;
       match r with
       | (Some e, (_, m, md)) => Ret (Some e, (m, sideInfo, md))
       | (None, (isPos, m, md)) =>
         let isPos := count1Position bitPosEnd isPos m in
         let sideInfo := set sideInfo Count1 gr ch isPos in
         md <- zeroLoop fz gr ch isPos md ;;
         let m := Bits.SetPos m (int_add bitPosEnd 1) in
         Ret (None, (m, sideInfo, md))
       end
     end)%go.

Definition readHuffman : Bits.t -> FrameHeader -> SideInfo -> MainData ->
  Z -> nat -> nat -> outcome (option error * state) :=
  readHuffman_fuel 289 145 576.

End readHuffman.

End maindata.

(** ** Package imdct: [Win] *)

Module imdct.

Section Win.

(** [float32] and its arithmetic are not modelled bit for bit (the
    tables below are rounded sines and cosines, and Go may fuse the
    multiply-add): the function is embedded over any carrier with a
    zero, an addition and a multiplication, and over any contents of
    the three tables. *)
Context {F : Type}.
Variable zero : F.
Variable add mul : F -> F -> F.
Variable imdctWinData : nat -> nat -> F.   (* [4][36]float32 *)
Variable cosN12 : nat -> nat -> F.         (* [6][12]float32 *)
Variable cosN36 : nat -> nat -> F.         (* [18][36]float32 *)

(** [s[k]] on a slice. *)
Definition get (s : list F) (k : nat) : outcome F :=
  match nth_error s k with
  | Some x => Ret x
  | None => Panic
  end.

(** [s[k] = f(s[k])] on a slice. *)
Fixpoint update (s : list F) (k : nat) (f : F -> F) : outcome (list F) :=
  match s, k with
  | [], _ => Panic
  | x :: s', O => Ret (f x :: s')
  | x :: s', S k' => (r <- update s' k' f ;; Ret (x :: r))%go
  end.

(** [sum := 0; for m := range n { sum += in[idx m] * c m }] *)
Definition dot (n : Z) (inp : list F) (idx : nat -> nat) (c : nat -> F)
  : outcome F :=
  for_range n (fun m sum =>
    (x <- get inp (idx m) ;; Ret (add sum (mul x (c m))))%go) zero.

Definition Win (inp : list F) (blockType : Z) : outcome (list F) :=
  let out := repeat zero 36 in
  if blockType =? 2 then
    let iwd := imdctWinData 2 in
    for_range 3 (fun i =>
      for_range 12 (fun p out =>
        (sum <- dot 6 inp (fun m => i + 3 * m)%nat (fun m => cosN12 m p) ;;
         update out (6 * i + p + 6)
                (fun o => add o (mul sum (iwd p))))%go)) out
  else if (blockType <? 0) || (4 <=? blockType) then Panic
  else
    let iwd := imdctWinData (Z.to_nat blockType) in
    for_range 36 (fun p out =>
      (sum <- dot 18 inp (fun m => m) (fun m => cosN36 m p) ;;
       update out p (fun _ => mul sum (iwd p)))%go) out.

(** *** The short-block layout in the words of its description

    Sample [p] of the 12-point IMDCT of window [w], windowed: the sum
    over [m] of [in[w + 3 m] * cosN12[m][p]], times the short window. *)
Definition short_block (inp : list F) (w p : nat) : F :=
  mul (fold_left (fun sum m => add sum (mul (nth (w + 3 * m) inp zero)
                                            (cosN12 m p)))
                 (seq 0 6) zero)
      (imdctWinData 2 p).

(** The three windowed blocks laid at [first], [first + 6] and
    [first + 12] in 36 samples of zeros, added where they overlap. *)
Definition blocks_placed_from (first : nat) (inp : list F) : list F :=
  map (fun k =>
         fold_left (fun o w =>
                      if (first + 6 * w <=? k)%nat
                         && (k <? first + 6 * w + 12)%nat
                      then add o (short_block inp w (k - (first + 6 * w)))
                      else o)
                   (seq 0 3) zero)
      (seq 0 36).

End Win.

End imdct.

(** ** Package mp3: [Decoder.Seek] *)

Module mp3.

(** [io.SeekStart], [io.SeekCurrent], [io.SeekEnd] *)
Definition SeekStart : Z := 0.
Definition SeekCurrent : Z := 1.
Definition SeekEnd : Z := 2.

Definition invalidLength : Z := -1.

(** [int64] arithmetic as the decoder uses it; [/] and [%] truncate
    towards zero and panic on a zero divisor. *)
Definition int64_add (x y : Z) : Z := wrap_int (x + y).
Definition int64_div (x y : Z) : outcome Z :=
  if y =? 0 then Panic else Ret (wrap_int (Z.quot x y)).
Definition int64_rem (x y : Z) : outcome Z :=
  if y =? 0 then Panic else Ret (Z.rem x y).

(** [s[i]] and [s[i:]] on slices. *)
Definition at_index {A : Type} (s : list A) (i : Z) : outcome A :=
  if i <? 0 then Panic
  else match nth_error s (Z.to_nat i) with
       | Some x => Ret x
       | None => Panic
       end.

Definition slice_from {A : Type} (s : list A) (i : Z) : outcome (list A) :=
  if (i <? 0) || (Z.of_nat (length s) <? i) then Panic
  else Ret (skipn (Z.to_nat i) s).

Section Decoder.

(** The decoder's [*source] and package [frame] are not among the
    embedded sources.  A source is a state on which [Seek(offset,
    whence)] yields an error or none; [frame.Read(source, source.pos,
    prev)] yields the frame pointer it returns (possibly nil), an error
    or none, and the source it leaves; [Decode] yields the PCM bytes of
    a frame. *)
Context {Source Frame SeekError FrameError : Type}.
Variable source_Seek : Source -> Z -> Z -> option SeekError * Source.
Variable frame_Read :
  Source -> option Frame -> option Frame * option FrameError * Source.
Variable frame_Decode : Frame -> list byte.
(** [errors.Is(err, io.EOF)], or [err] is a [*consts.UnexpectedEOFError] *)
Variable is_EOF : FrameError -> bool.

Record Decoder : Type := mkDecoder {
  source : Source;
  sampleRate : Z;
  length : Z;
  frameStarts : list Z;
  buf : list byte;
  frame : option Frame;
  pos : Z;
  bytesPerFrame : Z
}.

Inductive error : Type :=
| EOF                              (* [io.EOF] *)
| FrameErr (e : FrameError)
| SeekErr (e : SeekError)
| InvalidWhence.                   (* "mp3: invalid whence" *)

Definition set_source (d : Decoder) (s : Source) : Decoder :=
  {| source := s; sampleRate := sampleRate d; length := length d;
     frameStarts := frameStarts d; buf := buf d; frame := frame d;
     pos := pos d; bytesPerFrame := bytesPerFrame d |}.

Definition set_buf (d : Decoder) (b : list byte) : Decoder :=
  {| source := source d; sampleRate := sampleRate d; length := length d;
     frameStarts := frameStarts d; buf := b; frame := frame d;
     pos := pos d; bytesPerFrame := bytesPerFrame d |}.

Definition set_frame (d : Decoder) (f : option Frame) : Decoder :=
  {| source := source d; sampleRate := sampleRate d; length := length d;
     frameStarts := frameStarts d; buf := buf d; frame := f;
     pos := pos d; bytesPerFrame := bytesPerFrame d |}.

Definition set_pos (d : Decoder) (p : Z) : Decoder :=
  {| source := source d; sampleRate := sampleRate d; length := length d;
     frameStarts := frameStarts d; buf := buf d; frame := frame d;
     pos := p; bytesPerFrame := bytesPerFrame d |}.

(** [readFrame]: the error it returns, or none, and the decoder. *)
Definition readFrame (d : Decoder) : outcome (option error * Decoder) :=
  let '(f, err, s) := frame_Read (source d) (frame d) in
  let d := set_frame (set_source d s) f in
  match err with
  | Some e => Ret (Some (if is_EOF e then EOF else FrameErr e), d)
  | None =>
    match f with
    | None => Panic                 (* [d.frame.Decode()] on nil *)
    | Some fr => Ret (None, set_buf d (buf d ++ frame_Decode fr))
    end
  end.

Definition Length (d : Decoder) : Z := length d.

(** [n] calls of [readFrame] in a row, up to the first error. *)
Fixpoint readFrames (n : nat) (d : Decoder)
  : outcome (option error * Decoder) :=
  match n with
  | O => Ret (None, d)
  | S n' =>
    (r <- readFrame d ;;
     match r with
     | (Some e, d) => Ret (Some e, d)
     | (None, d) => readFrames n' d
     end)%go
  end.

(** [d.source.Seek(d.frameStarts[f], 0)], then [n] calls of [readFrame];
    the first error ends it. *)
Definition seekToFrame (d : Decoder) (f : Z) (n : nat)
  : outcome (option error * Decoder) :=
  (start <- at_index (frameStarts d) f ;;
   let '(err, s) := source_Seek (source d) start 0 in
   let d := set_source d s in
   match err with
   | Some e => Ret (Some (SeekErr e), d)
   | None => readFrames n d
   end)%go.

Definition Seek (d : Decoder) (offset whence : Z)
  : outcome (result error Z * Decoder) :=
  if (offset =? 0) && (whence =? SeekCurrent) then Ret (Ok (pos d), d)
  else
    let npos :=
      if whence =? SeekStart then Some offset
      else if whence =? SeekCurrent then Some (int64_add (pos d) offset)
      else if whence =? SeekEnd then Some (int64_add (Length d) offset)
      else None in
    match npos with
    | None => Ret (Err InvalidWhence, d)
    | Some npos =>
      let d := set_frame (set_buf (set_pos d npos) []) None in
      let d := if pos d <? 0 then set_pos d 0 else d in
      if negb (length d =? invalidLength) && (length d <=? pos d)
      then Ret (Ok npos, d)
      else
        (f <- int64_div (pos d) (bytesPerFrame d) ;;
         if 0 <? f then
           r <- seekToFrame d (f - 1) 2 ;;
           match r with
           | (Some e, d) => Ret (Err e, d)
           | (None, d) =>
             rem <- int64_rem (pos d) (bytesPerFrame d) ;;
             b <- slice_from (buf d) (int64_add (bytesPerFrame d) rem) ;;
             Ret (Ok npos, set_buf d b)
           end
         else
           r <- seekToFrame d f 1 ;;
           match r with
           | (Some e, d) => Ret (Err e, d)
           | (None, d) =>
             b <- slice_from (buf d) (pos d) ;;
             Ret (Ok npos, set_buf d b)
           end)%go
    end.

End Decoder.

End mp3.

(** ** Fixtures of the repository's tests *)

Module fixtures.
Import frameheader.

(** A two-byte reader whose cursor stands at the end and whose error is
    already recorded. *)
Definition past_end : Bits.t :=
  Bits.set_err (Bits.set_cursor (Bits.New [xff; xff]) 2 0).

(** [mockReader]: an in-memory source that copies from [data[pos:]] and
    never reports an error. *)
Record mockReader : Type := mkMockReader {
  data : list byte;
  pos : Z
}.

Definition mockReader_ReadFull (r : mockReader) (n : Z)
  : list byte * option sideinfo.io_error * mockReader :=
  let got := firstn (Z.to_nat n) (skipn (Z.to_nat (pos r)) (data r)) in
  (got, None, {| data := data r; pos := pos r + Z.of_nat (length got) |}).

(** The accessor values of header [0xFFFB9044]: MPEG1 Layer III,
    128 kbps, 44100 Hz, joint stereo, no padding. *)
Definition header_FFFB9044 : FrameHeader :=
  {| NumberOfChannels := 2; FrameSize := Some 417; SideInfoSize := 32;
     LowSamplingFrequency := 0; SamplingFrequency := 0;
     Mode := consts.ModeJointStereo; Granules := 2 |}.

(** The same header with a frame size beyond the parser's limit. *)
Definition header_oversized : FrameHeader :=
  {| NumberOfChannels := 2; FrameSize := Some 2001; SideInfoSize := 32;
     LowSamplingFrequency := 0; SamplingFrequency := 0;
     Mode := consts.ModeJointStereo; Granules := 2 |}.

(** Thirty-two side-info bytes in which granule 0, channel 0 switches
    windows with block type 2 and no mixed block (bits 53 to 56 are
    1, 1, 0, 0). *)
Definition sideinfo_short_block : list byte :=
  [x00; x00; x00; x00; x00; x00; x06] ++ repeat x00 25.

(** What the parser makes of them under [header_FFFB9044]. *)
Definition parsed_short_block : sideinfo.SideInfo :=
  match sideinfo.parse header_FFFB9044 sideinfo_short_block with
  | Ret si => si
  | Panic => sideinfo.zero
  end.

(** A stand-in for [huffman.Decode] on which the statements about
    [readHuffman] are exercised: whatever the table, the next four bits
    are the four values, and an out-of-bounds read is the error. *)
Definition four_bit_Decode (m : Bits.t) (table : Z)
  : result unit (Z * Z * Z * Z) * Bits.t :=
  match Bits.Bits m 4 with
  | Ret (c, m') =>
    match Bits.Err m' with
    | Some _ => (Err tt, m')
    | None =>
      (Ok (Z.land (Z.shiftr c 1) 1, Z.land c 1,
           Z.land (Z.shiftr c 3) 1, Z.land (Z.shiftr c 2) 1), m')
    end
  | Panic => (Err tt, m)
  end.

(** A 23-entry long-block band table (the boundaries of MPEG-1 at
    44100 Hz) for every version and rate. *)
Definition bands_44100 (lsf sfreq : Z) : list Z :=
  [0; 4; 8; 12; 16; 20; 24; 30; 36; 44; 52; 62; 74; 90; 110; 134; 162; 196;
   238; 288; 342; 418; 576].

(** Side information of long blocks that is the same in every granule
    and channel: [Part2_3Length], [BigValues] and the two region counts
    are given, [GlobalGain] is 200, the rest is zero. *)
Definition sideinfo_long (part2_3_length big_values region0 region1 : Z)
  : sideinfo.SideInfo :=
  {| sideinfo.MainDataBegin := 0; sideinfo.PrivateBits := 0;
     sideinfo.Scfsi := fun _ _ => 0;
     sideinfo.grch := fun f _ _ =>
       match f with
       | sideinfo.Part2_3Length => part2_3_length
       | sideinfo.BigValues => big_values
       | sideinfo.GlobalGain => 200
       | sideinfo.Region0Count => region0
       | sideinfo.Region1Count => region1
       | _ => 0
       end;
     sideinfo.TableSelect := fun _ _ _ => 0;
     sideinfo.SubblockGain := fun _ _ _ => 0 |}.

(** The side information of [TestReadHuffmanRegionCountOverflow]. *)
Definition sideinfo_region_overflow : sideinfo.SideInfo :=
  sideinfo_long 100 10 15 7.

(** Region counts the table covers, and 98 bits of main data: two short
    of a whole number of four-bit codes. *)
Definition sideinfo_98_bits : sideinfo.SideInfo :=
  sideinfo_long 98 10 7 13.

(** More big values than a granule has room for. *)
Definition sideinfo_300_big_values : sideinfo.SideInfo :=
  sideinfo_long 4000 300 7 13.

(** [data := make([]byte, 256); m := bits.New(data)] and [&MainData{}] *)
Definition zero_reader : Bits.t := Bits.New (repeat x00 256).
Definition zero_maindata : maindata.MainData :=
  {| maindata.Is := fun _ _ _ => 0 |}.

(** A reader over 256 bytes of ones. *)
Definition ones_reader : Bits.t := Bits.New (repeat xff 256).

(** The state [readHuffman] leaves for [sideinfo_98_bits]. *)
Definition after_98_bits : maindata.state :=
  match maindata.readHuffman four_bit_Decode bands_44100 ones_reader
          header_FFFB9044 sideinfo_98_bits zero_maindata 0 0 0 with
  | Ret (_, st) => st
  | Panic => (ones_reader, sideinfo_98_bits, zero_maindata)
  end.

(** The short-block tables of [imdct] in thousandths, rounded:
    [cosN12[m][p]] is cos(pi/24 (2p + 7) (2m + 1)) and the short window
    [imdctWinData[2][p]] is sin(pi/12 (p + 1/2)) below 12 and 0 from
    there.  They make [Win] computable over the integers. *)
Definition cosN12_milli (m p : nat) : Z :=
  nth p (nth m
    [[609; 383; 131; -131; -383; -609; -793; -924; -991; -991; -924; -793];
     [-924; -924; -383; 383; 924; 924; 383; -383; -924; -924; -383; 383];
     [-131; 924; 609; -609; -924; 131; 991; 383; -793; -793; 383; 991];
     [991; -383; -793; 793; 383; -991; 131; 924; -609; -609; 924; 131];
     [-383; -383; 924; -924; 383; 383; -924; 924; -383; -383; 924; -924];
     [-793; 924; -991; 991; -924; 793; -609; 383; -131; -131; 383; -609]]
    []) 0.

Definition short_window_milli (blockType p : nat) : Z :=
  match blockType with
  | 2%nat => nth p [131; 383; 609; 793; 924; 991; 991; 924; 793; 609; 383;
                    131] 0
  | _ => 0
  end.

(** [Win] over the integers with these tables (the 36-point table plays
    no part for block type 2). *)
Definition Win_milli : list Z -> Z -> outcome (list Z) :=
  imdct.Win 0 Z.add Z.mul short_window_milli cosN12_milli (fun _ _ => 0).

(** Eighteen input lines: the first is 1000, the others are 0. *)
Definition first_line_only : list Z := 1000 :: repeat 0 17.

(** A decoder over a toy stream of three 417-byte frames that decode to
    eight PCM bytes each: the source is its read position, a frame is
    the offset it was read at, and frame number [k] decodes to eight
    bytes of value [k]. *)
Definition toy_Seek (s : Z) (offset whence : Z) : option unit * Z :=
  (None, offset).

Definition toy_Read (s : Z) (prev : option Z)
  : option Z * option unit * Z :=
  (Some s, None, s + 417).

Definition toy_Decode (fr : Z) : list byte :=
  repeat (if fr =? 0 then x00 else if fr =? 417 then x01 else x02) 8.

Definition toy_decoder : mp3.Decoder (Source := Z) (Frame := Z) :=
  {| mp3.source := 417; mp3.sampleRate := 44100; mp3.length := 24;
     mp3.frameStarts := [0; 417; 834]; mp3.buf := [x00; x00];
     mp3.frame := Some 0; mp3.pos := 6; mp3.bytesPerFrame := 8 |}.

End fixtures.

(** ** Package bits: reading sessions *)

Module BitsSpec.
Import Bits.

(** The cursor invariant of a reader in use: within its invariant and
    not beyond the end of the buffer. *)
Definition inside (b : t) : Prop :=
  wf b /\ bytePos b * 8 + bitPos b <= len b * 8.

(** The calls of a reading session: single bits, requests of up to 32
    bits, and the queries. *)
Definition plain_read (o : op) : Prop :=
  match o with
  | OpBit | OpBitPos | OpLenInBytes | OpErr => True
  | OpBits num => 0 <= num <= 32
  | OpSetPos _ | OpTail _ => False
  end.

End BitsSpec.

(** ** Package sideinfo: what a parsed [SideInfo] looks like *)

Module sideinfoSpec.
Import frameheader sideinfo.

(** The least value a [[2][2]int] field of a parsed [SideInfo] cannot
    take: two to the width of the widest read that fills it, or one more
    than the largest implicit value stored in it. *)
Definition field_bound (f : field) : Z :=
  match f with
  | Part2_3Length => 4096
  | BigValues => 512
  | GlobalGain => 256
  | ScalefacCompress => 512
  | WinSwitchFlag => 2
  | BlockType => 4
  | MixedBlockFlag => 2
  | Region0Count => 16
  | Region1Count => 14
  | Preflag => 2
  | ScalefacScale => 2
  | Count1TableSelect => 2
  | Count1 => 1
  end.

Definition in_range (si : SideInfo) : Prop :=
  0 <= MainDataBegin si < 512 /\
  0 <= PrivateBits si < 32 /\
  (forall ch band, 0 <= Scfsi si ch band <= 1) /\
  (forall f gr ch, 0 <= grch si f gr ch < field_bound f) /\
  (forall gr ch region, 0 <= TableSelect si gr ch region < 32) /\
  (forall gr ch window, 0 <= SubblockGain si gr ch window < 8).

(** A header [Read] can parse: a frame size of at most 2000 bytes, a
    side-info size a slice can have, at most two channels and two
    granules, and a row of [sideInfoBitsToRead]. *)
Definition parsable (h : FrameHeader) : Prop :=
  (exists framesize, FrameSize h = Some framesize /\ framesize <= 2000) /\
  0 <= SideInfoSize h < 2 ^ 59 /\
  NumberOfChannels h <= 2 /\
  Granules h <= 2 /\
  0 <= LowSamplingFrequency h <= 1.

(** The bits of one granule of one channel: 59 in an MPEG1 frame, 63 in
    an MPEG2 frame. *)
Definition granuleChannelBits (mpeg1Frame : bool) : Z :=
  if mpeg1Frame then 59 else 63.

(** [room n st]: the reader of [st] stands inside its buffer with [n]
    bits or more ahead.  [reads n st st']: the reader of [st'] is the
    one of [st] moved on by [n] bits, no error added. *)
Definition room (n : Z) (st : pstate) : Prop :=
  BitsSpec.inside (fst st) /\
  Bits.bytePos (fst st) * 8 + Bits.bitPos (fst st) + n
    <= Bits.len (fst st) * 8.

Definition reads (n : Z) (st st' : pstate) : Prop :=
  BitsSpec.inside (fst st') /\
  Bits.bytePos (fst st') * 8 + Bits.bitPos (fst st')
    = Bits.bytePos (fst st) * 8 + Bits.bitPos (fst st) + n /\
  Bits.vec (fst st') = Bits.vec (fst st) /\
  Bits.err (fst st') = Bits.err (fst st).

(** The accessor values of an MPEG2 Layer III mono header (64 kbps at
    22050 Hz): one channel, one granule, nine bytes of side
    information; and what the parser makes of nine bytes of ones under
    it. *)
Definition header_mpeg2_mono : FrameHeader :=
  {| NumberOfChannels := 1; FrameSize := Some 208; SideInfoSize := 9;
     LowSamplingFrequency := 1; SamplingFrequency := 0;
     Mode := consts.ModeSingleChannel; Granules := 1 |}.

Definition parsed_mpeg2_ones : SideInfo :=
  match parse header_mpeg2_mono (repeat xff 9) with
  | Ret si => si
  | Panic => zero
  end.

End sideinfoSpec.

(** ** Package maindata: what a call leaves alone *)

Module maindataSpec.
Import maindata.

(** [md'] holds what [md] holds in every granule and channel but
    [[gr][ch]]. *)
Definition others_kept (gr ch : nat) (md md' : MainData) : Prop :=
  forall g c i, g <> gr \/ c <> ch -> Is md' g c i = Is md g c i.

(** The state [readHuffman] leaves for [fixtures.sideinfo_300_big_values]
    over a reader of ones. *)
Definition after_300_big_values : state :=
  match readHuffman fixtures.four_bit_Decode fixtures.bands_44100
          fixtures.ones_reader fixtures.header_FFFB9044
          fixtures.sideinfo_300_big_values fixtures.zero_maindata 0 0 0 with
  | Ret (_, st) => st
  | Panic => (fixtures.ones_reader, fixtures.sideinfo_300_big_values,
              fixtures.zero_maindata)
  end.

End maindataSpec.

(** ** Package imdct: long blocks *)

Module imdctSpec.

Section Win.

Context {F : Type}.
Variable zero : F.
Variable add mul : F -> F -> F.
Variable imdctWinData : nat -> nat -> F.
Variable cosN36 : nat -> nat -> F.

(** Sample [p] of the windowed 36-point IMDCT: the sum over [m] of
    [in[m] * cosN36[m][p]], times the window of the block type. *)
Definition long_block (inp : list F) (blockType p : nat) : F :=
  mul (fold_left (fun sum m => add sum (mul (nth m inp zero) (cosN36 m p)))
                 (seq 0 18) zero)
      (imdctWinData blockType p).

End Win.

End imdctSpec.

(** ** Package mp3: the other methods of [Decoder] *)

Module decoder.
Import mp3.

(** [time.Duration] is an [int64] of nanoseconds. *)
Definition Second : Z := 1000000000.

Section Decoder.

Context {Source Frame SeekError FrameError : Type}.
Variable source_Seek : Source -> Z -> Z -> option SeekError * Source.
Variable frame_Read :
  Source -> option Frame -> option Frame * option FrameError * Source.
Variable frame_Decode : Frame -> list byte.
Variable is_EOF : FrameError -> bool.

#[local] Abbreviation Decoder := (Decoder (Source := Source) (Frame := Frame)).
#[local] Abbreviation error :=
  (error (SeekError := SeekError) (FrameError := FrameError)).

(** The loop [for len(d.buf) == 0 { readFrame }] of [Read].  [fuel]
    bounds the number of frames read; [None] is a loop that has not
    come to its end within the bound. *)
Fixpoint fillBuf (fuel : nat) (d : Decoder)
  : outcome (option (option error * Decoder)) :=
  match buf d with
  | _ :: _ => Ret (Some (None, d))
  | [] =>
    match fuel with
    | O => Ret None
    | S fuel' =>
      (r <- readFrame frame_Read frame_Decode is_EOF d ;;
       match r with
       | (Some e, d) => Ret (Some (Some e, d))
       | (None, d) => fillBuf fuel' d
       end)%go
    end
  end.

(** [Read(buf)] for a [buf] of [n] bytes: the bytes copied to its front
    (their number is the count returned) or the error, and the
    decoder. *)
Definition Read (fuel : nat) (d : Decoder) (n : nat)
  : outcome (option (result error (list byte) * Decoder)) :=
  (r <- fillBuf fuel d ;;
   match r with
   | None => Ret None
   | Some (Some e, d) => Ret (Some (Err e, d))
   | Some (None, d) =>
     let got := firstn n (buf d) in
     let k := List.length got in
     let d := set_buf d (skipn k (buf d)) in
     let d := set_pos d (int64_add (pos d) (Z.of_nat k)) in
     Ret (Some (Ok got, d))
   end)%go.

Definition SampleRate (d : Decoder) : Z := sampleRate d.
Definition BytesPerFrame (d : Decoder) : Z := bytesPerFrame d.

(** [int64(time.Second) * bytes / int64(d.sampleRate*4)] *)
Definition bytesToDuration (d : Decoder) (bytes : Z) : outcome Z :=
  int64_div (int_mul Second bytes) (int_mul (sampleRate d) 4).

(** [int64(dur) * int64(d.sampleRate*4) / int64(time.Second)] *)
Definition durationToBytes (d : Decoder) (dur : Z) : outcome Z :=
  int64_div (int_mul dur (int_mul (sampleRate d) 4)) Second.

Definition Duration (d : Decoder) : outcome Z :=
  if length d =? invalidLength then Ret (-1)
  else bytesToDuration d (length d).

Definition Position (d : Decoder) : outcome Z := bytesToDuration d (pos d).

Definition Remaining (d : Decoder) : outcome Z :=
  (dur <- Duration d ;;
   if dur <? 0 then Ret (-1)
   else p <- Position d ;; Ret (int_sub dur p))%go.

Definition SamplePosition (d : Decoder) : Z := Z.quot (pos d) 4.

Definition SampleCount (d : Decoder) : Z :=
  if length d =? invalidLength then -1 else Z.quot (length d) 4.

(** The errors of [SeekToSample], [SeekToTime] and [Skip]. *)
Inductive seek_error : Type :=
| NotSeekable       (* "mp3: seek not supported on non-seekable source" *)
| SeekFailed (e : error).

(** [_, err := d.Seek(bytes, io.SeekStart); return err] *)
Definition seekBytes (d : Decoder) (bytes : Z)
  : outcome (option seek_error * Decoder) :=
  (r <- Seek source_Seek frame_Read frame_Decode is_EOF d bytes SeekStart ;;
   match r with
   | (Ok _, d) => Ret (None, d)
   | (Err e, d) => Ret (Some (SeekFailed e), d)
   end)%go.

Definition SeekToSample (d : Decoder) (sample : Z)
  : outcome (option seek_error * Decoder) :=
  if length d =? invalidLength then Ret (Some NotSeekable, d)
  else
    let sample := if sample <? 0 then 0 else sample in
    let maxSamples := SampleCount d in
    let sample := if maxSamples <? sample then maxSamples else sample in
    let bytes := int_mul sample 4 in
    seekBytes d bytes.

Definition SeekToTime (d : Decoder) (t : Z)
  : outcome (option seek_error * Decoder) :=
  if length d =? invalidLength then Ret (Some NotSeekable, d)
  else
    let t := if t <? 0 then 0 else t in
    (maxDur <- Duration d ;;
     let t := if maxDur <? t then maxDur else t in
     bytes <- durationToBytes d t ;;
     let bytes := Z.land bytes (Z.lnot 3) in    (* [bytes &^= 3] *)
     seekBytes d bytes)%go.

Definition Skip (d : Decoder) (delta : Z)
  : outcome (option seek_error * Decoder) :=
  (p <- Position d ;; SeekToTime d (int_add p delta))%go.

End Decoder.

End decoder.

Module decoderSpec.
Import mp3.

Section Decoder.

Context {Source Frame : Type}.

#[local] Abbreviation Decoder := (Decoder (Source := Source) (Frame := Frame)).

(** What a decoder knows of its stream. *)
Definition same_stream (d d' : Decoder) : Prop :=
  sampleRate d' = sampleRate d /\ length d' = length d /\
  frameStarts d' = frameStarts d /\ bytesPerFrame d' = bytesPerFrame d.

(** The position [Seek] aims at, before it is clamped. *)
Definition target (d : Decoder) (offset whence : Z) : Z :=
  if whence =? SeekStart then offset
  else if whence =? SeekCurrent then int64_add (pos d) offset
  else int64_add (Length d) offset.

End Decoder.

End decoderSpec.

(** ** Package lameinfo *)

Module lameinfo.

(** [byte(x)] of an unsigned integer: its low eight bits. *)
Definition byte_of (x : Z) : byte :=
  match Byte.of_N (Z.to_N (x mod 256)) with
  | Some b => b
  | None => x00
  end.

Definition byte_val : byte -> Z := Bits.byte_val.

Definition to_uint16 (z : Z) : Z := z mod 2 ^ 16.

Definition len (s : list byte) : Z := Z.of_nat (length s).

(** [s[lo:hi]], taking the capacity of [s] to be its length. *)
Definition slice (s : list byte) (lo hi : Z) : outcome (list byte) :=
  if (lo <? 0) || (hi <? lo) || (len s <? hi) then Panic
  else Ret (firstn (Z.to_nat (hi - lo)) (skipn (Z.to_nat lo) s)).

(** [s[i]] *)
Definition index (s : list byte) (i : Z) : outcome byte :=
  if (i <? 0) || (len s <=? i) then Panic
  else Ret (nth (Z.to_nat i) s x00).

(** [binary.BigEndian.Uint32(b)] *)
Definition Uint32 (b : list byte) : outcome Z :=
  match b with
  | b0 :: b1 :: b2 :: b3 :: _ =>
    Ret (Z.lor (Z.lor (Z.lor (byte_val b3) (Z.shiftl (byte_val b2) 8))
                      (Z.shiftl (byte_val b1) 16))
               (Z.shiftl (byte_val b0) 24))
  | _ => Panic
  end.

Fixpoint bytes_eqb (a b : list byte) : bool :=
  match a, b with
  | [], [] => true
  | x :: a', y :: b' => Byte.eqb x y && bytes_eqb a' b'
  | _, _ => false
  end.

(** The strings the package compares with. *)
Definition str_Xing : list byte := [x58; x69; x6e; x67].
Definition str_Info : list byte := [x49; x6e; x66; x6f].
Definition str_LAME : list byte := [x4c; x41; x4d; x45].
Definition str_L3_9 : list byte := [x4c; x33; x2e; x39].
Definition str_Gogo : list byte := [x47; x6f; x67; x6f].
Definition str_GOGO : list byte := [x47; x4f; x47; x4f].

Record Info : Type := mkInfo {
  IsXing : bool;
  Flags : Z;                (* uint32 *)
  FrameCount : Z;           (* uint32 *)
  ByteCount : Z;            (* uint32 *)
  TOC : list byte;          (* [100]byte *)
  VBRScale : Z;             (* uint32 *)
  LAMEVersion : list byte;  (* string *)
  EncoderDelay : Z;         (* uint16 *)
  EncoderPadding : Z        (* uint16 *)
}.

Definition set_Flags (i : Info) (v : Z) : Info :=
  {| IsXing := IsXing i; Flags := v; FrameCount := FrameCount i;
     ByteCount := ByteCount i; TOC := TOC i; VBRScale := VBRScale i;
     LAMEVersion := LAMEVersion i; EncoderDelay := EncoderDelay i;
     EncoderPadding := EncoderPadding i |}.

Definition set_FrameCount (i : Info) (v : Z) : Info :=
  {| IsXing := IsXing i; Flags := Flags i; FrameCount := v;
     ByteCount := ByteCount i; TOC := TOC i; VBRScale := VBRScale i;
     LAMEVersion := LAMEVersion i; EncoderDelay := EncoderDelay i;
     EncoderPadding := EncoderPadding i |}.

Definition set_ByteCount (i : Info) (v : Z) : Info :=
  {| IsXing := IsXing i; Flags := Flags i; FrameCount := FrameCount i;
     ByteCount := v; TOC := TOC i; VBRScale := VBRScale i;
     LAMEVersion := LAMEVersion i; EncoderDelay := EncoderDelay i;
     EncoderPadding := EncoderPadding i |}.

Definition set_TOC (i : Info) (v : list byte) : Info :=
  {| IsXing := IsXing i; Flags := Flags i; FrameCount := FrameCount i;
     ByteCount := ByteCount i; TOC := v; VBRScale := VBRScale i;
     LAMEVersion := LAMEVersion i; EncoderDelay := EncoderDelay i;
     EncoderPadding := EncoderPadding i |}.

Definition set_VBRScale (i : Info) (v : Z) : Info :=
  {| IsXing := IsXing i; Flags := Flags i; FrameCount := FrameCount i;
     ByteCount := ByteCount i; TOC := TOC i; VBRScale := v;
     LAMEVersion := LAMEVersion i; EncoderDelay := EncoderDelay i;
     EncoderPadding := EncoderPadding i |}.

Definition set_LAMEVersion (i : Info) (v : list byte) : Info :=
  {| IsXing := IsXing i; Flags := Flags i; FrameCount := FrameCount i;
     ByteCount := ByteCount i; TOC := TOC i; VBRScale := VBRScale i;
     LAMEVersion := v; EncoderDelay := EncoderDelay i;
     EncoderPadding := EncoderPadding i |}.

Definition set_delay_padding (i : Info) (delay padding : Z) : Info :=
  {| IsXing := IsXing i; Flags := Flags i; FrameCount := FrameCount i;
     ByteCount := ByteCount i; TOC := TOC i; VBRScale := VBRScale i;
     LAMEVersion := LAMEVersion i; EncoderDelay := delay;
     EncoderPadding := padding |}.

Definition FlagFrameCount : Z := 0x0001.
Definition FlagByteCount : Z := 0x0002.
Definition FlagTOC : Z := 0x0004.
Definition FlagVBRScale : Z := 0x0008.

Definition HasFrameCount (i : Info) : bool :=
  negb (Z.land (Flags i) FlagFrameCount =? 0).
Definition HasByteCount (i : Info) : bool :=
  negb (Z.land (Flags i) FlagByteCount =? 0).
Definition HasTOC (i : Info) : bool :=
  negb (Z.land (Flags i) FlagTOC =? 0).
Definition HasVBRScale (i : Info) : bool :=
  negb (Z.land (Flags i) FlagVBRScale =? 0).
Definition HasLAMEInfo (i : Info) : bool :=
  negb (bytes_eqb (LAMEVersion i) []).

Definition DecoderDelay : Z := 529.

Definition TotalDelay (i : Info) : Z :=
  if negb (HasLAMEInfo i) then DecoderDelay
  else int_add (EncoderDelay i) DecoderDelay.

Definition TotalPadding (i : Info) : Z :=
  if negb (HasLAMEInfo i) then 0
  else
    let padding := int_sub (EncoderPadding i) DecoderDelay in
    if padding <? 0 then 0 else padding.

Definition sideInfoSize (mpegVersion : Z) (mono : bool) : Z :=
  if mpegVersion =? 1 then (if mono then 17 else 32)
  else (if mono then 9 else 17).

Definition isLAMEVersion (s : list byte) : bool :=
  if len s <? 4 then false
  else
    let prefix := firstn 4 s in
    bytes_eqb prefix str_LAME || bytes_eqb prefix str_L3_9
    || bytes_eqb prefix str_Gogo || bytes_eqb prefix str_GOGO.

(** [Parse] returns [(nil, ErrNoXingHeader)], its only error, as
    [None].  [c ;;? k] goes on with [k] when [c] returned a value. *)
Definition ebind {A B : Type} (c : outcome (option A))
  (k : A -> outcome (option B)) : outcome (option B) :=
  match c with
  | Ret (Some a) => k a
  | Ret None => Ret None
  | Panic => Panic
  end.

(** [info.F = binary.BigEndian.Uint32(frame[pos:pos+4]); pos += 4],
    behind its length check. *)
Definition readUint32 (frame : list byte) (pos : Z) : outcome (option (Z * Z)) :=
  if len frame <? int_add pos 4 then Ret None
  else
    (v <- (b <- slice frame pos (int_add pos 4) ;; Uint32 b) ;;
     Ret (Some (v, int_add pos 4)))%go.

(** The LAME tag, tried at [pos]. *)
Definition readLAME (frame : list byte) (info : Info) (pos : Z)
  : outcome Info :=
  if negb (len frame <? int_add pos 9) then
    (version <- slice frame pos (int_add pos 9) ;;
     if isLAMEVersion version then
       let info := set_LAMEVersion info version in
       let pos := int_add pos 9 in
       let delayOffset := int_add pos 12 in
       if negb (len frame <? int_add delayOffset 3) then
         b0 <- index frame delayOffset ;;
         b1 <- index frame (int_add delayOffset 1) ;;
         let delay :=
           Z.lor (to_uint16 (Z.shiftl (byte_val b0) 4))
                 (Z.shiftr (byte_val b1) 4) in
         b1' <- index frame (int_add delayOffset 1) ;;
         b2 <- index frame (int_add delayOffset 2) ;;
         let padding :=
           Z.lor (to_uint16 (Z.shiftl (Z.land (byte_val b1') 0x0F) 8))
                 (byte_val b2) in
         Ret (set_delay_padding info delay padding)
       else Ret info
     else Ret info)%go
  else Ret info.

Definition Parse (frame : list byte) : outcome (option Info) :=
  if len frame <? 4 then Ret None else
  (header <- (b <- slice frame 0 4 ;; Uint32 b) ;;
   if negb (Z.land header 0xFFE00000 =? 0xFFE00000) then Ret None else
   let mpegVersion := Z.land (Z.shiftr header 19) 0x03 in
   if mpegVersion =? 1 then Ret None else
   let version :=
     if mpegVersion =? 0 then 25
     else if mpegVersion =? 2 then 2
     else if mpegVersion =? 3 then 1
     else 0 in
   let channelMode := Z.land (Z.shiftr header 6) 0x03 in
   let mono := channelMode =? 3 in
   let sideInfo :=
     if version =? 1 then sideInfoSize 1 mono else sideInfoSize 2 mono in
   let offset := int_add 4 sideInfo in
   if len frame <? int_add offset 4 then Ret None else
   tag <- slice frame offset (int_add offset 4) ;;
   if negb (bytes_eqb tag str_Xing) && negb (bytes_eqb tag str_Info)
   then Ret None else
   let info :=
     {| IsXing := bytes_eqb tag str_Xing; Flags := 0; FrameCount := 0;
        ByteCount := 0; TOC := repeat x00 100; VBRScale := 0;
        LAMEVersion := []; EncoderDelay := 0; EncoderPadding := 0 |} in
   let pos := int_add offset 4 in
   ebind (readUint32 frame pos) (fun '(v, pos) =>
   let info := set_Flags info v in
   ebind (if HasFrameCount info
          then ebind (readUint32 frame pos) (fun '(v, pos) =>
                 Ret (Some (set_FrameCount info v, pos)))
          else Ret (Some (info, pos))) (fun '(info, pos) =>
   ebind (if HasByteCount info
          then ebind (readUint32 frame pos) (fun '(v, pos) =>
                 Ret (Some (set_ByteCount info v, pos)))
          else Ret (Some (info, pos))) (fun '(info, pos) =>
   ebind (if HasTOC info
          then if len frame <? int_add pos 100 then Ret None
               else (toc <- slice frame pos (int_add pos 100) ;;
                     Ret (Some (set_TOC info toc, int_add pos 100)))
          else Ret (Some (info, pos))) (fun '(info, pos) =>
   ebind (if HasVBRScale info
          then ebind (readUint32 frame pos) (fun '(v, pos) =>
                 Ret (Some (set_VBRScale info v, pos)))
          else Ret (Some (info, pos))) (fun '(info, pos) =>
   info <- readLAME frame info pos ;;
   Ret (Some info)))))))%go.

(** [bitrateTable] and [samplingRateTable] *)
Definition bitrateTable : list (list (list Z)) :=
  let none := repeat 0 16 in
  let low := [0; 8; 16; 24; 32; 40; 48; 56; 64; 80; 96; 112; 128; 144; 160; 0] in
  let low1 := [0; 32; 48; 56; 64; 80; 96; 112; 128; 144; 160; 176; 192; 224;
               256; 0] in
  [ [none; low; low; low1];
    [none; none; none; none];
    [none; low; low; low1];
    [none;
     [0; 32; 40; 48; 56; 64; 80; 96; 112; 128; 160; 192; 224; 256; 320; 0];
     [0; 32; 48; 56; 64; 80; 96; 112; 128; 160; 192; 224; 256; 320; 384; 0];
     [0; 32; 64; 96; 128; 160; 192; 224; 256; 288; 320; 352; 384; 416; 448;
      0]] ].

Definition samplingRateTable : list (list Z) :=
  [ [11025; 12000; 8000; 0];
    [0; 0; 0; 0];
    [22050; 24000; 16000; 0];
    [44100; 48000; 32000; 0] ].

(** [t[i]] on an array. *)
Definition at_index {A : Type} (t : list A) (i : Z) : outcome A :=
  if i <? 0 then Panic
  else match nth_error t (Z.to_nat i) with
       | Some x => Ret x
       | None => Panic
       end.

Definition calculateFrameSize
  (mpegVersion layer bitrateIndex samplingRateIndex padding : Z)
  : outcome Z :=
  (t1 <- at_index bitrateTable mpegVersion ;;
   t2 <- at_index t1 layer ;;
   kbps <- at_index t2 bitrateIndex ;;
   let bitrate := int_mul kbps 1000 in
   t3 <- at_index samplingRateTable mpegVersion ;;
   samplingRate <- at_index t3 samplingRateIndex ;;
   if (bitrate =? 0) || (samplingRate =? 0) then Ret 0
   else if layer =? 3 then
     q <- mp3.int64_div (int_mul 12 bitrate) samplingRate ;;
     Ret (int_mul (int_add q padding) 4)
   else if mpegVersion =? 3 then
     q <- mp3.int64_div (int_mul 144 bitrate) samplingRate ;;
     Ret (int_add q padding)
   else
     q <- mp3.int64_div (int_mul 72 bitrate) samplingRate ;;
     Ret (int_add q padding))%go.

Section ParseFromReader.

(** [io.ReadFull(r, buf)] for a buffer of [n] bytes: the bytes read,
    the error or none, and the reader it leaves. *)
Context {Reader IOError : Type}.
Variable io_ReadFull : Reader -> Z -> list byte * option IOError * Reader.

Inductive error : Type :=
| ErrNoXingHeader
| IOErr (e : IOError).

(** [buf := make([]byte, n)] after a read stored [data] at its front. *)
Definition filled (n : Z) (data : list byte) : list byte :=
  firstn (Z.to_nat n) (data ++ repeat x00 (Z.to_nat n)).

Definition ParseFromReader (r : Reader)
  : outcome (result error Info * Reader) :=
  let '(data, err, r) := io_ReadFull r 4 in
  match err with
  | Some e => Ret (Err (IOErr e), r)
  | None =>
    let header := filled 4 data in
    (h <- Uint32 header ;;
     if negb (Z.land h 0xFFE00000 =? 0xFFE00000)
     then Ret (Err ErrNoXingHeader, r) else
     let mpegVersion := Z.land (Z.shiftr h 19) 0x03 in
     let layer := Z.land (Z.shiftr h 17) 0x03 in
     let bitrateIndex := Z.land (Z.shiftr h 12) 0x0F in
     let samplingRateIndex := Z.land (Z.shiftr h 10) 0x03 in
     let padding := Z.land (Z.shiftr h 9) 0x01 in
     if (mpegVersion =? 1) || (layer =? 0) || (bitrateIndex =? 0)
        || (bitrateIndex =? 15) || (samplingRateIndex =? 3)
     then Ret (Err ErrNoXingHeader, r) else
     frameSize <- calculateFrameSize mpegVersion layer bitrateIndex
                    samplingRateIndex padding ;;
     if frameSize <? 4 then Ret (Err ErrNoXingHeader, r) else
     let '(data, err, r) := io_ReadFull r (int_sub frameSize 4) in
     match err with
     | Some e => Ret (Err (IOErr e), r)
     | None =>
       let frame := header ++ filled (int_sub frameSize 4) data in
       p <- Parse frame ;;
       match p with
       | Some info => Ret (Ok info, r)
       | None => Ret (Err ErrNoXingHeader, r)
       end
     end)%go
  end.

End ParseFromReader.

(** *** [buildTestFrame], the frame builder of the package's tests *)

Record testFrameOptions : Type := mkOptions {
  isXing : bool;
  flags : Z;             (* uint32 *)
  frameCount : Z;        (* uint32 *)
  byteCount : Z;         (* uint32 *)
  vbrScale : Z;          (* uint32 *)
  lameVersion : list byte;
  encoderDelay : Z;      (* uint16 *)
  encoderPadding : Z     (* uint16 *)
}.

(** The four bytes written for a [uint32] field. *)
Definition be_bytes (v : Z) : list byte :=
  [byte_of (Z.shiftr v 24); byte_of (Z.shiftr v 16); byte_of (Z.shiftr v 8);
   byte_of v].

Definition buildTestFrame (opts : testFrameOptions) : list byte :=
  let header := [xff; xfb; x90; x00] in
  let sideInfo := repeat x00 32 in
  let tag := if isXing opts then str_Xing else str_Info in
  let flagBytes := [x00; x00; x00; byte_of (flags opts)] in
  let frame := header ++ sideInfo ++ tag ++ flagBytes in
  let frame :=
    if negb (Z.land (flags opts) FlagFrameCount =? 0)
    then frame ++ be_bytes (frameCount opts) else frame in
  let frame :=
    if negb (Z.land (flags opts) FlagByteCount =? 0)
    then frame ++ be_bytes (byteCount opts) else frame in
  let frame :=
    if negb (Z.land (flags opts) FlagTOC =? 0)
    then frame ++ map (fun i => byte_of (Z.of_nat i)) (seq 0 100)
    else frame in
  let frame :=
    if negb (Z.land (flags opts) FlagVBRScale =? 0)
    then frame ++ be_bytes (vbrScale opts) else frame in
  let frame :=
    if negb (bytes_eqb (lameVersion opts) [])
    then
      let version := firstn 9 (lameVersion opts ++ repeat x00 9) in
      let lameInfo := repeat x00 12 in
      let delayPadding :=
        [byte_of (Z.shiftr (encoderDelay opts) 4);
         byte_of (Z.lor (byte_val (byte_of
                                     (to_uint16 (Z.shiftl (encoderDelay opts) 4))))
                        (byte_val (byte_of
                                     (Z.shiftr (encoderPadding opts) 8))));
         byte_of (encoderPadding opts)] in
      let remaining := repeat x00 12 in
      frame ++ version ++ lameInfo ++ delayPadding ++ remaining
    else frame in
  let minSize := 417 in
  if len frame <? minSize
  then frame ++ repeat x00 (Z.to_nat (int_sub minSize (len frame)))
  else frame.

End lameinfo.

Module lameinfoSpec.
Import lameinfo.

(** What [Parse] hands out: fields of the width they are read at, a
    field that is not flagged left at its zero value, and the LAME
    version either empty, with no delay and no padding, or nine bytes
    that [isLAMEVersion] accepts, with 12-bit delay and padding. *)
Definition well_formed (i : Info) : Prop :=
  0 <= Flags i < 2 ^ 32 /\
  0 <= FrameCount i < 2 ^ 32 /\ (HasFrameCount i = false -> FrameCount i = 0) /\
  0 <= ByteCount i < 2 ^ 32 /\ (HasByteCount i = false -> ByteCount i = 0) /\
  len (TOC i) = 100 /\ (HasTOC i = false -> TOC i = repeat x00 100) /\
  0 <= VBRScale i < 2 ^ 32 /\ (HasVBRScale i = false -> VBRScale i = 0) /\
  0 <= EncoderDelay i < 4096 /\ 0 <= EncoderPadding i < 4096 /\
  (if HasLAMEInfo i
   then len (LAMEVersion i) = 9 /\ isLAMEVersion (LAMEVersion i) = true
   else EncoderDelay i = 0 /\ EncoderPadding i = 0).

(** The options of [TestParse_LAMEInfo] and the [Info] they stand for. *)
Definition str_LAME3_100 : list byte :=
  [x4c; x41; x4d; x45; x33; x2e; x31; x30; x30].

Definition options_LAMEInfo : testFrameOptions :=
  {| isXing := true; flags := FlagFrameCount; frameCount := 3000;
     byteCount := 0; vbrScale := 0; lameVersion := str_LAME3_100;
     encoderDelay := 576; encoderPadding := 1848 |}.

Definition info_LAMEInfo : Info :=
  {| IsXing := true; Flags := 1; FrameCount := 3000; ByteCount := 0;
     TOC := repeat x00 100; VBRScale := 0; LAMEVersion := str_LAME3_100;
     EncoderDelay := 576; EncoderPadding := 1848 |}.

(** [bytes.NewReader(data)] under [io.ReadFull]: the bytes left, which a
    read takes from the front; a read that comes short reports an
    error. *)
Definition bytesReader_ReadFull (r : list byte) (n : Z)
  : list byte * option unit * list byte :=
  let got := firstn (Z.to_nat n) r in
  (got, if len got <? n then Some tt else None, skipn (Z.to_nat n) r).

End lameinfoSpec.

(** * Properties *)

(** ** Machine integers *)

Lemma wrap_int_small (z : Z) :
  - 2 ^ 63 <= z < 2 ^ 63 -> wrap_int z = z.
Proof.
  intros Hz. unfold wrap_int.
  rewrite Z.mod_small by lia. lia.
Qed.

Lemma wrap_int_range (z : Z) : - 2 ^ 63 <= wrap_int z < 2 ^ 63.
Proof.
  unfold wrap_int.
  pose proof (Z.mod_pos_bound (z + 2 ^ 63) (2 ^ 64) ltac:(lia)). lia.
Qed.

Lemma to_uint_small (z : Z) : 0 <= z < 2 ^ 64 -> to_uint z = z.
Proof. intros Hz. unfold to_uint. now rewrite Z.mod_small. Qed.

(** ** Package bits *)

Module BitsFacts.
Import Bits.

(** The repository's own test vector ([TestBits]). *)
Example TestBits :
  let b0 := New [x55; xaa; xcc; x33] in
  Bits b0 1 = Ret (0, set_cursor b0 0 1) /\
  Bits (set_cursor b0 0 1) 1 = Ret (1, set_cursor b0 0 2) /\
  Bits (set_cursor b0 0 2) 1 = Ret (0, set_cursor b0 0 3) /\
  Bits (set_cursor b0 0 3) 1 = Ret (1, set_cursor b0 0 4) /\
  Bits (set_cursor b0 0 4) 8 = Ret (90, set_cursor b0 1 4) /\
  Bits (set_cursor b0 1 4) 12 = Ret (2764, set_cursor b0 3 0).
Proof. vm_compute. repeat split. Qed.

Lemma len_nonneg (b : t) : 0 <= len b.
Proof. unfold len. lia. Qed.

Lemma err_set_cursor (b : t) (x y : Z) : err (set_cursor b x y) = err b.
Proof. reflexivity. Qed.

Lemma Bit_err (b b' : t) (v : Z) :
  Bit b = Ret (v, b') -> err b' = err b \/ err b' = Some ErrOutOfBounds.
Proof.
  unfold Bit. destruct (len b <=? bytePos b).
  - intros [= <- <-]. now right.
  - destruct (index b (bytePos b)); cbn; [|discriminate].
    intros [= <- <-]. now left.
Qed.

Lemma Bits_err (b b' : t) (num v : Z) :
  Bits b num = Ret (v, b') -> err b' = err b \/ err b' = Some ErrOutOfBounds.
Proof.
  unfold Bits. destruct (num =? 0).
  - intros [= <- <-]. now left.
  - destruct (_ <? _).
    + intros [= <- <-]. now right.
    + destruct (slice_from b (bytePos b)); cbn; [|discriminate].
      intros [= <- <-]. now left.
Qed.

Lemma step_err (o : op) (b b' : t) :
  step o b = Ret b' -> err b' = err b \/ err b' = Some ErrOutOfBounds.
Proof.
  destruct o; cbn.
  - destruct (Bit b) as [[v b1]|] eqn:E; cbn; [|discriminate].
    intros [= <-]. eapply Bit_err; eauto.
  - destruct (Bits b num) as [[v b1]|] eqn:E; cbn; [|discriminate].
    intros [= <-]. eapply Bits_err; eauto.
  - intros [= <-]. now left.
  - intros [= <-]. now left.
  - intros [= <-]. now left.
  - destruct (Tail b offset); cbn; [|discriminate]. intros [= <-]. now left.
  - intros [= <-]. now left.
Qed.

Lemma run_sticky (os : list op) (b b' : t) :
  err b = Some ErrOutOfBounds -> run os b = Ret b' ->
  err b' = Some ErrOutOfBounds.
Proof.
  revert b. induction os as [|o os IH]; intros b Hb; cbn.
  - now intros [= <-].
  - destruct (step o b) as [b1|] eqn:E; cbn; [|discriminate].
    apply IH. destruct (step_err _ _ _ E) as [H|H]; congruence.
Qed.

(** C5: a [Bit] or [Bits] request that reaches past the end of the buffer
    returns 0 and records [ErrOutOfBounds]; once recorded, the error is
    what [Err] reports after any further sequence of operations on the
    reader, successful reads included. *)
Theorem out_of_bounds_read_latches_sticky_error (b : t) :
  wf b ->
  (len b * 8 < bytePos b * 8 + bitPos b + 1 ->
     Bit b = Ret (0, set_err b)) /\
  (forall num, 1 <= num <= 32 ->
     len b * 8 < bytePos b * 8 + bitPos b + num ->
     Bits b num = Ret (0, set_err b)) /\
  Err (set_err b) = Some ErrOutOfBounds /\
  (forall os b', Err b = Some ErrOutOfBounds -> run os b = Ret b' ->
     Err b' = Some ErrOutOfBounds).
Proof.
  intros (Hbit & Hbyte & Hlen).
  pose proof (len_nonneg b) as Hl.
  repeat split.
  - intros H. unfold Bit.
    destruct (Z.leb_spec (len b) (bytePos b)); [reflexivity | lia].
  - intros num Hnum H. unfold Bits.
    destruct (Z.eqb_spec num 0); [lia|].
    unfold int_add, int_mul.
    rewrite (wrap_int_small (bytePos b * 8)) by lia.
    rewrite (wrap_int_small (bytePos b * 8 + bitPos b)) by lia.
    rewrite (wrap_int_small (len b * 8)) by lia.
    rewrite wrap_int_small by lia.
    destruct (Z.ltb_spec (len b * 8) (bytePos b * 8 + bitPos b + num));
      [reflexivity | lia].
  - intros os b'. unfold Err. apply run_sticky.
Qed.

Lemma out_of_bounds_read_latches_sticky_error_witness :
  Bit fixtures.past_end = Ret (0, set_err fixtures.past_end) /\
  Bits fixtures.past_end 8 = Ret (0, set_err fixtures.past_end) /\
  Err (set_err fixtures.past_end) = Some ErrOutOfBounds /\
  forall b', run [OpSetPos 0; OpBits 8; OpBit; OpBits 8] fixtures.past_end = Ret b' ->
             Err b' = Some ErrOutOfBounds.
Proof.
  assert (W : wf fixtures.past_end) by (vm_compute; intuition discriminate).
  destruct (out_of_bounds_read_latches_sticky_error fixtures.past_end W)
    as (H1 & H2 & H3 & H4).
  split; [apply H1; vm_compute; reflexivity|].
  split; [apply H2; vm_compute; intuition discriminate|].
  split; [exact H3|].
  intros b'. apply H4. reflexivity.
Defined.

(** C2 at the input where it fails: one bit has been read from a
    five-byte buffer, the next 32 bits are in bounds and spell the integer
    1 (their last bit is the top bit of the fifth byte), and [Bits 32]
    returns 0, the fifth byte never entering the four-byte accumulator. *)
Theorem Bits_32_after_one_bit_misses_fifth_byte :
  let b0 := New [x00; x00; x00; x00; xff] in
  exists b1 b2,
    Bit b0 = Ret (0, b1) /\ wf b1 /\
    bytePos b1 * 8 + bitPos b1 + 32 <= len b1 * 8 /\
    Bits b1 32 = Ret (0, b2) /\ err b2 = None /\
    BitPos b2 = BitPos b1 + 32 /\
    bits_value (vec b1) (BitPos b1) 32 = 1.
Proof.
  eexists _, _. split; [vm_compute; reflexivity|].
  split; [vm_compute; intuition discriminate|].
  split; [vm_compute; discriminate|].
  split; [vm_compute; reflexivity|].
  vm_compute. auto.
Qed.

(** *** Requests that fit the accumulator

    When [bitPos + num <= 32] the four bytes that [Bits] loads hold
    every requested bit, and the result is the integer those bits
    spell. *)

Lemma byte_val_range (x : byte) : 0 <= byte_val x < 256.
Proof.
  unfold byte_val. pose proof (Byte.to_N_bounded x). lia.
Qed.

Lemma byte_testbit_high (x : byte) (j : Z) :
  8 <= j -> Z.testbit (byte_val x) j = false.
Proof.
  intros Hj. apply Z.testbit_false; [lia|].
  pose proof (byte_val_range x).
  assert (2 ^ 8 <= 2 ^ j) by (apply Z.pow_le_mono_r; lia).
  rewrite Z.div_small by lia. reflexivity.
Qed.

Lemma bits_value_snoc (v : list byte) (k : Z) (n : nat) :
  bits_value v k (S n) = 2 * bits_value v k n + bit_at v (k + Z.of_nat n).
Proof.
  revert k. induction n as [|n IH]; intros k.
  - cbn [bits_value]. change (Z.of_nat 0) with 0.
    rewrite !Z.add_0_r. change (2 ^ 0) with 1. lia.
  - change (bits_value v k (S (S n)))
      with (bit_at v k * 2 ^ Z.of_nat (S n) + bits_value v (k + 1) (S n)).
    rewrite IH.
    change (bits_value v k (S n))
      with (bit_at v k * 2 ^ Z.of_nat n + bits_value v (k + 1) n).
    rewrite Nat2Z.inj_succ, Z.pow_succ_r by lia.
    replace (k + 1 + Z.of_nat n) with (k + Z.succ (Z.of_nat n)) by lia.
    lia.
Qed.

(** The accumulator, bit by bit: bit [31 - j] of the four loaded bytes
    is bit [j] of the buffer counted from the cursor's byte. *)
Lemma be32_bit (v : list byte) (byp : nat) (j : Z) :
  0 <= j < 32 ->
  Z.b2z (Z.testbit (be32 (copy4 (skipn byp v))) (31 - j))
    = bit_at v (8 * Z.of_nat byp + j).
Proof.
  intros Hj. unfold bit_at. f_equal.
  replace ((8 * Z.of_nat byp + j) / 8) with (Z.of_nat byp + j / 8)
    by (rewrite Z.mul_comm, Z.div_add_l; lia).
  replace ((8 * Z.of_nat byp + j) mod 8) with (j mod 8)
    by (rewrite Z.mul_comm, Z.add_comm, Z.mod_add; lia).
  unfold be32, copy4, to_uint32. cbn [map nth].
  rewrite !nth_skipn.
  set (B0 := nth (byp + 0) v x00). set (B1 := nth (byp + 1) v x00).
  set (B2 := nth (byp + 2) v x00). set (B3 := nth (byp + 3) v x00).
  pose proof (byte_val_range B0). pose proof (byte_val_range B1).
  pose proof (byte_val_range B2).
  rewrite !Z.shiftl_mul_pow2 by lia.
  rewrite !Z.mod_small by lia.
  rewrite <- !Z.shiftl_mul_pow2 by lia.
  rewrite !Z.lor_spec, !Z.shiftl_spec by lia.
  pose proof (Z.div_mod j 8 ltac:(lia)) as Hdm.
  pose proof (Z.mod_pos_bound j 8 ltac:(lia)) as Hm.
  assert (Hq : j / 8 = 0 \/ j / 8 = 1 \/ j / 8 = 2 \/ j / 8 = 3).
  { assert (0 <= j / 8 < 4)
      by (split; [apply Z.div_pos | apply Z.div_lt_upper_bound]; lia).
    lia. }
  destruct Hq as [Hq | [Hq | [Hq | Hq]]]; rewrite Hq in *.
  - replace (Z.to_nat (Z.of_nat byp + 0)) with (byp + 0)%nat by lia.
    fold B0.
    rewrite (byte_testbit_high B1), (byte_testbit_high B2),
      (byte_testbit_high B3) by lia.
    rewrite !orb_false_r. f_equal. lia.
  - replace (Z.to_nat (Z.of_nat byp + 1)) with (byp + 1)%nat by lia.
    fold B1.
    rewrite (Z.testbit_neg_r (byte_val B0)) by lia.
    rewrite (byte_testbit_high B2), (byte_testbit_high B3) by lia.
    rewrite !orb_false_r, orb_false_l. f_equal. lia.
  - replace (Z.to_nat (Z.of_nat byp + 2)) with (byp + 2)%nat by lia.
    fold B2.
    rewrite (Z.testbit_neg_r (byte_val B0)) by lia.
    rewrite (Z.testbit_neg_r (byte_val B1)) by lia.
    rewrite (byte_testbit_high B3) by lia.
    rewrite !orb_false_r, !orb_false_l. f_equal. lia.
  - replace (Z.to_nat (Z.of_nat byp + 3)) with (byp + 3)%nat by lia.
    fold B3.
    rewrite (Z.testbit_neg_r (byte_val B0)) by lia.
    rewrite (Z.testbit_neg_r (byte_val B1)) by lia.
    rewrite (Z.testbit_neg_r (byte_val B2)) by lia.
    rewrite !orb_false_l. f_equal. lia.
Qed.

Lemma shifted_window (x bip : Z) (v : list byte) (byp : nat) :
  x = be32 (copy4 (skipn byp v)) ->
  0 <= bip ->
  forall n : nat,
    bip + Z.of_nat n <= 32 ->
    Z.shiftr (to_uint32 (Z.shiftl x bip)) (32 - Z.of_nat n)
      = bits_value v (8 * Z.of_nat byp + bip) n.
Proof.
  intros Hx Hbip. unfold to_uint32.
  set (y := Z.shiftl x bip mod 2 ^ 32).
  assert (Hy : 0 <= y < 2 ^ 32) by (apply Z.mod_pos_bound; lia).
  induction n as [|n IH]; intros Hn.
  - cbn [bits_value]. rewrite Z.shiftr_div_pow2 by lia.
    change (32 - Z.of_nat 0) with 32. apply Z.div_small. exact Hy.
  - rewrite bits_value_snoc, <- IH by lia.
    rewrite !Z.shiftr_div_pow2 by lia.
    replace (32 - Z.of_nat n) with (Z.succ (32 - Z.of_nat (S n))) by lia.
    set (k := 32 - Z.of_nat (S n)).
    assert (Hk : 0 <= k) by lia.
    rewrite Z.pow_succ_r by lia.
    rewrite (Z.mul_comm 2 (2 ^ k)).
    rewrite <- Z.div_div by lia.
    assert (Hbit : (y / 2 ^ k) mod 2 =
                   bit_at v (8 * Z.of_nat byp + bip + Z.of_nat n)).
    { rewrite <- Z.testbit_spec' by lia. unfold y.
      rewrite Z.mod_pow2_bits_low by lia.
      rewrite Z.shiftl_spec by lia. rewrite Hx.
      replace (k - bip) with (31 - (bip + Z.of_nat n)) by lia.
      rewrite be32_bit by lia. f_equal. lia. }
    rewrite <- Hbit.
    pose proof (Z.div_mod (y / 2 ^ k) 2 ltac:(lia)). lia.
Qed.

Lemma Bits_within_accumulator (b : t) (num : Z) :
  wf b -> 1 <= num -> bitPos b + num <= 32 ->
  bytePos b * 8 + bitPos b + num <= len b * 8 ->
  Bits b num =
    Ret (bits_value (vec b) (bytePos b * 8 + bitPos b) (Z.to_nat num),
         SetPos b (bytePos b * 8 + bitPos b + num)).
Proof.
  intros (Hbit & Hbyte & Hlen) Hnum Hfit Hin.
  pose proof (len_nonneg b) as Hl.
  unfold Bits. destruct (Z.eqb_spec num 0); [lia|].
  unfold int_add, int_mul, int_shr.
  rewrite (wrap_int_small (bytePos b * 8)) by lia.
  rewrite (wrap_int_small (bytePos b * 8 + bitPos b)) by lia.
  rewrite (wrap_int_small (len b * 8)) by lia.
  rewrite (wrap_int_small (bytePos b * 8 + bitPos b + num)) by lia.
  rewrite (wrap_int_small (bitPos b + num)) by lia.
  destruct (Z.ltb_spec (len b * 8) (bytePos b * 8 + bitPos b + num)); [lia|].
  unfold slice_from.
  destruct (Z.ltb_spec (bytePos b) 0); [lia|].
  destruct (Z.ltb_spec (len b) (bytePos b)); [lia|].
  cbn [orb obind].
  rewrite (to_uint_small (bitPos b)) by lia.
  rewrite (to_uint_small num) by lia.
  rewrite (to_uint_small (32 - num)) by lia.
  replace (32 - num) with (32 - Z.of_nat (Z.to_nat num)) by lia.
  rewrite (shifted_window _ (bitPos b) (vec b) (Z.to_nat (bytePos b)) eq_refl)
    by lia.
  replace (8 * Z.of_nat (Z.to_nat (bytePos b))) with (bytePos b * 8) by lia.
  f_equal. f_equal. unfold SetPos, int_shr. f_equal.
  - rewrite !Z.shiftr_div_pow2 by lia. change (2 ^ 3) with 8.
    rewrite wrap_int_small.
    + replace (bytePos b * 8 + bitPos b + num)
        with (bitPos b + num + bytePos b * 8) by lia.
      rewrite Z.div_add by lia. lia.
    + assert (0 <= (bitPos b + num) / 8 <= 4)
        by (split; [apply Z.div_pos | apply Z.div_le_upper_bound]; lia).
      lia.
  - change 7 with (Z.ones 3). rewrite !Z.land_ones by lia.
    change (2 ^ 3) with 8.
    replace (bytePos b * 8 + bitPos b + num)
      with (bitPos b + num + bytePos b * 8) by lia.
    rewrite Z.mod_add by lia. reflexivity.
Qed.

End BitsFacts.

(** ** Loops *)

Lemma for_each_invariant {St : Type} (I : St -> Prop) (A : nat -> Prop)
  (body : nat -> St -> outcome St) (idx : list nat) :
  (forall i st st', A i -> I st -> body i st = Ret st' -> I st') ->
  Forall A idx ->
  forall st st', I st -> for_each body idx st = Ret st' -> I st'.
Proof.
  intros Hbody Hidx. induction Hidx as [|i idx Hi _ IH]; intros st st' Hst; cbn.
  - now intros [= <-].
  - destruct (body i st) as [st1|] eqn:E; cbn; [|discriminate].
    apply IH. eapply Hbody; eauto.
Qed.

Lemma for_range_invariant {St : Type} (I : St -> Prop) (n : Z)
  (body : nat -> St -> outcome St) :
  (forall i st st', Z.of_nat i < n -> I st -> body i st = Ret st' -> I st') ->
  forall st st', I st -> for_range n body st = Ret st' -> I st'.
Proof.
  intros Hbody. unfold for_range.
  apply for_each_invariant with (A := fun i => Z.of_nat i < n); [exact Hbody|].
  apply Forall_forall. intros i Hi. apply in_seq in Hi. lia.
Qed.

(** ** Package sideinfo *)

Module sideinfoFacts.
Import frameheader sideinfo.

#[local] Arguments Bits.Bits : simpl never.

Ltac next_bits H :=
  match type of H with
  | context [Bits.Bits ?s ?n] =>
      destruct (Bits.Bits s n) as [[? ?]|] eqn:?; cbn [obind fst snd] in H; [|discriminate H]
  end.

Lemma grch_set_same (si : SideInfo) (f : field) (gr ch : nat) (v : Z) :
  grch (set si f gr ch v) f gr ch = v.
Proof.
  cbn. rewrite !Nat.eqb_refl. now destruct f.
Qed.

Lemma grch_set_other_field (si : SideInfo) (f f' : field) (gr ch g c : nat)
  (v : Z) :
  field_eqb f' f = false ->
  grch (set si f gr ch v) f' g c = grch si f' g c.
Proof. intros E. cbn. now rewrite E. Qed.

Lemma grch_set_other_index (si : SideInfo) (f f' : field) (gr ch g c : nat)
  (v : Z) :
  g <> gr \/ c <> ch ->
  grch (set si f gr ch v) f' g c = grch si f' g c.
Proof.
  intros E. cbn.
  destruct (Nat.eqb_spec g gr), (Nat.eqb_spec c ch);
    rewrite ?andb_false_r; cbn; try reflexivity.
  exfalso. destruct E; contradiction.
Qed.

Lemma grch_set_TableSelect (si : SideInfo) (gr ch r : nat) (v : Z) :
  grch (set_TableSelect si gr ch r v) = grch si.
Proof. reflexivity. Qed.

Lemma grch_set_SubblockGain (si : SideInfo) (gr ch w : nat) (v : Z) :
  grch (set_SubblockGain si gr ch w v) = grch si.
Proof. reflexivity. Qed.

Ltac grch_simpl :=
  repeat first
    [ rewrite grch_set_TableSelect
    | rewrite grch_set_SubblockGain
    | rewrite grch_set_same
    | rewrite grch_set_other_field by reflexivity ].








(** C8: a header whose frame size is above 2000 makes [Read] return the
    frame-size error, whatever the source is, and hands the source back
    as it was: [ReadFull] has not been called. *)
Theorem Read_rejects_oversized_frame_before_reading {Source : Type}
  (ReadFull : Source -> Z -> list byte * option io_error * Source)
  (source : Source) (h : FrameHeader) (framesize : Z) :
  FrameSize h = Some framesize ->
  2000 < framesize ->
  Read ReadFull source h = Ret (Err (FramesizeTooBig framesize), source).
Proof.
  intros Hfs Hbig. unfold Read. rewrite Hfs.
  destruct (Z.ltb_spec 2000 framesize); [reflexivity | lia].
Qed.

Lemma Read_rejects_oversized_frame_before_reading_witness :
  Read fixtures.mockReader_ReadFull
       (fixtures.mkMockReader fixtures.sideinfo_short_block 0)
       fixtures.header_oversized =
  Ret (Err (FramesizeTooBig 2001),
       fixtures.mkMockReader fixtures.sideinfo_short_block 0).
Proof.
  apply Read_rejects_oversized_frame_before_reading; [reflexivity | lia].
Defined.

End sideinfoFacts.

(** ** Package maindata *)

Module maindataFacts.
Import frameheader sideinfo maindata.

Lemma store_Is_inv (md md' : MainData) (gr ch : nat) (i v : Z) :
  store_Is md gr ch i v = Ret md' ->
  (gr < 2)%nat /\ (ch < 2)%nat /\ 0 <= i < 576 /\
  Is md' gr ch i = v /\
  forall k, k <> i -> Is md' gr ch k = Is md gr ch k.
Proof.
  unfold store_Is, consts.SamplesPerGr.
  destruct (Nat.leb_spec 2 gr); [discriminate|].
  destruct (Nat.leb_spec 2 ch); [discriminate|].
  destruct (Z.ltb_spec i 0); [discriminate|].
  destruct (Z.leb_spec 576 i); [discriminate|].
  cbn. intros [= <-]. cbn. rewrite !Nat.eqb_refl, Z.eqb_refl. cbn.
  repeat split; try lia.
  intros k Hk. destruct (Z.eqb_spec k i); [contradiction | reflexivity].
Qed.

Lemma store_Is_ok (md : MainData) (gr ch : nat) (i v : Z) :
  (gr < 2)%nat -> (ch < 2)%nat -> 0 <= i < 576 ->
  exists md', store_Is md gr ch i v = Ret md'.
Proof.
  intros Hg Hc Hi. unfold store_Is, consts.SamplesPerGr.
  destruct (Nat.leb_spec 2 gr); [lia|].
  destruct (Nat.leb_spec 2 ch); [lia|].
  destruct (Z.ltb_spec i 0); [lia|].
  destruct (Z.leb_spec 576 i); [lia|].
  cbn. eauto.
Qed.

Lemma at_index_ok (l : list Z) (i : Z) :
  (i <? 0) || (Z.of_nat (length l) <=? i) = false ->
  at_index l i = Ret (nth (Z.to_nat i) l 0).
Proof. intros E. unfold at_index. now rewrite E. Qed.

Section readHuffman.

Context {HuffmanError : Type}.
Variable huffman_Decode :
  Bits.t -> Z -> result HuffmanError (Z * Z * Z * Z) * Bits.t.
Variable SfBandIndicesLong : Z -> Z -> list Z.

#[local] Abbreviation regionStarts := (regionStarts (HuffmanError := HuffmanError)
                            SfBandIndicesLong).
#[local] Abbreviation bigValuesLoop := (bigValuesLoop huffman_Decode).
#[local] Abbreviation count1Loop := (count1Loop huffman_Decode).
#[local] Abbreviation huffmanLoops := (huffmanLoops huffman_Decode).
#[local] Abbreviation readHuffman_fuel := (readHuffman_fuel huffman_Decode
                                SfBandIndicesLong).
#[local] Abbreviation readHuffman := (readHuffman huffman_Decode SfBandIndicesLong).

Lemma regionStarts_no_panic (h : FrameHeader) (si : SideInfo) (gr ch : nat) :
  regionStarts h si gr ch <> Panic.
Proof.
  unfold maindata.regionStarts. cbv zeta.
  destruct (_ && _); [discriminate|].
  destruct (_ || _) eqn:Ei; [discriminate|].
  unfold at_index. rewrite Ei. cbn [obind].
  match goal with |- context [if ?c then Ret (Err _) else _] =>
    destruct c end; cbn [obind]; discriminate.
Qed.

(** The table lookup that the region counts of long blocks go through:
    when [Region0Count + 1] is an index of the table and
    [Region0Count + Region1Count + 2] is not, the result is the error
    for index [j]. *)
Lemma regionStarts_index_j (h : FrameHeader) (si : SideInfo) (gr ch : nat) :
  let l := SfBandIndicesLong (LowSamplingFrequency h) (SamplingFrequency h) in
  let r0 := grch si Region0Count gr ch in
  let r1 := grch si Region1Count gr ch in
  (grch si WinSwitchFlag gr ch =? 1) && (grch si BlockType gr ch =? 2)
    = false ->
  0 <= r0 -> 0 <= r1 -> r0 + r1 + 2 < 2 ^ 62 ->
  r0 + 1 < Z.of_nat (length l) <= r0 + r1 + 2 ->
  regionStarts h si gr ch = Ret (Err (InvalidIndexJ (r0 + r1 + 2))).
Proof.
  intros l r0 r1 Hlong H0 H1 Hb Hl. unfold maindata.regionStarts.
  rewrite Hlong. fold l r0 r1. unfold int_add.
  rewrite (wrap_int_small (r0 + 1)) by lia.
  rewrite (wrap_int_small (r0 + r1)) by lia.
  rewrite (wrap_int_small (r0 + r1 + 2)) by lia.
  destruct (Z.ltb_spec (r0 + 1) 0); [lia|].
  destruct (Z.leb_spec (Z.of_nat (length l)) (r0 + 1)); [lia|]. cbn [orb].
  unfold at_index.
  destruct (Z.ltb_spec (r0 + 1) 0); [lia|].
  destruct (Z.leb_spec (Z.of_nat (length l)) (r0 + 1)); [lia|].
  cbn [orb obind].
  destruct (Z.ltb_spec (r0 + r1 + 2) 0); [lia|].
  destruct (Z.leb_spec (Z.of_nat (length l)) (r0 + r1 + 2)); [|lia].
  reflexivity.
Qed.

(** C1 on the code: for a granule that is not a short-block one, when
    [Region0Count + 1] is an index of the long band table and
    [Region0Count + Region1Count + 2] lies beyond its last entry,
    [readHuffman] does not clamp [region2Start]: it returns the error
    for index [j] with nothing read or stored.  Region counts 15 and 7
    against a 23-entry table are such a case, with [j = 24]. *)
Theorem readHuffman_region_count_overflow_is_an_error
  (m : Bits.t) (h : FrameHeader) (si : SideInfo) (md : MainData)
  (part2Start : Z) (gr ch : nat) :
  let l := SfBandIndicesLong (LowSamplingFrequency h) (SamplingFrequency h) in
  let r0 := grch si Region0Count gr ch in
  let r1 := grch si Region1Count gr ch in
  (gr < 2)%nat -> (ch < 2)%nat ->
  grch si Part2_3Length gr ch <> 0 ->
  (grch si WinSwitchFlag gr ch =? 1) && (grch si BlockType gr ch =? 2)
    = false ->
  0 <= r0 < 16 -> 0 <= r1 < 8 ->
  r0 + 1 < Z.of_nat (List.length l) <= r0 + r1 + 2 ->
  readHuffman m h si md part2Start gr ch
    = Ret (Some (InvalidIndexJ (r0 + r1 + 2)), (m, si, md)).
Proof.
  intros l r0 r1 Hg Hc Hp Hlong H0 H1 Hl.
  unfold maindata.readHuffman, maindata.readHuffman_fuel.
  destruct (Nat.leb_spec 2 gr); [lia|].
  destruct (Nat.leb_spec 2 ch); [lia|]. cbn [orb].
  destruct (Z.eqb_spec (grch si Part2_3Length gr ch) 0); [contradiction|].
  rewrite regionStarts_index_j; fold l r0 r1; try lia; auto.
Qed.

(** *** The loops *)

Lemma bigValuesLoop_no_panic (fuel : nat) (si : SideInfo) (gr ch : nat)
  (r1 r2 isPos : Z) (m : Bits.t) (md : MainData) :
  (gr < 2)%nat -> (ch < 2)%nat -> 0 <= isPos -> Z.Even isPos ->
  bigValuesLoop fuel si gr ch r1 r2 isPos m md <> Panic.
Proof.
  intros Hg Hc. revert isPos m md.
  induction fuel as [|fuel IH]; intros isPos m md H0 [k Hk];
    cbn [maindata.bigValuesLoop].
  - destruct (_ <? _); discriminate.
  - destruct (_ <? _); [|discriminate].
    unfold consts.SamplesPerGr.
    destruct (Z.leb_spec 576 isPos); [discriminate|].
    destruct (huffman_Decode m _) as [[[[[x y] v] w]|e] m1]; [|discriminate].
    destruct (store_Is_ok md gr ch isPos x Hg Hc ltac:(lia)) as [md1 ->].
    cbn [obind].
    destruct (store_Is_ok md1 gr ch (isPos + 1) y Hg Hc ltac:(lia))
      as [md2 ->].
    cbn [obind]. apply IH; [lia|]. exists (k + 1). lia.
Qed.

Lemma bigValuesLoop_too_big (fuel : nat) (si : SideInfo) (gr ch : nat)
  (r1 r2 isPos : Z) (m : Bits.t) (md : MainData) :
  (gr < 2)%nat -> (ch < 2)%nat ->
  576 < int_mul (grch si BigValues gr ch) 2 ->
  Z.Even isPos -> 0 <= isPos <= 576 -> 578 - isPos <= 2 * Z.of_nat fuel ->
  exists e st, bigValuesLoop fuel si gr ch r1 r2 isPos m md = Ret (Some e, st).
Proof.
  intros Hg Hc Hbv. revert isPos m md.
  induction fuel as [|fuel IH]; intros isPos m md [k Hk] H0 Hf; [lia|].
  cbn [maindata.bigValuesLoop].
  destruct (Z.ltb_spec isPos (int_mul (grch si BigValues gr ch) 2)); [|lia].
  unfold consts.SamplesPerGr.
  destruct (Z.leb_spec 576 isPos); [eauto|].
  destruct (huffman_Decode m _) as [[[[[x y] v] w]|e] m1]; [|eauto].
  destruct (store_Is_ok md gr ch isPos x Hg Hc ltac:(lia)) as [md1 ->].
  cbn [obind].
  destruct (store_Is_ok md1 gr ch (isPos + 1) y Hg Hc ltac:(lia))
    as [md2 ->].
  cbn [obind]. apply IH; [exists (k + 1); lia | lia | lia].
Qed.

Lemma count1Loop_no_panic (fuel : nat) (tableNum bitPosEnd : Z)
  (gr ch : nat) (isPos : Z) (m : Bits.t) (md : MainData) :
  (gr < 2)%nat -> (ch < 2)%nat -> 0 <= isPos ->
  count1Loop fuel tableNum bitPosEnd gr ch isPos m md <> Panic.
Proof.
  intros Hg Hc. revert isPos m md.
  induction fuel as [|fuel IH]; intros isPos m md H0;
    cbn [maindata.count1Loop].
  - destruct (_ && _); discriminate.
  - destruct (Z.leb_spec isPos 572); cbn [andb]; [|discriminate].
    destruct (_ <=? _); [|discriminate].
    destruct (huffman_Decode m _) as [[[[[x y] v] w]|e] m1]; [|discriminate].
    unfold consts.SamplesPerGr.
    destruct (store_Is_ok md gr ch isPos v Hg Hc ltac:(lia)) as [md1 ->].
    cbn [obind]. destruct (_ <=? _); [discriminate|].
    destruct (store_Is_ok md1 gr ch (isPos + 1) w Hg Hc ltac:(lia))
      as [md2 ->].
    cbn [obind]. destruct (_ <=? _); [discriminate|].
    destruct (store_Is_ok md2 gr ch (isPos + 1 + 1) x Hg Hc ltac:(lia))
      as [md3 ->].
    cbn [obind]. destruct (_ <=? _); [discriminate|].
    destruct (store_Is_ok md3 gr ch (isPos + 1 + 1 + 1) y Hg Hc ltac:(lia))
      as [md4 ->].
    cbn [obind]. apply IH. lia.
Qed.

Lemma count1Loop_position (fuel : nat) (tableNum bitPosEnd : Z)
  (gr ch : nat) (isPos p : Z) (m m' : Bits.t) (md md' : MainData) :
  count1Loop fuel tableNum bitPosEnd gr ch isPos m md
    = Ret (None, (p, m', md')) ->
  isPos <= 576 -> isPos <= p <= 576.
Proof.
  revert isPos m md.
  induction fuel as [|fuel IH]; intros isPos m md;
    cbn [maindata.count1Loop].
  - destruct (_ && _); intros [= <- <- <-]; lia.
  - destruct (Z.leb_spec isPos 572); cbn [andb];
      [|intros [= <- <- <-]; lia].
    destruct (_ <=? _); [|intros [= <- <- <-]; lia].
    destruct (huffman_Decode m _) as [[[[[x y] v] w]|e] m1]; [|discriminate].
    unfold consts.SamplesPerGr.
    destruct (store_Is md gr ch isPos v) as [md1|]; cbn [obind];
      [|discriminate].
    destruct (Z.leb_spec 576 (isPos + 1)); [intros [= <- <- <-]; lia|].
    destruct (store_Is md1 gr ch _ w) as [md2|]; cbn [obind];
      [|discriminate].
    destruct (Z.leb_spec 576 (isPos + 1 + 1)); [intros [= <- <- <-]; lia|].
    destruct (store_Is md2 gr ch _ x) as [md3|]; cbn [obind];
      [|discriminate].
    destruct (Z.leb_spec 576 (isPos + 1 + 1 + 1));
      [intros [= <- <- <-]; lia|].
    destruct (store_Is md3 gr ch _ y) as [md4|]; cbn [obind];
      [|discriminate].
    intros Hr _. apply IH in Hr; lia.
Qed.

Lemma zeroLoop_no_panic (fuel : nat) (gr ch : nat) (isPos : Z)
  (md : MainData) :
  (gr < 2)%nat -> (ch < 2)%nat -> 0 <= isPos ->
  zeroLoop fuel gr ch isPos md <> Panic.
Proof.
  intros Hg Hc. revert isPos md.
  induction fuel as [|fuel IH]; intros isPos md H0; cbn [zeroLoop].
  - destruct (_ <? _); discriminate.
  - unfold consts.SamplesPerGr.
    destruct (Z.ltb_spec isPos 576); [|discriminate].
    destruct (store_Is_ok md gr ch isPos 0 Hg Hc ltac:(lia)) as [md1 ->].
    cbn [obind]. apply IH. lia.
Qed.

Lemma zeroLoop_zeroes (fuel : nat) (gr ch : nat) (isPos : Z)
  (md md' : MainData) :
  zeroLoop fuel gr ch isPos md = Ret md' ->
  576 - isPos <= Z.of_nat fuel ->
  (forall i, isPos <= i < 576 -> Is md' gr ch i = 0) /\
  (forall i, i < isPos -> Is md' gr ch i = Is md gr ch i).
Proof.
  revert isPos md.
  induction fuel as [|fuel IH]; intros isPos md; cbn [zeroLoop];
    unfold consts.SamplesPerGr.
  - destruct (Z.ltb_spec isPos 576); [lia|].
    intros [= <-] _. split; [lia | reflexivity].
  - destruct (Z.ltb_spec isPos 576).
    + destruct (store_Is md gr ch isPos 0) as [md1|] eqn:E; cbn [obind];
        [|discriminate].
      destruct (store_Is_inv _ _ _ _ _ _ E) as (_ & _ & _ & Hv & Hk).
      intros Hr Hf. apply IH in Hr; [|lia]. destruct Hr as [Hz Hu].
      split.
      * intros i Hi. destruct (Z.eq_dec i isPos) as [-> | Hne].
        -- rewrite Hu by lia. exact Hv.
        -- apply Hz. lia.
      * intros i Hi. rewrite Hu by lia. apply Hk. lia.
    + intros [= <-] _. split; [lia | reflexivity].
Qed.

Lemma for_range_store_no_panic (n : nat) (gr ch : nat) (md : MainData) :
  (gr < 2)%nat -> (ch < 2)%nat -> (n <= 576)%nat ->
  forall k, (k + n <= 576)%nat ->
  for_each (fun i md => store_Is md gr ch (Z.of_nat i) 0) (seq k n) md
    <> Panic.
Proof.
  intros Hg Hc _. revert md.
  induction n as [|n IH]; intros md k Hk; cbn [seq for_each].
  - discriminate.
  - destruct (store_Is_ok md gr ch (Z.of_nat k) 0 Hg Hc ltac:(lia))
      as [md1 ->].
    cbn [obind]. apply IH. lia.
Qed.

(** *** The cursor *)

Lemma BitPos_SetPos (m : Bits.t) (pos : Z) :
  - 2 ^ 63 <= pos < 2 ^ 63 -> Bits.BitPos (Bits.SetPos m pos) = pos.
Proof.
  intros Hp. unfold Bits.BitPos, Bits.SetPos, Bits.set_cursor.
  cbn [Bits.bytePos Bits.bitPos].
  unfold int_add, int_shl, int_shr.
  rewrite Z.shiftr_div_pow2, Z.shiftl_mul_pow2 by lia.
  change 7 with (Z.ones 3). rewrite Z.land_ones by lia.
  change (2 ^ 3) with 8.
  pose proof (Z.div_mod pos 8 ltac:(lia)).
  pose proof (Z.mod_pos_bound pos 8 ltac:(lia)).
  rewrite (wrap_int_small (pos / 8 * 8)) by lia.
  rewrite wrap_int_small by lia. lia.
Qed.

(** *** Iteration bounds

    The bounds 289, 145 and 576 built into [readHuffman] are never what
    ends a loop: larger ones give the same result. *)

Lemma bigValuesLoop_fuel (n k : nat) (si : SideInfo) (gr ch : nat)
  (r1 r2 isPos : Z) (m : Bits.t) (md : MainData) :
  Z.Even isPos -> (1 <= n)%nat -> 578 - isPos <= 2 * Z.of_nat n ->
  bigValuesLoop (n + k) si gr ch r1 r2 isPos m md
    = bigValuesLoop n si gr ch r1 r2 isPos m md.
Proof.
  revert isPos m md.
  induction n as [|n IH]; intros isPos m md [j Hj] H1 Hf; [lia|].
  cbn [Nat.add maindata.bigValuesLoop].
  destruct (_ <? _); [|reflexivity].
  unfold consts.SamplesPerGr.
  destruct (Z.leb_spec 576 isPos); [reflexivity|].
  destruct (huffman_Decode m _) as [[[[[x y] v] w]|e] m1]; [|reflexivity].
  destruct (store_Is md gr ch isPos x) as [md1|]; cbn [obind];
    [|reflexivity].
  destruct (store_Is md1 gr ch (isPos + 1) y) as [md2|]; cbn [obind];
    [|reflexivity].
  apply IH; [exists (j + 1); lia | lia | lia].
Qed.

Lemma count1Loop_fuel (n k : nat) (tableNum bitPosEnd : Z) (gr ch : nat)
  (isPos : Z) (m : Bits.t) (md : MainData) :
  576 - isPos <= 4 * Z.of_nat n \/ (isPos < 0 /\ (1 <= n)%nat) ->
  count1Loop (n + k) tableNum bitPosEnd gr ch isPos m md
    = count1Loop n tableNum bitPosEnd gr ch isPos m md.
Proof.
  revert isPos m md.
  induction n as [|n IH]; intros isPos m md Hf.
  - assert (576 <= isPos) by lia.
    destruct k; cbn [Nat.add maindata.count1Loop];
      destruct (Z.leb_spec isPos 572); try lia; reflexivity.
  - cbn [Nat.add maindata.count1Loop].
    destruct (_ && _); [|reflexivity].
    destruct (huffman_Decode m _) as [[[[[x y] v] w]|e] m1]; [|reflexivity].
    destruct (store_Is md gr ch isPos v) as [md1|] eqn:E1; cbn [obind];
      [|reflexivity].
    apply store_Is_inv in E1. destruct E1 as (_ & _ & Hi & _).
    destruct (_ <=? _); [reflexivity|].
    destruct (store_Is md1 gr ch _ w) as [md2|]; cbn [obind]; [|reflexivity].
    destruct (_ <=? _); [reflexivity|].
    destruct (store_Is md2 gr ch _ x) as [md3|]; cbn [obind]; [|reflexivity].
    destruct (_ <=? _); [reflexivity|].
    destruct (store_Is md3 gr ch _ y) as [md4|]; cbn [obind]; [|reflexivity].
    apply IH. left. lia.
Qed.

Lemma zeroLoop_fuel (n k : nat) (gr ch : nat) (isPos : Z) (md : MainData) :
  576 - isPos <= Z.of_nat n ->
  zeroLoop (n + k) gr ch isPos md = zeroLoop n gr ch isPos md.
Proof.
  revert isPos md.
  induction n as [|n IH]; intros isPos md Hf.
  - destruct k; cbn [Nat.add zeroLoop]; unfold consts.SamplesPerGr;
      destruct (Z.ltb_spec isPos 576); try lia; reflexivity.
  - cbn [Nat.add zeroLoop]. destruct (_ <? _); [|reflexivity].
    destruct (store_Is md gr ch isPos 0) as [md1|]; cbn [obind];
      [|reflexivity].
    apply IH. lia.
Qed.

Lemma count1Position_nonneg (bitPosEnd isPos : Z) (m : Bits.t) :
  0 <= count1Position bitPosEnd isPos m.
Proof.
  unfold count1Position. cbv zeta.
  match goal with |- context [if ?c <? 0 then 0 else _] =>
    destruct (Z.ltb_spec c 0) end; lia.
Qed.

Lemma readHuffman_fuel_enough (fb fq fz : nat) (m : Bits.t)
  (h : FrameHeader) (si : SideInfo) (md : MainData) (part2Start : Z)
  (gr ch : nat) :
  (289 <= fb)%nat -> (145 <= fq)%nat -> (576 <= fz)%nat ->
  readHuffman_fuel fb fq fz m h si md part2Start gr ch
    = readHuffman m h si md part2Start gr ch.
Proof.
  intros Hb Hq Hz.
  replace fb with (289 + (fb - 289))%nat by lia.
  replace fq with (145 + (fq - 145))%nat by lia.
  replace fz with (576 + (fz - 576))%nat by lia.
  unfold maindata.readHuffman, maindata.readHuffman_fuel.
  destruct (_ || _); [reflexivity|].
  destruct (_ =? _); [reflexivity|].
  destruct (regionStarts h si gr ch) as [[[r1 r2]|e]|]; cbn [obind];
    [|reflexivity|reflexivity].
  unfold maindata.huffmanLoops.
  rewrite bigValuesLoop_fuel; [|exists 0; lia|lia|cbn; lia].
  destruct (bigValuesLoop 289 _ _ _ _ _ _ _ _) as [[[e|] [m1 md1]]|];
    cbn [obind]; [reflexivity| |reflexivity].
  rewrite count1Loop_fuel.
  - destruct (count1Loop 145 _ _ _ _ _ _ _) as [[[e|] [[p m2] md2]]|];
      cbn [obind]; [reflexivity| |reflexivity].
    rewrite zeroLoop_fuel; [reflexivity|].
    pose proof (count1Position_nonneg
      (int_sub (int_add part2Start (grch si Part2_3Length gr ch)) 1) p m2).
    lia.
  - destruct (Z_lt_le_dec (int_mul (grch si BigValues gr ch) 2) 0);
      [right | left]; lia.
Qed.

(** *** Results *)

Lemma int_mul_2_small (x : Z) : 0 <= x <= 511 -> int_mul x 2 = 2 * x.
Proof. intros Hx. unfold int_mul. rewrite wrap_int_small; lia. Qed.

(** C6: called for a granule and channel of the side information with
    [BigValues] a 9-bit value, [readHuffman] never stores outside the
    576 entries of [Is]: no store panics.  When twice [BigValues] goes
    beyond 576 the call ends with an error, the position check of the
    pair loop at the latest; the quadruple loop stores only from
    positions up to 572. *)
Theorem readHuffman_stores_stay_inside_Is
  (m : Bits.t) (h : FrameHeader) (si : SideInfo) (md : MainData)
  (part2Start : Z) (gr ch : nat) :
  (gr < 2)%nat -> (ch < 2)%nat ->
  0 <= grch si BigValues gr ch <= 511 ->
  readHuffman m h si md part2Start gr ch <> Panic /\
  (grch si Part2_3Length gr ch <> 0 -> 288 < grch si BigValues gr ch ->
   exists e st, readHuffman m h si md part2Start gr ch = Ret (Some e, st)).
Proof.
  intros Hg Hc Hbv.
  pose proof (int_mul_2_small _ Hbv) as Hbv2.
  unfold maindata.readHuffman, maindata.readHuffman_fuel.
  destruct (Nat.leb_spec 2 gr); [lia|].
  destruct (Nat.leb_spec 2 ch); [lia|]. cbn [orb].
  destruct (Z.eqb_spec (grch si Part2_3Length gr ch) 0) as [Hz|Hnz].
  - split; [|contradiction].
    unfold for_range.
    pose proof (for_range_store_no_panic 576 gr ch md Hg Hc
                  ltac:(lia) 0%nat ltac:(lia)) as Hnp.
    change (Z.to_nat consts.SamplesPerGr) with 576%nat.
    destruct (for_each _ _ md); [discriminate | contradiction].
  - pose proof (regionStarts_no_panic h si gr ch) as Hrs.
    destruct (regionStarts h si gr ch) as [[[r1 r2]|e]|]; cbn [obind];
      [| split; [discriminate | eauto] | contradiction].
    unfold maindata.huffmanLoops.
    pose proof (bigValuesLoop_no_panic 289 si gr ch r1 r2 0 m md Hg Hc
                  ltac:(lia) ltac:(exists 0; lia)) as Hbl.
    split.
    + destruct (bigValuesLoop 289 _ _ _ _ _ _ _ _) as [[[e|] [m1 md1]]|];
        cbn [obind]; [discriminate| |contradiction].
      pose proof (count1Loop_no_panic 145
        (int_add (grch si Count1TableSelect gr ch) 32)
        (int_sub (int_add part2Start (grch si Part2_3Length gr ch)) 1)
        gr ch (int_mul (grch si BigValues gr ch) 2) m1 md1 Hg Hc
        ltac:(lia)) as Hcl.
      destruct (count1Loop 145 _ _ _ _ _ _ _) as [[[e|] [[p m2] md2]]|];
        cbn [obind]; [discriminate| |contradiction].
      pose proof (zeroLoop_no_panic 576 gr ch _ md2 Hg Hc
        (count1Position_nonneg
           (int_sub (int_add part2Start (grch si Part2_3Length gr ch)) 1)
           p m2)) as Hzl.
      destruct (zeroLoop 576 _ _ _ _); cbn [obind];
        [discriminate | contradiction].
    + intros _ Hbig.
      destruct (bigValuesLoop_too_big 289 si gr ch r1 r2 0 m md Hg Hc
                  ltac:(lia) ltac:(exists 0; lia) ltac:(lia) ltac:(lia))
        as (e & [m1 md1] & ->).
      cbn [obind]. eauto.
Qed.

(** C4: a call that returns without error for a granule with main data
    went through both loops to a position [isPos] and a reader [m2];
    the recorded [Count1] is [isPos - 4] (not below 0) when [m2] stands
    beyond bit [end + 1] and [isPos] otherwise; [Is] is zero from
    [Count1] to 575, so a quadruple that was taken back is zero again,
    and keeps the decoded values below [Count1]; the reader returned
    stands at bit [end + 1]. *)
Theorem readHuffman_count1_rzero_and_cursor
  (m m' : Bits.t) (h : FrameHeader) (si si' : SideInfo) (md md' : MainData)
  (part2Start : Z) (gr ch : nat) :
  0 <= grch si BigValues gr ch <= 511 ->
  grch si Part2_3Length gr ch <> 0 ->
  readHuffman m h si md part2Start gr ch = Ret (None, (m', si', md')) ->
  let bitPosEnd :=
    int_sub (int_add part2Start (grch si Part2_3Length gr ch)) 1 in
  let count1 := grch si' Count1 gr ch in
  exists r1 r2 isPos m2 md2,
    regionStarts h si gr ch = Ret (Ok (r1, r2)) /\
    huffmanLoops 289 145 m si md bitPosEnd r1 r2 gr ch
      = Ret (None, (isPos, m2, md2)) /\
    0 <= isPos <= 576 /\
    (int_add bitPosEnd 1 < Bits.BitPos m2 -> count1 = Z.max 0 (isPos - 4)) /\
    (Bits.BitPos m2 <= int_add bitPosEnd 1 -> count1 = isPos) /\
    (forall i, count1 <= i <= 575 -> Is md' gr ch i = 0) /\
    (forall i, i < count1 -> Is md' gr ch i = Is md2 gr ch i) /\
    Bits.BitPos m' = int_add bitPosEnd 1.
Proof.
  intros Hbv Hnz. pose proof (int_mul_2_small _ Hbv) as Hbv2.
  unfold maindata.readHuffman, maindata.readHuffman_fuel.
  destruct (Nat.leb_spec 2 gr) as [|Hg]; [discriminate|].
  destruct (Nat.leb_spec 2 ch) as [|Hc]; [discriminate|]. cbn [orb].
  destruct (Z.eqb_spec (grch si Part2_3Length gr ch) 0); [contradiction|].
  destruct (regionStarts h si gr ch) as [[[r1 r2]|e]|]; cbn [obind];
    [|discriminate|discriminate].
  destruct (huffmanLoops 289 145 _ _ _ _ _ _ _ _)
    as [[[e|] [[p m2] md2]]|] eqn:EL; cbn [obind];
    [discriminate| |discriminate].
  destruct (zeroLoop 576 _ _ _ _) as [md3|] eqn:EZ; cbn [obind];
    [|discriminate].
  intros [= <- <- <-]. cbv zeta.
  set (bitPosEnd :=
         int_sub (int_add part2Start (grch si Part2_3Length gr ch)) 1) in *.
  rewrite sideinfoFacts.grch_set_same.
  set (count1 := count1Position bitPosEnd p m2) in *.
  assert (Hp : 0 <= p <= 576).
  { revert EL. unfold maindata.huffmanLoops.
    destruct (bigValuesLoop 289 _ _ _ _ _ _ _ _)
      as [[[e|] [m1 md1]]|] eqn:EB; cbn [obind]; try discriminate.
    intros EC. apply count1Loop_position in EC; [lia|].
    destruct (Z_le_gt_dec (int_mul (grch si BigValues gr ch) 2) 576)
      as [Hle|Hgt]; [exact Hle|].
    destruct (bigValuesLoop_too_big 289 si gr ch r1 r2 0 m md Hg Hc
                ltac:(lia) ltac:(exists 0; lia) ltac:(lia) ltac:(lia))
      as (e & st & E).
    rewrite E in EB. discriminate. }
  assert (Hc1 : count1 = count1Position bitPosEnd p m2) by reflexivity.
  apply zeroLoop_zeroes in EZ;
    [|pose proof (count1Position_nonneg bitPosEnd p m2); fold count1; lia].
  destruct EZ as [Hzero Hkeep].
  exists r1, r2, p, m2, md2.
  split; [reflexivity|]. split; [exact EL|]. split; [exact Hp|].
  assert (Hsub : int_sub p 4 = p - 4)
    by (unfold int_sub; apply wrap_int_small; lia).
  repeat split.
  - intros Hover. rewrite Hc1. unfold count1Position. cbv zeta.
    destruct (Z.ltb_spec (int_add bitPosEnd 1) (Bits.BitPos m2)); [|lia].
    rewrite Hsub. destruct (Z.ltb_spec (p - 4) 0); lia.
  - intros Hin. rewrite Hc1. unfold count1Position. cbv zeta.
    destruct (Z.ltb_spec (int_add bitPosEnd 1) (Bits.BitPos m2)); [lia|].
    destruct (Z.ltb_spec p 0); lia.
  - intros i Hi. apply Hzero. lia.
  - exact Hkeep.
  - apply BitPos_SetPos. apply wrap_int_range.
Qed.


End readHuffman.

Lemma readHuffman_region_count_overflow_is_an_error_witness :
  readHuffman fixtures.four_bit_Decode fixtures.bands_44100
    fixtures.zero_reader fixtures.header_FFFB9044
    fixtures.sideinfo_region_overflow fixtures.zero_maindata 0 0 0
  = Ret (Some (InvalidIndexJ 24),
         (fixtures.zero_reader, fixtures.sideinfo_region_overflow,
          fixtures.zero_maindata)).
Proof.
  apply (readHuffman_region_count_overflow_is_an_error
           fixtures.four_bit_Decode fixtures.bands_44100
           fixtures.zero_reader fixtures.header_FFFB9044
           fixtures.sideinfo_region_overflow fixtures.zero_maindata
           0 0%nat 0%nat);
    solve [lia | reflexivity | discriminate | cbn; lia].
Defined.

Lemma readHuffman_stores_stay_inside_Is_witness :
  let call :=
    readHuffman fixtures.four_bit_Decode fixtures.bands_44100
      fixtures.ones_reader fixtures.header_FFFB9044
      fixtures.sideinfo_300_big_values fixtures.zero_maindata 0 0 0 in
  call <> Panic /\ exists e st, call = Ret (Some e, st).
Proof.
  intros call.
  destruct (readHuffman_stores_stay_inside_Is
              fixtures.four_bit_Decode fixtures.bands_44100
              fixtures.ones_reader fixtures.header_FFFB9044
              fixtures.sideinfo_300_big_values fixtures.zero_maindata
              0 0%nat 0%nat ltac:(lia) ltac:(lia)
              ltac:(cbn; lia)) as [Hnp Herr].
  split; [exact Hnp|].
  apply Herr; cbn; [discriminate | lia].
Defined.

Lemma readHuffman_count1_rzero_and_cursor_witness :
  let '(m', si', md') := fixtures.after_98_bits in
  readHuffman fixtures.four_bit_Decode fixtures.bands_44100
    fixtures.ones_reader fixtures.header_FFFB9044
    fixtures.sideinfo_98_bits fixtures.zero_maindata 0 0 0
    = Ret (None, (m', si', md')) /\
  grch si' Count1 0 0 = 76 /\
  Is md' 0 0 75 = 1 /\
  (forall i, 76 <= i <= 575 -> Is md' 0 0 i = 0) /\
  Bits.BitPos m' = 98.
Proof.
  destruct fixtures.after_98_bits as [[m' si'] md'] eqn:E.
  assert (Hrun :
    readHuffman fixtures.four_bit_Decode fixtures.bands_44100
      fixtures.ones_reader fixtures.header_FFFB9044
      fixtures.sideinfo_98_bits fixtures.zero_maindata 0 0 0
    = Ret (None, (m', si', md'))).
  { rewrite <- E. vm_compute. reflexivity. }
  assert (Hc1 : grch si' Count1 0 0 = 76).
  { change si' with (snd (fst (m', si', md'))). rewrite <- E.
    vm_compute. reflexivity. }
  destruct (readHuffman_count1_rzero_and_cursor
              fixtures.four_bit_Decode fixtures.bands_44100
              fixtures.ones_reader m' fixtures.header_FFFB9044
              fixtures.sideinfo_98_bits si' fixtures.zero_maindata md'
              0 0%nat 0%nat ltac:(cbn; lia) ltac:(cbn; discriminate) Hrun)
    as (r1 & r2 & isPos & m2 & md2 & _ & _ & _ & _ & _ & Hz & _ & Hcur).
  split; [exact Hrun|]. split; [exact Hc1|].
  split.
  { change md' with (snd (m', si', md')). rewrite <- E.
    vm_compute. reflexivity. }
  split.
  { intros i Hi. apply Hz. rewrite Hc1. exact Hi. }
  rewrite Hcur. vm_compute. reflexivity.
Defined.

End maindataFacts.

(** ** Package imdct *)

Module imdctFacts.
Import imdct.

Section Win.

Context {F : Type}.
Variable zero : F.
Variable add mul : F -> F -> F.
Variable imdctWinData cosN12 cosN36 : nat -> nat -> F.

(** C3, as the code has it: for 18 input lines and block type 2, [Win]
    returns the three windowed 12-point blocks laid at offsets 6, 12 and
    18 of the 36 output samples and added where they overlap; the first
    six and the last six samples are the zero they started as. *)
Theorem Win_short_blocks_at_6_12_18 (inp : list F) :
  length inp = 18%nat ->
  Win zero add mul imdctWinData cosN12 cosN36 inp 2
    = Ret (blocks_placed_from zero add mul imdctWinData cosN12 6 inp) /\
  (forall k, (k < 6 \/ 30 <= k < 36)%nat ->
     nth_error (blocks_placed_from zero add mul imdctWinData cosN12 6 inp) k
       = Some zero).
Proof.
  intros Hlen.
  do 18 (destruct inp as [|? inp]; [discriminate Hlen|]).
  destruct inp; [|discriminate Hlen].
  split; [reflexivity|].
  intros k Hk.
  do 6 (destruct k as [|k]; [reflexivity|]).
  do 24 (destruct k as [|k]; [exfalso; lia|]).
  do 6 (destruct k as [|k]; [reflexivity|]).
  exfalso; lia.
Qed.

End Win.

Lemma Win_short_blocks_at_6_12_18_witness :
  fixtures.Win_milli fixtures.first_line_only 2
    = Ret (blocks_placed_from 0 Z.add Z.mul fixtures.short_window_milli
             fixtures.cosN12_milli 6 fixtures.first_line_only) /\
  fixtures.Win_milli fixtures.first_line_only 2
    = Ret ([0; 0; 0; 0; 0; 0;
            79779000; 146689000; 79779000; -103883000; -353892000;
            -603519000; -785863000; -853776000; -785863000; -603519000;
            -353892000; -103883000] ++ repeat 0 18).
Proof.
  split.
  - apply (Win_short_blocks_at_6_12_18 0 Z.add Z.mul
             fixtures.short_window_milli fixtures.cosN12_milli
             (fun _ _ => 0) fixtures.first_line_only).
    reflexivity.
  - vm_compute. reflexivity.
Defined.

(** C3 as worded, refuted: with the first block laid at offset 0, the
    first output sample would be the first block's first sample
    (79779000 for this input, in thousandths squared); [Win] leaves it
    zero and starts the block at sample 6. *)
Lemma Win_short_blocks_not_at_0_6_12 :
  fixtures.Win_milli fixtures.first_line_only 2
    <> Ret (blocks_placed_from 0 Z.add Z.mul fixtures.short_window_milli
              fixtures.cosN12_milli 0 fixtures.first_line_only).
Proof. vm_compute. discriminate. Qed.

End imdctFacts.

(** ** Package mp3 *)

Module mp3Facts.
Import mp3.

Section Decoder.

Context {Source Frame SeekError FrameError : Type}.
Variable source_Seek : Source -> Z -> Z -> option SeekError * Source.
Variable frame_Read :
  Source -> option Frame -> option Frame * option FrameError * Source.
Variable frame_Decode : Frame -> list byte.
Variable is_EOF : FrameError -> bool.

#[local] Abbreviation Seek :=
  (Seek source_Seek frame_Read frame_Decode is_EOF).
#[local] Abbreviation seekToFrame :=
  (seekToFrame source_Seek frame_Read frame_Decode is_EOF).
#[local] Abbreviation Decoder := (Decoder (Source := Source) (Frame := Frame)).

(** C10: [Seek(0, io.SeekCurrent)] returns the current position and the
    decoder as it was, field for field; the source is not consulted, so
    the call succeeds whatever the source can do. *)
Theorem Seek_0_SeekCurrent_reports_position (d : Decoder) :
  Seek d 0 SeekCurrent = Ret (Ok (pos d), d).
Proof. reflexivity. Qed.

Lemma at_index_nth {A : Type} (s : list A) (i : Z) (x : A) :
  0 <= i -> nth_error s (Z.to_nat i) = Some x -> at_index s i = Ret x.
Proof.
  intros Hi Hn. unfold at_index.
  destruct (Z.ltb_spec i 0); [lia|]. now rewrite Hn.
Qed.

Lemma slice_from_skipn {A : Type} (s : list A) (i : Z) :
  0 <= i <= Z.of_nat (List.length s) ->
  slice_from s i = Ret (skipn (Z.to_nat i) s).
Proof.
  intros Hi. unfold slice_from.
  destruct (Z.ltb_spec i 0); [lia|].
  destruct (Z.ltb_spec (Z.of_nat (List.length s)) i); [lia|]. reflexivity.
Qed.

(** C7: on a decoder that knows its length, [Seek(p, io.SeekStart)] with
    [0 < p < length] takes frame [f = p / bytesPerFrame].  For [f > 0]
    the source is sought to the recorded start of frame [f - 1], two
    frames are decoded from there with no frame carried over, and the
    decoder is left with their PCM less its first
    [bytesPerFrame + p mod bytesPerFrame] bytes.  For [f = 0] the source
    is sought to the start of frame 0, one frame is decoded and its
    first [p] bytes are dropped.  Either way the position is [p] and [p]
    is returned.  The start offset is recorded, the seek and the reads
    succeed, and the decoded PCM is as long as what is dropped. *)
Theorem Seek_decodes_from_previous_frame (d : Decoder) (p : Z) :
  length d <> invalidLength ->
  0 < p < length d -> length d < 2 ^ 63 ->
  0 < bytesPerFrame d ->
  let bpf := bytesPerFrame d in
  let f := p / bpf in
  (0 < f ->
   forall start s1 fr1 s2 fr2 s3,
     nth_error (frameStarts d) (Z.to_nat (f - 1)) = Some start ->
     source_Seek (source d) start 0 = (None, s1) ->
     frame_Read s1 None = (Some fr1, None, s2) ->
     frame_Read s2 (Some fr1) = (Some fr2, None, s3) ->
     let pcm := frame_Decode fr1 ++ frame_Decode fr2 in
     bpf + p mod bpf <= Z.of_nat (List.length pcm) ->
     Seek d p SeekStart =
       Ret (Ok p,
            {| source := s3; sampleRate := sampleRate d; length := length d;
               frameStarts := frameStarts d;
               buf := skipn (Z.to_nat (bpf + p mod bpf)) pcm;
               frame := Some fr2; pos := p; bytesPerFrame := bpf |})) /\
  (f = 0 ->
   forall start s1 fr1 s2,
     nth_error (frameStarts d) 0 = Some start ->
     source_Seek (source d) start 0 = (None, s1) ->
     frame_Read s1 None = (Some fr1, None, s2) ->
     p <= Z.of_nat (List.length (frame_Decode fr1)) ->
     Seek d p SeekStart =
       Ret (Ok p,
            {| source := s2; sampleRate := sampleRate d; length := length d;
               frameStarts := frameStarts d;
               buf := skipn (Z.to_nat p) (frame_Decode fr1);
               frame := Some fr1; pos := p; bytesPerFrame := bpf |})).
Proof.
  intros Hlen Hp Hl63 Hbpf bpf f.
  assert (Hq : Z.quot p bpf = f) by (apply Z.quot_div_nonneg; lia).
  assert (Hr : Z.rem p bpf = p mod bpf) by (apply Z.rem_mod_nonneg; lia).
  pose proof (Z.mod_pos_bound p bpf Hbpf) as Hm.
  assert (Hf : 0 <= f) by (apply Z.div_pos; lia).
  assert (Hfp : f <= p).
  { unfold f. apply Z.div_le_upper_bound; nia. }
  assert (Hstart :
      mp3.Seek source_Seek frame_Read frame_Decode is_EOF d p SeekStart =
      (let d0 := set_frame (set_buf (set_pos d p) []) None in
       if 0 <? f then
         (r <- seekToFrame d0 (f - 1) 2 ;;
          match r with
          | (Some e, d) => Ret (Err e, d)
          | (None, d) =>
            rem <- int64_rem (pos d) (bytesPerFrame d) ;;
            b <- slice_from (buf d) (int64_add (bytesPerFrame d) rem) ;;
            Ret (Ok p, set_buf d b)
          end)%go
       else
         (r <- seekToFrame d0 f 1 ;;
          match r with
          | (Some e, d) => Ret (Err e, d)
          | (None, d) =>
            b <- slice_from (buf d) (pos d) ;;
            Ret (Ok p, set_buf d b)
          end)%go)).
  { unfold mp3.Seek.
    destruct (Z.eqb_spec p 0); [lia|]. cbn [andb].
    change (SeekStart =? SeekStart) with true. cbv iota.
    cbn [pos set_frame set_buf set_pos length bytesPerFrame].
    destruct (Z.ltb_spec p 0); [lia|].
    cbn [pos set_frame set_buf set_pos length bytesPerFrame].
    destruct (Z.eqb_spec (length d) invalidLength); [contradiction|].
    destruct (Z.leb_spec (length d) p); [lia|]. cbn [negb andb].
    unfold int64_div. destruct (Z.eqb_spec (bytesPerFrame d) 0); [lia|].
    cbn [obind]. fold bpf. rewrite Hq.
    rewrite wrap_int_small by lia. reflexivity. }
  split.
  - intros Hpos start s1 fr1 s2 fr2 s3 Hst Hsk Hr1 Hr2 pcm Hpcm.
    rewrite Hstart. cbv zeta.
    destruct (Z.ltb_spec 0 f); [|lia].
    unfold mp3.seekToFrame.
    cbn [frameStarts source set_frame set_buf set_pos].
    rewrite (at_index_nth _ (f - 1) _ ltac:(lia) Hst). cbn [obind].
    rewrite Hsk. cbn [readFrames]. unfold mp3.readFrame.
    cbn [obind source frame set_source set_frame set_buf set_pos buf].
    rewrite Hr1.
    cbn [readFrames readFrame obind source frame set_source set_frame
         set_buf set_pos buf].
    rewrite Hr2.
    cbn [readFrames readFrame obind source frame set_source set_frame
         set_buf set_pos buf pos bytesPerFrame app].
    unfold int64_rem. fold bpf.
    destruct (Z.eqb_spec bpf 0); [lia|]. cbn [obind].
    assert (Hsum : bpf + p mod bpf <= p).
    { pose proof (Z.div_mod p bpf ltac:(lia)) as Hdm. fold f in Hdm. nia. }
    rewrite Hr. unfold int64_add. rewrite wrap_int_small by lia.
    fold pcm. rewrite slice_from_skipn by lia. reflexivity.
  - intros Hz start s1 fr1 s2 Hst Hsk Hr1 Hpcm.
    rewrite Hstart. cbv zeta.
    destruct (Z.ltb_spec 0 f); [lia|].
    unfold mp3.seekToFrame.
    cbn [frameStarts source set_frame set_buf set_pos].
    rewrite Hz. rewrite (at_index_nth _ 0 _ ltac:(lia) Hst). cbn [obind].
    rewrite Hsk. cbn [readFrames]. unfold mp3.readFrame.
    cbn [obind source frame set_source set_frame set_buf set_pos buf].
    rewrite Hr1.
    cbn [readFrames readFrame obind source frame set_source set_frame
         set_buf set_pos buf pos bytesPerFrame app].
    rewrite slice_from_skipn by lia. reflexivity.
Qed.

End Decoder.

Lemma Seek_decodes_from_previous_frame_witness :
  let seek := mp3.Seek fixtures.toy_Seek fixtures.toy_Read
                fixtures.toy_Decode (fun _ => true) in
  seek fixtures.toy_decoder 13 SeekStart =
    Ret (Ok 13,
         {| source := 834; sampleRate := 44100; length := 24;
            frameStarts := [0; 417; 834]; buf := [x01; x01; x01];
            frame := Some 417; pos := 13; bytesPerFrame := 8 |}) /\
  seek fixtures.toy_decoder 5 SeekStart =
    Ret (Ok 5,
         {| source := 417; sampleRate := 44100; length := 24;
            frameStarts := [0; 417; 834]; buf := [x00; x00; x00];
            frame := Some 0; pos := 5; bytesPerFrame := 8 |}).
Proof.
  intros seek. split.
  - destruct (Seek_decodes_from_previous_frame fixtures.toy_Seek
                fixtures.toy_Read fixtures.toy_Decode (fun _ => true)
                fixtures.toy_decoder 13)
      as [Hf _]; try (cbn; lia); [cbn; discriminate|].
    apply (Hf ltac:(vm_compute; reflexivity) 0 0 0 417 417 834);
      try reflexivity.
    vm_compute. discriminate.
  - destruct (Seek_decodes_from_previous_frame fixtures.toy_Seek
                fixtures.toy_Read fixtures.toy_Decode (fun _ => true)
                fixtures.toy_decoder 5)
      as [_ Hz]; try (cbn; lia); [cbn; discriminate|].
    apply (Hz ltac:(vm_compute; reflexivity) 0 0 0 417);
      try reflexivity.
    vm_compute. discriminate.
Defined.

End mp3Facts.

(** ** Package bits, further properties *)

Module BitsMore.
Import Bits BitsFacts BitsSpec.

(** Where [Bit] and [Bits] leave the cursor. *)
Lemma cursor_advance (b : t) (n : Z) :
  wf b -> 0 <= n <= 32 ->
  set_cursor b (int_add (bytePos b) (int_shr (int_add (bitPos b) n) 3))
             (Z.land (int_add (bitPos b) n) 7)
    = SetPos b (bytePos b * 8 + bitPos b + n).
Proof.
  intros (Hbit & Hbyte & Hlen) Hn.
  unfold SetPos, int_add, int_shr.
  rewrite (wrap_int_small (bitPos b + n)) by lia.
  rewrite !Z.shiftr_div_pow2 by lia. change (2 ^ 3) with 8.
  change 7 with (Z.ones 3). rewrite !Z.land_ones by lia.
  change (2 ^ 3) with 8.
  replace (bytePos b * 8 + bitPos b + n)
    with (bitPos b + n + bytePos b * 8) by lia.
  rewrite Z.div_add, Z.mod_add by lia.
  assert (0 <= (bitPos b + n) / 8 <= 5)
    by (split; [apply Z.div_pos | apply Z.div_le_upper_bound]; lia).
  rewrite wrap_int_small by lia. f_equal. lia.
Qed.

Lemma SetPos_fields (b : t) (p : Z) :
  0 <= p ->
  bitPos (SetPos b p) = p mod 8 /\ bytePos (SetPos b p) = p / 8 /\
  vec (SetPos b p) = vec b /\ err (SetPos b p) = err b.
Proof.
  intros Hp. unfold SetPos, set_cursor, int_shr. cbn [bitPos bytePos vec err].
  rewrite Z.shiftr_div_pow2 by lia. change 7 with (Z.ones 3).
  rewrite Z.land_ones by lia. auto.
Qed.

Lemma SetPos_inside (b : t) (p : Z) :
  wf b -> 0 <= p <= len b * 8 -> inside (SetPos b p).
Proof.
  intros (Hbit & Hbyte & Hlen) Hp.
  destruct (SetPos_fields b p ltac:(lia)) as (Ebit & Ebyte & Evec & _).
  pose proof (Z.div_mod p 8 ltac:(lia)).
  pose proof (Z.mod_pos_bound p 8 ltac:(lia)).
  assert (0 <= p / 8) by (apply Z.div_pos; lia).
  unfold inside, wf, len. rewrite Ebit, Ebyte, Evec. fold (len b).
  repeat split; lia.
Qed.

Lemma land_1_range (y : Z) : 0 <= Z.land y 1 <= 1.
Proof.
  replace (Z.land y 1) with (y mod 2).
  - pose proof (Z.mod_pos_bound y 2 ltac:(lia)). lia.
  - symmetry. apply (Z.land_ones y 1). lia.
Qed.

Lemma Bit_inside (b : t) :
  inside b ->
  exists v b', Bit b = Ret (v, b') /\ inside b' /\ vec b' = vec b /\
               0 <= v <= 1.
Proof.
  intros [Hwf Hin]. pose proof Hwf as (Hbit & Hbyte & Hlen).
  unfold Bit. destruct (Z.leb_spec (len b) (bytePos b)).
  - exists 0, (set_err b).
    split; [reflexivity|]. split; [exact (conj Hwf Hin)|].
    split; [reflexivity | lia].
  - unfold index.
    destruct (Z.ltb_spec (bytePos b) 0); [lia|].
    destruct (Z.leb_spec (len b) (bytePos b)); [lia|]. cbn [orb].
    destruct (nth_error (vec b) (Z.to_nat (bytePos b))) as [x|] eqn:E.
    + cbn [obind]. rewrite (cursor_advance b 1 Hwf ltac:(lia)).
      eexists _, _. split; [reflexivity|].
      split; [apply SetPos_inside; [exact Hwf | lia]|].
      split; [reflexivity|].
      apply land_1_range.
    + apply nth_error_None in E. unfold len in *. lia.
Qed.

Lemma Bits_range (b b' : t) (num v : Z) :
  1 <= num <= 32 -> Bits b num = Ret (v, b') -> 0 <= v < 2 ^ num.
Proof.
  intros Hnum. unfold Bits.
  assert (0 < 2 ^ num) by (apply Z.pow_pos_nonneg; lia).
  destruct (Z.eqb_spec num 0); [lia|].
  destruct (_ <? _); [intros [= <- _]; lia|].
  destruct (slice_from b (bytePos b)) as [src|];
    cbv beta iota delta [obind]; [|discriminate].
  set (val := Z.shiftr _ _).
  intros Heq. injection Heq as Hv _. rewrite <- Hv. clear Hv. subst val.
  rewrite (to_uint_small num) by lia.
  rewrite (to_uint_small (32 - num)) by lia.
  rewrite Z.shiftr_div_pow2 by lia.
  unfold to_uint32.
  set (y := Z.shiftl _ _ mod 2 ^ 32).
  assert (Hy : 0 <= y < 2 ^ 32) by (apply Z.mod_pos_bound; lia).
  split; [apply Z.div_pos; [lia | apply Z.pow_pos_nonneg; lia]|].
  apply Z.div_lt_upper_bound; [apply Z.pow_pos_nonneg; lia|].
  rewrite <- Z.pow_add_r by lia.
  replace (32 - num + num) with 32 by lia. lia.
Qed.

Lemma Bits_inside (b : t) (num : Z) :
  inside b -> 0 <= num <= 32 ->
  exists v b', Bits b num = Ret (v, b') /\ inside b' /\ vec b' = vec b.
Proof.
  intros [Hwf Hin] Hnum. pose proof Hwf as (Hbit & Hbyte & Hlen).
  pose proof (len_nonneg b) as Hl.
  unfold Bits. destruct (Z.eqb_spec num 0).
  - exists 0, b. split; [reflexivity|]. split; [exact (conj Hwf Hin)|].
    reflexivity.
  - unfold int_add, int_mul.
    rewrite (wrap_int_small (bytePos b * 8)) by lia.
    rewrite (wrap_int_small (bytePos b * 8 + bitPos b)) by lia.
    rewrite (wrap_int_small (len b * 8)) by lia.
    rewrite (wrap_int_small (bytePos b * 8 + bitPos b + num)) by lia.
    destruct (Z.ltb_spec (len b * 8) (bytePos b * 8 + bitPos b + num)).
    + exists 0, (set_err b). split; [reflexivity|].
      split; [exact (conj Hwf Hin) | reflexivity].
    + unfold slice_from.
      destruct (Z.ltb_spec (bytePos b) 0); [lia|].
      destruct (Z.ltb_spec (len b) (bytePos b)); [lia|].
      cbn [orb obind].
      fold (int_add (bitPos b) num).
      fold (int_add (bytePos b) (int_shr (int_add (bitPos b) num) 3)).
      rewrite (cursor_advance b num Hwf ltac:(lia)).
      eexists _, _. split; [reflexivity|].
      split; [apply SetPos_inside; [exact Hwf | lia] | reflexivity].
Qed.

Lemma Bits_advances (b : t) (num : Z) :
  inside b -> 0 <= num <= 32 ->
  bytePos b * 8 + bitPos b + num <= len b * 8 ->
  exists v b', Bits b num = Ret (v, b') /\ inside b' /\
               bytePos b' * 8 + bitPos b' = bytePos b * 8 + bitPos b + num /\
               vec b' = vec b /\ err b' = err b.
Proof.
  intros [Hwf Hin] Hnum Hroom. pose proof Hwf as (Hbit & Hbyte & Hlen).
  pose proof (len_nonneg b) as Hl.
  unfold Bits. destruct (Z.eqb_spec num 0).
  - exists 0, b. split; [reflexivity|]. split; [exact (conj Hwf Hin)|].
    split; [lia | auto].
  - unfold int_add, int_mul.
    rewrite (wrap_int_small (bytePos b * 8)) by lia.
    rewrite (wrap_int_small (bytePos b * 8 + bitPos b)) by lia.
    rewrite (wrap_int_small (len b * 8)) by lia.
    rewrite (wrap_int_small (bytePos b * 8 + bitPos b + num)) by lia.
    destruct (Z.ltb_spec (len b * 8) (bytePos b * 8 + bitPos b + num)); [lia|].
    unfold slice_from.
    destruct (Z.ltb_spec (bytePos b) 0); [lia|].
    destruct (Z.ltb_spec (len b) (bytePos b)); [lia|].
    cbn [orb obind].
    fold (int_add (bitPos b) num).
    fold (int_add (bytePos b) (int_shr (int_add (bitPos b) num) 3)).
    rewrite (cursor_advance b num Hwf ltac:(lia)).
    set (p := bytePos b * 8 + bitPos b + num).
    destruct (SetPos_fields b p ltac:(lia)) as (Ebit & Ebyte & Evec & Eerr).
    eexists _, _. split; [reflexivity|].
    split; [apply SetPos_inside; [exact Hwf | lia]|].
    split; [|split; assumption].
    rewrite Ebit, Ebyte. pose proof (Z.div_mod p 8 ltac:(lia)). lia.
Qed.

Lemma step_inside (o : op) (b : t) :
  plain_read o -> inside b ->
  exists b', step o b = Ret b' /\ inside b' /\ vec b' = vec b.
Proof.
  intros Ho Hb. destruct o; cbn [plain_read] in Ho; try contradiction;
    cbn [step].
  - destruct (Bit_inside b Hb) as (v & b' & -> & Hi & Hv & _).
    cbn [obind snd]. eauto.
  - destruct (Bits_inside b num Hb Ho) as (v & b' & -> & Hi & Hv).
    cbn [obind snd]. eauto.
  - eauto.
  - eauto.
  - eauto.
Qed.

Lemma run_inside (os : list op) (b : t) :
  Forall plain_read os -> inside b ->
  exists b', run os b = Ret b' /\ inside b' /\ vec b' = vec b.
Proof.
  intros Hos. revert b. induction Hos as [|o os Ho _ IH]; intros b Hb.
  - cbn. eauto.
  - cbn [run]. destruct (step_inside o b Ho Hb) as (b1 & -> & H1 & V1).
    cbn [obind]. destruct (IH b1 H1) as (b2 & -> & H2 & V2).
    exists b2. split; [reflexivity|]. split; [exact H2 | congruence].
Qed.

Lemma BitPos_wf (b : t) : wf b -> BitPos b = bytePos b * 8 + bitPos b.
Proof.
  intros (Hbit & Hbyte & Hlen). unfold BitPos, int_add, int_shl.
  rewrite Z.shiftl_mul_pow2 by lia. change (2 ^ 3) with 8.
  rewrite (wrap_int_small (bytePos b * 8)) by lia.
  apply wrap_int_small. lia.
Qed.

(** X1: a [Bits(num)] request that lies inside the buffer and inside
    the four bytes [Bits] loads ([bitPos + num <= 32]) returns the
    integer spelled by the next [num] bits, most significant first, and
    moves the cursor [num] bits on. *)
Theorem Bits_reads_msb_first (b : t) (num : Z) :
  wf b -> 1 <= num -> bitPos b + num <= 32 ->
  bytePos b * 8 + bitPos b + num <= len b * 8 ->
  exists b',
    Bits b num = Ret (bits_value (vec b) (BitPos b) (Z.to_nat num), b') /\
    BitPos b' = BitPos b + num /\ vec b' = vec b /\ err b' = err b.
Proof.
  intros Hwf Hnum Hfit Hin. pose proof Hwf as (Hbit & Hbyte & Hlen).
  pose proof (len_nonneg b).
  rewrite (BitPos_wf b Hwf).
  eexists. split; [apply Bits_within_accumulator; assumption|].
  split; [apply maindataFacts.BitPos_SetPos; lia|].
  split; reflexivity.
Qed.

Lemma Bits_reads_msb_first_witness :
  exists b',
    Bits (set_cursor (New [x55; xaa; xcc; x33]) 1 4) 12 = Ret (2764, b') /\
    BitPos b' = 24.
Proof.
  destruct (Bits_reads_msb_first (set_cursor (New [x55; xaa; xcc; x33]) 1 4)
              12) as (b' & Hv & Hp & _);
    [vm_compute; intuition discriminate | lia | vm_compute; discriminate
    | vm_compute; discriminate |].
  exists b'. split; [exact Hv | exact Hp].
Defined.

(** X2: [Bit] on a reader whose cursor is inside the buffer returns the
    bit under the cursor (bit [7 - bitPos] of the byte at [bytePos]) and
    moves the cursor one bit on, leaving buffer and error as they were. *)
Theorem Bit_reads_the_bit_under_the_cursor (b : t) :
  wf b -> bytePos b * 8 + bitPos b < len b * 8 ->
  exists b',
    Bit b = Ret (bit_at (vec b) (BitPos b), b') /\
    BitPos b' = BitPos b + 1 /\ vec b' = vec b /\ err b' = err b.
Proof.
  intros Hwf Hin. pose proof Hwf as (Hbit & Hbyte & Hlen).
  pose proof (len_nonneg b).
  rewrite (BitPos_wf b Hwf). unfold Bit.
  destruct (Z.leb_spec (len b) (bytePos b)); [lia|].
  unfold index.
  destruct (Z.ltb_spec (bytePos b) 0); [lia|].
  destruct (Z.leb_spec (len b) (bytePos b)); [lia|]. cbn [orb].
  rewrite (nth_error_nth' (vec b) x00)
    by (unfold len in *; lia).
  cbv beta iota delta [obind].
  rewrite (cursor_advance b 1 Hwf ltac:(lia)).
  eexists. split; [|split; [apply maindataFacts.BitPos_SetPos; lia|
                            split; reflexivity]].
  f_equal. f_equal.
  rewrite (to_uint_small (bitPos b)) by lia.
  rewrite (to_uint_small (7 - bitPos b)) by lia.
  unfold bit_at.
  replace ((bytePos b * 8 + bitPos b) / 8) with (bytePos b)
    by (rewrite Z.add_comm, Z.div_add by lia;
        rewrite (Z.div_small (bitPos b)) by lia; lia).
  replace ((bytePos b * 8 + bitPos b) mod 8) with (bitPos b)
    by (rewrite Z.add_comm, Z.mod_add by lia;
        rewrite Z.mod_small by lia; reflexivity).
  rewrite Z.testbit_spec' by lia.
  rewrite Z.shiftr_div_pow2 by lia.
  apply (Z.land_ones _ 1). lia.
Qed.

Lemma Bit_reads_the_bit_under_the_cursor_witness :
  exists b',
    Bit (set_cursor (New [x55; xaa]) 0 1) = Ret (1, b') /\ BitPos b' = 2.
Proof.
  destruct (Bit_reads_the_bit_under_the_cursor
              (set_cursor (New [x55; xaa]) 0 1)) as (b' & Hv & Hp & _);
    [vm_compute; intuition discriminate | vm_compute; reflexivity |].
  exists b'. split; [exact Hv | exact Hp].
Defined.

(** X3: from a fresh reader, any sequence of [Bit], [Bits(n)] with
    [0 <= n <= 32], [BitPos], [LenInBytes] and [Err] calls runs without
    a panic, keeps the buffer, and leaves the cursor at a bit position
    of the buffer or at its end: reads past the end do not move it. *)
Theorem reads_never_leave_the_buffer (v : list byte) (os : list op) :
  Z.of_nat (length v) < 2 ^ 59 ->
  Forall plain_read os ->
  exists b', run os (New v) = Ret b' /\ vec b' = v /\
             0 <= BitPos b' <= 8 * Z.of_nat (length v).
Proof.
  intros Hlen Hos.
  assert (Hin : inside (New v)).
  { unfold inside, wf, len. cbn [New vec bitPos bytePos]. lia. }
  destruct (run_inside os (New v) Hos Hin) as (b' & Hrun & [Hwf Hi] & Hv).
  exists b'. split; [exact Hrun|]. split; [exact Hv|].
  rewrite (BitPos_wf b' Hwf). destruct Hwf as (Hbit & Hbyte & _).
  unfold len in Hi. rewrite Hv in Hi. cbn [New vec] in Hi. lia.
Qed.

Lemma reads_never_leave_the_buffer_witness :
  exists b',
    run [OpBits 12; OpBit; OpBits 32; OpBits 3; OpBit] (New [x55; xaa]) =
      Ret b' /\
    vec b' = [x55; xaa] /\ 0 <= BitPos b' <= 8 * 2.
Proof.
  apply (reads_never_leave_the_buffer [x55; xaa]
           [OpBits 12; OpBit; OpBits 32; OpBits 3; OpBit]).
  - vm_compute. reflexivity.
  - repeat constructor; cbn; lia.
Defined.

(** X4: [SetPos] and [BitPos] are inverse to each other: [BitPos] after
    [SetPos(pos)] is [pos] for every [pos] an [int] holds, and [SetPos]
    to the current [BitPos] changes nothing. *)
Theorem SetPos_BitPos_round_trip (b : t) (p : Z) :
  - 2 ^ 63 <= p < 2 ^ 63 -> wf b ->
  BitPos (SetPos b p) = p /\ SetPos b (BitPos b) = b.
Proof.
  intros Hp Hwf. split; [apply maindataFacts.BitPos_SetPos; exact Hp|].
  rewrite (BitPos_wf b Hwf). destruct Hwf as (Hbit & Hbyte & _).
  unfold SetPos, set_cursor, int_shr.
  rewrite Z.shiftr_div_pow2 by lia. change 7 with (Z.ones 3).
  rewrite Z.land_ones by lia. change (2 ^ 3) with 8.
  rewrite Z.add_comm, Z.div_add, Z.mod_add by lia.
  rewrite Z.div_small, Z.mod_small by lia.
  destruct b; reflexivity.
Qed.

Lemma SetPos_BitPos_round_trip_witness :
  BitPos (SetPos (New [x55; xaa]) 13) = 13 /\
  SetPos (set_cursor (New [x55; xaa]) 1 5)
         (BitPos (set_cursor (New [x55; xaa]) 1 5))
    = set_cursor (New [x55; xaa]) 1 5.
Proof.
  split.
  - apply (SetPos_BitPos_round_trip (New [x55; xaa]) 13);
      [lia | vm_compute; intuition discriminate].
  - apply (SetPos_BitPos_round_trip (set_cursor (New [x55; xaa]) 1 5) 0);
      [lia | vm_compute; intuition discriminate].
Defined.

(** X5: [Tail(offset)] with [0 <= offset <= len] returns the last
    [offset] bytes of the buffer; a negative [offset] or one beyond the
    length panics. *)
Theorem Tail_is_the_last_bytes (b : t) (offset : Z) :
  len b < 2 ^ 62 -> - 2 ^ 62 < offset < 2 ^ 62 ->
  (0 <= offset <= len b ->
   exists front back,
     Tail b offset = Ret back /\ vec b = front ++ back /\
     Z.of_nat (length back) = offset) /\
  (offset < 0 \/ len b < offset -> Tail b offset = Panic).
Proof.
  intros Hlen Hoff. pose proof (len_nonneg b).
  unfold Tail, slice_from, int_sub.
  rewrite wrap_int_small by lia.
  split.
  - intros Hin.
    destruct (Z.ltb_spec (len b - offset) 0); [lia|].
    destruct (Z.ltb_spec (len b) (len b - offset)); [lia|]. cbn [orb].
    exists (firstn (Z.to_nat (len b - offset)) (vec b)),
           (skipn (Z.to_nat (len b - offset)) (vec b)).
    split; [reflexivity|]. split; [symmetry; apply firstn_skipn|].
    rewrite length_skipn. unfold len in *. lia.
  - intros [Hneg | Hbig].
    + destruct (Z.ltb_spec (len b - offset) 0); cbn [orb]; [reflexivity|].
      destruct (Z.ltb_spec (len b) (len b - offset)); [reflexivity | lia].
    + destruct (Z.ltb_spec (len b - offset) 0); [reflexivity | lia].
Qed.

Lemma Tail_is_the_last_bytes_witness :
  Tail (New [x01; x02; x03]) 2 = Ret [x02; x03] /\
  Tail (New [x01; x02; x03]) 4 = Panic.
Proof.
  destruct (Tail_is_the_last_bytes (New [x01; x02; x03]) 2)
    as [Hin _]; [vm_compute; reflexivity | lia |].
  destruct (Tail_is_the_last_bytes (New [x01; x02; x03]) 4)
    as [_ Hout]; [vm_compute; reflexivity | lia |].
  split.
  - destruct Hin as (front & back & Ht & _ & _); [vm_compute; intuition discriminate|].
    reflexivity.
  - apply Hout. right. vm_compute. reflexivity.
Defined.

End BitsMore.
(** ** Binds and loops, further lemmas *)

Lemma obind_Ret_inv {A B : Type} (c : outcome A) (k : A -> outcome B) (b : B) :
  obind c k = Ret b -> exists a, c = Ret a /\ k a = Ret b.
Proof. destruct c as [a|]; cbn; [eauto | discriminate]. Qed.

Lemma for_each_total {St : Type} (I : St -> Prop) (A : nat -> Prop)
  (body : nat -> St -> outcome St) (idx : list nat) :
  (forall i st, A i -> I st -> exists st', body i st = Ret st' /\ I st') ->
  Forall A idx ->
  forall st, I st -> exists st', for_each body idx st = Ret st' /\ I st'.
Proof.
  intros Hbody Hidx. induction Hidx as [|i idx Hi _ IH]; intros st Hst; cbn.
  - eauto.
  - destruct (Hbody i st Hi Hst) as (st1 & -> & H1). cbn. apply IH, H1.
Qed.

Lemma for_range_total {St : Type} (I : St -> Prop) (n : Z)
  (body : nat -> St -> outcome St) :
  (forall i st, Z.of_nat i < n -> I st ->
                exists st', body i st = Ret st' /\ I st') ->
  forall st, I st -> exists st', for_range n body st = Ret st' /\ I st'.
Proof.
  intros Hbody. unfold for_range.
  apply for_each_total with (A := fun i => Z.of_nat i < n); [exact Hbody|].
  apply Forall_forall. intros i Hi. apply in_seq in Hi. lia.
Qed.

(** ** Package sideinfo, further properties *)

Module sideinfoMore.
Import frameheader sideinfo sideinfoSpec sideinfoFacts.

#[local] Arguments Bits.Bits : simpl never.

Ltac bind_inv H :=
  let a := fresh "a" in
  let E := fresh "E" in
  apply obind_Ret_inv in H; destruct H as (a & E & H).

Lemma field_eqb_eq (f f' : field) : field_eqb f f' = true -> f = f'.
Proof. destruct f, f'; cbn; intros H; first [reflexivity | discriminate H]. Qed.

(** *** Every stored value fits its field *)

Lemma set_in_range (si : SideInfo) (f : field) (gr ch : nat) (v : Z) :
  in_range si -> 0 <= v < field_bound f -> in_range (set si f gr ch v).
Proof.
  intros (H1 & H2 & H3 & H4 & H5 & H6) Hv.
  repeat split; try apply H1; try apply H2; try apply H3; try apply H5;
    try apply H6; cbn [set grch];
    (destruct (field_eqb f0 f && (gr0 =? gr)%nat && (ch0 =? ch)%nat) eqn:E;
     [|apply H4]);
    apply andb_prop in E; destruct E as [E _];
    apply andb_prop in E; destruct E as [E _];
    apply field_eqb_eq in E; subst f0; lia.
Qed.

Lemma set_TableSelect_in_range (si : SideInfo) (gr ch r : nat) (v : Z) :
  in_range si -> 0 <= v < 32 -> in_range (set_TableSelect si gr ch r v).
Proof.
  intros (H1 & H2 & H3 & H4 & H5 & H6) Hv.
  repeat split; try apply H1; try apply H2; try apply H3; try apply H4;
    try apply H6; cbn [set_TableSelect TableSelect];
    (destruct (_ && _); [lia | apply H5]).
Qed.

Lemma set_SubblockGain_in_range (si : SideInfo) (gr ch w : nat) (v : Z) :
  in_range si -> 0 <= v < 8 -> in_range (set_SubblockGain si gr ch w v).
Proof.
  intros (H1 & H2 & H3 & H4 & H5 & H6) Hv.
  repeat split; try apply H1; try apply H2; try apply H3; try apply H4;
    try apply H5; cbn [set_SubblockGain SubblockGain];
    (destruct (_ && _); [lia | apply H6]).
Qed.

Lemma set_Scfsi_in_range (si : SideInfo) (ch band : nat) (v : Z) :
  in_range si -> 0 <= v <= 1 -> in_range (set_Scfsi si ch band v).
Proof.
  intros (H1 & H2 & H3 & H4 & H5 & H6) Hv.
  repeat split; try apply H1; try apply H2; try apply H4; try apply H5;
    try apply H6; cbn [set_Scfsi Scfsi];
    (destruct (_ && _); [lia | apply H3]).
Qed.

Lemma read_field_in_range (f : field) (gr ch : nat) (n : Z) (st st' : pstate) :
  1 <= n <= 32 -> 2 ^ n <= field_bound f ->
  in_range (snd st) -> read_field f gr ch n st = Ret st' ->
  in_range (snd st').
Proof.
  intros Hn Hb Hst H. unfold read_field in H. bind_inv H.
  destruct a as [v s]. injection H as <-. cbn [snd].
  apply set_in_range; [exact Hst|].
  pose proof (BitsMore.Bits_range _ _ _ _ Hn E). lia.
Qed.

Lemma TableSelect_loop_in_range (n : Z) (gr ch : nat) (st st' : pstate) :
  in_range (snd st) ->
  for_range n (fun region st =>
    ('(v, s) <- Bits.Bits (fst st) 5 ;;
     Ret (s, set_TableSelect (snd st) gr ch region v))%go) st = Ret st' ->
  in_range (snd st').
Proof.
  apply (for_range_invariant (fun st => in_range (snd st))).
  intros r st1 st2 _ H1 H. bind_inv H. destruct a as [v s].
  injection H as <-. cbn [snd]. apply set_TableSelect_in_range; [exact H1|].
  pose proof (BitsMore.Bits_range _ _ 5 _ ltac:(lia) E). lia.
Qed.

Lemma SubblockGain_loop_in_range (n : Z) (gr ch : nat) (st st' : pstate) :
  in_range (snd st) ->
  for_range n (fun window st =>
    ('(v, s) <- Bits.Bits (fst st) 3 ;;
     Ret (s, set_SubblockGain (snd st) gr ch window v))%go) st = Ret st' ->
  in_range (snd st').
Proof.
  apply (for_range_invariant (fun st => in_range (snd st))).
  intros r st1 st2 _ H1 H. bind_inv H. destruct a as [v s].
  injection H as <-. cbn [snd]. apply set_SubblockGain_in_range; [exact H1|].
  pose proof (BitsMore.Bits_range _ _ 3 _ ltac:(lia) E). lia.
Qed.

Lemma readWindowSwitching_in_range (gr ch : nat) (st st' : pstate) :
  in_range (snd st) -> readWindowSwitching gr ch st = Ret st' ->
  in_range (snd st').
Proof.
  intros Hst H. unfold readWindowSwitching in H.
  bind_inv H. apply read_field_in_range in E; [|lia|cbn; lia|exact Hst].
  bind_inv H. apply read_field_in_range in E0; [|lia|cbn; lia|exact E].
  bind_inv H. apply TableSelect_loop_in_range in E1; [|exact E0].
  bind_inv H. apply SubblockGain_loop_in_range in E2; [|exact E1].
  destruct a2 as [s si]. cbn [snd] in E2. injection H as <-. cbn [snd].
  apply set_in_range.
  - destruct (_ && _); apply set_in_range; try exact E2; cbn; lia.
  - destruct (_ && _); rewrite grch_set_same; vm_compute; split; congruence.
Qed.

Lemma readNoWindowSwitching_in_range (mpeg1Frame : bool) (gr ch : nat)
  (st st' : pstate) :
  in_range (snd st) -> readNoWindowSwitching mpeg1Frame gr ch st = Ret st' ->
  in_range (snd st').
Proof.
  intros Hst H. unfold readNoWindowSwitching in H.
  bind_inv H. apply TableSelect_loop_in_range in E; [|exact Hst].
  bind_inv H. apply read_field_in_range in E0; [|lia|cbn; lia|exact E].
  bind_inv H. apply read_field_in_range in E1; [|lia|cbn; lia|exact E0].
  destruct a1 as [s si]. cbn [snd] in E1. injection H as <-. cbn [snd].
  assert (in_range (set si BlockType gr ch 0))
    by (apply set_in_range; [exact E1 | cbn; lia]).
  destruct mpeg1Frame; cbn [negb]; [assumption|].
  apply set_in_range; [assumption | cbn; lia].
Qed.

Lemma readGranuleChannel_in_range (mpeg1Frame : bool) (bitsToRead : list Z)
  (gr ch : nat) (st st' : pstate) :
  1 <= nth 3 bitsToRead 0 <= 9 ->
  in_range (snd st) ->
  readGranuleChannel mpeg1Frame bitsToRead gr ch st = Ret st' ->
  in_range (snd st').
Proof.
  intros Hb Hst H. unfold readGranuleChannel in H.
  destruct (_ || _); [discriminate|].
  bind_inv H. apply read_field_in_range in E; [|lia|cbn; lia|exact Hst].
  bind_inv H. apply read_field_in_range in E0; [|lia|cbn; lia|exact E].
  bind_inv H. apply read_field_in_range in E1; [|lia|cbn; lia|exact E0].
  bind_inv H. apply read_field_in_range in E2;
    [|lia| |exact E1].
  2:{ cbn [field_bound]. change 512 with (2 ^ 9).
      apply Z.pow_le_mono_r; lia. }
  bind_inv H. apply read_field_in_range in E3; [|lia|cbn; lia|exact E2].
  bind_inv H.
  assert (E5 : in_range (snd a4)).
  { destruct (_ =? 1).
    - eapply readWindowSwitching_in_range; eauto.
    - eapply readNoWindowSwitching_in_range; eauto. }
  bind_inv H.
  assert (E7 : in_range (snd a5)).
  { destruct mpeg1Frame.
    - apply read_field_in_range in E6; [exact E6|lia|cbn; lia|exact E5].
    - injection E6 as <-. exact E5. }
  bind_inv H. apply read_field_in_range in E8; [|lia|cbn; lia|exact E7].
  apply read_field_in_range in H; [exact H|lia|cbn; lia|exact E8].
Qed.

Lemma zero_in_range : in_range zero.
Proof. unfold in_range. cbn. repeat split; try lia; destruct f; cbn; lia. Qed.

Lemma readScfsi_in_range (nch : Z) (st st' : pstate) :
  in_range (snd st) -> readScfsi nch st = Ret st' -> in_range (snd st').
Proof.
  unfold readScfsi.
  apply (for_range_invariant (fun st => in_range (snd st))).
  intros ch st1 st2 _.
  apply (for_range_invariant (fun st => in_range (snd st))).
  intros band st3 st4 _ H3 H.
  destruct (2 <=? ch)%nat; [discriminate|].
  bind_inv H. destruct a as [v s]. injection H as <-. cbn [snd].
  apply set_Scfsi_in_range; [exact H3|].
  pose proof (BitsMore.Bits_range _ _ 1 _ ltac:(lia) E). lia.
Qed.

Lemma bitsToRead_rows (lsf : Z) (btr : list Z) :
  sideInfoBitsToRead lsf = Ret btr ->
  (lsf = 0 /\ btr = [9; 5; 3; 4]) \/ (lsf = 1 /\ btr = [8; 1; 2; 9]).
Proof.
  unfold sideInfoBitsToRead.
  destruct (Z.eqb_spec lsf 0); [intros [= <-]; auto|].
  destruct (Z.eqb_spec lsf 1); [intros [= <-]; auto | discriminate].
Qed.

Lemma parse_in_range (h : FrameHeader) (buf : list byte) (si : SideInfo) :
  parse h buf = Ret si -> in_range si.
Proof.
  intros H. unfold parse in H.
  bind_inv H. rename a into btr.
  assert (Hrow : 1 <= nth 0 btr 0 <= 9 /\ 1 <= nth 1 btr 0 <= 5 /\
                 1 <= nth 2 btr 0 <= 5 /\ 1 <= nth 3 btr 0 <= 9).
  { destruct (bitsToRead_rows _ _ E) as [[_ ->] | [_ ->]]; cbn; lia. }
  destruct Hrow as (R0 & R1 & R2 & R3).
  bind_inv H. destruct a as [v0 s0].
  bind_inv H. destruct a as [v1 s1].
  assert (Hv0 : 0 <= v0 < 512).
  { pose proof (BitsMore.Bits_range _ _ (nth 0 btr 0) _ ltac:(lia) E0) as Hr.
    assert (2 ^ nth 0 btr 0 <= 2 ^ 9) by (apply Z.pow_le_mono_r; lia).
    change (2 ^ 9) with 512 in *. lia. }
  assert (Hv1 : 0 <= v1 < 32).
  { assert (exists n, 1 <= n <= 5 /\ Bits.Bits s0 n = Ret (v1, s1)) as (n & Hn & En)
      by (destruct (consts.Mode_eqb _ _); eauto).
    pose proof (BitsMore.Bits_range _ _ n _ ltac:(lia) En) as Hr.
    assert (2 ^ n <= 2 ^ 5) by (apply Z.pow_le_mono_r; lia).
    change (2 ^ 5) with 32 in *. lia. }
  assert (H0 : in_range (set_PrivateBits (set_MainDataBegin zero v0) v1)).
  { destruct zero_in_range as (_ & _ & H3 & H4 & H5 & H6).
    repeat split; try apply H3; try apply H4; try apply H5; try apply H6;
      cbn; lia. }
  bind_inv H.
  assert (H1 : in_range (snd a)).
  { destruct (_ =? 0).
    - eapply readScfsi_in_range; [|exact E2]. exact H0.
    - injection E2 as <-. exact H0. }
  bind_inv H. injection H as <-.
  revert E3. revert H1. generalize a a0.
  apply (for_range_invariant (fun st => in_range (snd st))).
  intros gr st3 st4 _.
  apply (for_range_invariant (fun st => in_range (snd st))).
  intros ch st5 st6 _.
  apply readGranuleChannel_in_range. exact R3.
Qed.

Lemma Read_Ok_parse {Source : Type}
  (ReadFull : Source -> Z -> list byte * option io_error * Source)
  (source source' : Source) (h : FrameHeader) (si : SideInfo) :
  Read ReadFull source h = Ret (Ok si, source') ->
  exists data, parse h (filled (SideInfoSize h) data) = Ret si.
Proof.
  unfold Read.
  destruct (FrameSize h) as [framesize|]; [|discriminate].
  destruct (2000 <? framesize); [discriminate|].
  destruct (SideInfoSize h <? 0); [discriminate|].
  destruct (ReadFull source (SideInfoSize h)) as [[data e] src1].
  destruct (_ <? _).
  - destruct e as [[|]|]; discriminate.
  - destruct (parse h _) as [si1|] eqn:E; cbn [obind]; [|discriminate].
    intros [= <- <-]. eauto.
Qed.

(** X6: every value in the side information that [Read] returns fits
    the field it is stored in: [MainDataBegin] is below 512,
    [PrivateBits] below 32, the [Scfsi] bits are 0 or 1,
    [Part2_3Length] is below 4096, [BigValues] below 512, [GlobalGain]
    below 256, [ScalefacCompress] below 512, [BlockType] at most 3,
    [Region0Count] at most 15, [Region1Count] at most 13, the one-bit
    flags are 0 or 1, [Count1] is 0, every [TableSelect] is below 32 and
    every [SubblockGain] below 8; none is negative.  This holds for
    every source and header, also when the buffer ran out of bits. *)
Theorem Read_fields_in_range {Source : Type}
  (ReadFull : Source -> Z -> list byte * option io_error * Source)
  (source source' : Source) (h : FrameHeader) (si : SideInfo) :
  Read ReadFull source h = Ret (Ok si, source') -> in_range si.
Proof.
  intros H. destruct (Read_Ok_parse _ _ _ _ _ H) as (data & E).
  exact (parse_in_range _ _ _ E).
Qed.

Lemma Read_fields_in_range_witness :
  in_range fixtures.parsed_short_block.
Proof.
  apply (Read_fields_in_range fixtures.mockReader_ReadFull
           (fixtures.mkMockReader fixtures.sideinfo_short_block 0)
           (fixtures.mkMockReader fixtures.sideinfo_short_block 32)
           fixtures.header_FFFB9044).
  vm_compute. reflexivity.
Defined.

(** *** [Read] runs to the end *)

Lemma read_field_total (f : field) (gr ch : nat) (n : Z) (st : pstate) :
  0 <= n <= 32 -> BitsSpec.inside (fst st) ->
  exists st', read_field f gr ch n st = Ret st' /\ BitsSpec.inside (fst st').
Proof.
  intros Hn Hst. unfold read_field.
  destruct (BitsMore.Bits_inside _ n Hst Hn) as (v & s & -> & Hs & _).
  cbn [obind]. eauto.
Qed.

Lemma bits_loop_total (n w : Z) (upd : SideInfo -> nat -> Z -> SideInfo)
  (st : pstate) :
  0 <= w <= 32 -> BitsSpec.inside (fst st) ->
  exists st',
    for_range n (fun i st =>
      ('(v, s) <- Bits.Bits (fst st) w ;; Ret (s, upd (snd st) i v))%go) st
      = Ret st' /\
    BitsSpec.inside (fst st').
Proof.
  intros Hw.
  apply (for_range_total (fun st => BitsSpec.inside (fst st))).
  intros i st1 _ H1.
  destruct (BitsMore.Bits_inside _ w H1 Hw) as (v & s & -> & Hs & _).
  cbn [obind]. eauto.
Qed.

Lemma readWindowSwitching_total (gr ch : nat) (st : pstate) :
  BitsSpec.inside (fst st) ->
  exists st',
    readWindowSwitching gr ch st = Ret st' /\ BitsSpec.inside (fst st').
Proof.
  intros Hst. unfold readWindowSwitching.
  destruct (read_field_total BlockType gr ch 2 st ltac:(lia) Hst)
    as (st1 & -> & H1); cbn [obind].
  destruct (read_field_total MixedBlockFlag gr ch 1 st1 ltac:(lia) H1)
    as (st2 & -> & H2); cbn [obind].
  destruct (bits_loop_total 2 5
              (fun si region v => set_TableSelect si gr ch region v)
              st2 ltac:(lia) H2) as (st3 & E3 & H3).
  cbv beta in E3. rewrite E3. cbn [obind].
  destruct (bits_loop_total 3 3
              (fun si window v => set_SubblockGain si gr ch window v)
              st3 ltac:(lia) H3) as (st4 & E4 & H4).
  cbv beta in E4. rewrite E4. cbn [obind].
  destruct st4 as [s si]. eexists. split; [reflexivity | exact H4].
Qed.

Lemma readNoWindowSwitching_total (mpeg1Frame : bool) (gr ch : nat)
  (st : pstate) :
  BitsSpec.inside (fst st) ->
  exists st',
    readNoWindowSwitching mpeg1Frame gr ch st = Ret st' /\
    BitsSpec.inside (fst st').
Proof.
  intros Hst. unfold readNoWindowSwitching.
  destruct (bits_loop_total 3 5
              (fun si region v => set_TableSelect si gr ch region v)
              st ltac:(lia) Hst) as (st1 & E1 & H1).
  cbv beta in E1. rewrite E1. cbn [obind].
  destruct (read_field_total Region0Count gr ch 4 st1 ltac:(lia) H1)
    as (st2 & -> & H2); cbn [obind].
  destruct (read_field_total Region1Count gr ch 3 st2 ltac:(lia) H2)
    as (st3 & -> & H3); cbn [obind].
  destruct st3 as [s si]. eexists. split; [reflexivity | exact H3].
Qed.

Lemma readGranuleChannel_total (mpeg1Frame : bool) (bitsToRead : list Z)
  (gr ch : nat) (st : pstate) :
  (gr < 2)%nat -> (ch < 2)%nat -> 0 <= nth 3 bitsToRead 0 <= 32 ->
  BitsSpec.inside (fst st) ->
  exists st',
    readGranuleChannel mpeg1Frame bitsToRead gr ch st = Ret st' /\
    BitsSpec.inside (fst st').
Proof.
  intros Hgr Hch Hb Hst. unfold readGranuleChannel.
  destruct (Nat.leb_spec 2 gr); [lia|].
  destruct (Nat.leb_spec 2 ch); [lia|]. cbn [orb].
  destruct (read_field_total Part2_3Length gr ch 12 st ltac:(lia) Hst)
    as (st1 & -> & H1); cbn [obind].
  destruct (read_field_total BigValues gr ch 9 st1 ltac:(lia) H1)
    as (st2 & -> & H2); cbn [obind].
  destruct (read_field_total GlobalGain gr ch 8 st2 ltac:(lia) H2)
    as (st3 & -> & H3); cbn [obind].
  destruct (read_field_total ScalefacCompress gr ch _ st3 Hb H3)
    as (st4 & -> & H4); cbn [obind].
  destruct (read_field_total WinSwitchFlag gr ch 1 st4 ltac:(lia) H4)
    as (st5 & -> & H5); cbn [obind].
  assert (exists st6,
    (if grch (snd st5) WinSwitchFlag gr ch =? 1
     then readWindowSwitching gr ch st5
     else readNoWindowSwitching mpeg1Frame gr ch st5) = Ret st6 /\
    BitsSpec.inside (fst st6)) as (st6 & -> & H6).
  { destruct (_ =? 1).
    - apply readWindowSwitching_total, H5.
    - apply readNoWindowSwitching_total, H5. }
  cbn [obind].
  assert (exists st7,
    (if mpeg1Frame then read_field Preflag gr ch 1 st6 else Ret st6)
      = Ret st7 /\
    BitsSpec.inside (fst st7)) as (st7 & -> & H7).
  { destruct mpeg1Frame; [apply read_field_total; [lia | exact H6] | eauto]. }
  cbn [obind].
  destruct (read_field_total ScalefacScale gr ch 1 st7 ltac:(lia) H7)
    as (st8 & -> & H8); cbn [obind].
  apply read_field_total; [lia | exact H8].
Qed.

Lemma readScfsi_total (nch : Z) (st : pstate) :
  nch <= 2 -> BitsSpec.inside (fst st) ->
  exists st', readScfsi nch st = Ret st' /\ BitsSpec.inside (fst st').
Proof.
  intros Hn. unfold readScfsi.
  apply (for_range_total (fun st => BitsSpec.inside (fst st))).
  intros ch st1 Hch.
  apply (for_range_total (fun st => BitsSpec.inside (fst st))).
  intros band st2 _ H2.
  destruct (Nat.leb_spec 2 ch); [lia|].
  destruct (BitsMore.Bits_inside _ 1 H2 ltac:(lia)) as (v & s & -> & Hs & _).
  cbn [obind]. eauto.
Qed.

Lemma filled_length (n : Z) (data : list byte) :
  0 <= n -> Z.of_nat (length (filled n data)) = n.
Proof.
  intros Hn. unfold filled.
  rewrite length_firstn, length_app, repeat_length. lia.
Qed.

Lemma parse_total (h : FrameHeader) (buf : list byte) :
  NumberOfChannels h <= 2 -> Granules h <= 2 ->
  0 <= LowSamplingFrequency h <= 1 ->
  Z.of_nat (length buf) < 2 ^ 59 ->
  exists si, parse h buf = Ret si.
Proof.
  intros Hnch Hgr Hlsf Hlen. unfold parse.
  assert (exists btr, sideInfoBitsToRead (LowSamplingFrequency h) = Ret btr /\
                      0 <= nth 0 btr 0 <= 32 /\ 0 <= nth 1 btr 0 <= 32 /\
                      0 <= nth 2 btr 0 <= 32 /\ 0 <= nth 3 btr 0 <= 32)
    as (btr & -> & R0 & R1 & R2 & R3).
  { unfold sideInfoBitsToRead.
    destruct (Z.eqb_spec (LowSamplingFrequency h) 0);
      [eexists; split; [reflexivity | cbn; lia]|].
    destruct (Z.eqb_spec (LowSamplingFrequency h) 1);
      [eexists; split; [reflexivity | cbn; lia] | lia]. }
  cbn [obind].
  assert (H0 : BitsSpec.inside (Bits.New buf)).
  { unfold BitsSpec.inside, Bits.wf, Bits.len.
    cbn [Bits.New Bits.vec Bits.bitPos Bits.bytePos]. lia. }
  destruct (BitsMore.Bits_inside _ _ H0 R0) as (v0 & s0 & -> & Hs0 & _).
  cbn [obind].
  assert (exists v1 s1,
    (if consts.Mode_eqb (Mode h) consts.ModeSingleChannel
     then Bits.Bits s0 (nth 1 btr 0) else Bits.Bits s0 (nth 2 btr 0))
      = Ret (v1, s1) /\ BitsSpec.inside s1) as (v1 & s1 & -> & Hs1).
  { destruct (consts.Mode_eqb _ _).
    - destruct (BitsMore.Bits_inside _ _ Hs0 R1) as (v & s & -> & Hs & _).
      eauto.
    - destruct (BitsMore.Bits_inside _ _ Hs0 R2) as (v & s & -> & Hs & _).
      eauto. }
  cbn [obind].
  set (st0 := (s1, set_PrivateBits (set_MainDataBegin zero v0) v1)).
  assert (exists st1,
    (if LowSamplingFrequency h =? 0
     then readScfsi (NumberOfChannels h) st0 else Ret st0) = Ret st1 /\
    BitsSpec.inside (fst st1)) as (st1 & -> & H1).
  { destruct (_ =? 0); [apply readScfsi_total; [lia | exact Hs1] | eauto]. }
  cbn [obind].
  assert (exists st2,
    for_range (Granules h) (fun gr =>
      for_range (NumberOfChannels h) (fun ch =>
        readGranuleChannel (LowSamplingFrequency h =? 0) btr gr ch)) st1
      = Ret st2 /\ BitsSpec.inside (fst st2)) as (st2 & -> & H2).
  { apply (for_range_total (fun st => BitsSpec.inside (fst st))); [|exact H1].
    intros gr st3 Hg.
    apply (for_range_total (fun st => BitsSpec.inside (fst st))).
    intros ch st4 Hc. apply readGranuleChannel_total; lia. }
  cbn [obind]. eauto.
Qed.

(** X7: for a header with a frame size of at most 2000, at most two
    channels and two granules and a low-sampling-frequency flag of 0 or
    1, [Read] returns side information and no error as soon as the
    source delivers the [SideInfoSize] bytes asked for, whatever the
    bytes are and however few they are for the fields to parse: it does
    not panic, and the source is the one [ReadFull] left. *)
Theorem Read_succeeds_when_the_source_delivers {Source : Type}
  (ReadFull : Source -> Z -> list byte * option io_error * Source)
  (source source' : Source) (h : FrameHeader) (data : list byte)
  (e : option io_error) :
  parsable h ->
  ReadFull source (SideInfoSize h) = (data, e, source') ->
  SideInfoSize h <= Z.of_nat (length data) ->
  exists si, Read ReadFull source h = Ret (Ok si, source').
Proof.
  intros ((framesize & Hfs & Hsmall) & Hsize & Hnch & Hgr & Hlsf) Hrd Hlen.
  unfold Read. rewrite Hfs.
  destruct (Z.ltb_spec 2000 framesize); [lia|].
  destruct (Z.ltb_spec (SideInfoSize h) 0); [lia|].
  rewrite Hrd.
  destruct (Z.ltb_spec (Z.of_nat (length data)) (SideInfoSize h)); [lia|].
  destruct (parse_total h (filled (SideInfoSize h) data) Hnch Hgr Hlsf)
    as (si & ->).
  - rewrite filled_length; lia.
  - cbn [obind]. eauto.
Qed.

Lemma Read_succeeds_when_the_source_delivers_witness :
  exists si,
    Read fixtures.mockReader_ReadFull
         (fixtures.mkMockReader fixtures.sideinfo_short_block 0)
         fixtures.header_FFFB9044 =
    Ret (Ok si, fixtures.mkMockReader fixtures.sideinfo_short_block 32).
Proof.
  apply (Read_succeeds_when_the_source_delivers fixtures.mockReader_ReadFull
           (fixtures.mkMockReader fixtures.sideinfo_short_block 0)
           (fixtures.mkMockReader fixtures.sideinfo_short_block 32)
           fixtures.header_FFFB9044 fixtures.sideinfo_short_block None).
  - unfold parsable. cbn. split; [exists 417; split; [reflexivity | lia]|].
    lia.
  - vm_compute. reflexivity.
  - vm_compute. discriminate.
Defined.

(** *** What the parse of one granule and channel writes *)

Section Writes.

Variable P : SideInfo -> Prop.
Variables (mpeg1Frame : bool) (gr ch : nat).

Hypothesis P_set : forall si f v,
  (f = Preflag -> mpeg1Frame = true) -> f <> Count1 ->
  P si -> P (set si f gr ch v).
Hypothesis P_set_mixed : forall si,
  mpeg1Frame = false -> P si -> P (set si MixedBlockFlag 0 ch 0).
Hypothesis P_set_TableSelect : forall si region v,
  P si -> P (set_TableSelect si gr ch region v).
Hypothesis P_set_SubblockGain : forall si window v,
  P si -> P (set_SubblockGain si gr ch window v).

Lemma read_field_writes (f : field) (n : Z) (st st' : pstate) :
  (f = Preflag -> mpeg1Frame = true) -> f <> Count1 ->
  P (snd st) -> read_field f gr ch n st = Ret st' -> P (snd st').
Proof.
  intros Hf Hc Hst H. unfold read_field in H. bind_inv H.
  destruct a as [v s]. injection H as <-. cbn [snd].
  apply P_set; assumption.
Qed.

Lemma TableSelect_loop_writes (n : Z) (st st' : pstate) :
  P (snd st) ->
  for_range n (fun region st =>
    ('(v, s) <- Bits.Bits (fst st) 5 ;;
     Ret (s, set_TableSelect (snd st) gr ch region v))%go) st = Ret st' ->
  P (snd st').
Proof.
  apply (for_range_invariant (fun st => P (snd st))).
  intros r st1 st2 _ H1 H. bind_inv H. destruct a as [v s].
  injection H as <-. cbn [snd]. apply P_set_TableSelect, H1.
Qed.

Lemma SubblockGain_loop_writes (n : Z) (st st' : pstate) :
  P (snd st) ->
  for_range n (fun window st =>
    ('(v, s) <- Bits.Bits (fst st) 3 ;;
     Ret (s, set_SubblockGain (snd st) gr ch window v))%go) st = Ret st' ->
  P (snd st').
Proof.
  apply (for_range_invariant (fun st => P (snd st))).
  intros r st1 st2 _ H1 H. bind_inv H. destruct a as [v s].
  injection H as <-. cbn [snd]. apply P_set_SubblockGain, H1.
Qed.

Lemma readGranuleChannel_writes (bitsToRead : list Z) (st st' : pstate) :
  P (snd st) ->
  readGranuleChannel mpeg1Frame bitsToRead gr ch st = Ret st' ->
  P (snd st').
Proof.
  intros Hst H. unfold readGranuleChannel in H.
  destruct (_ || _); [discriminate|].
  bind_inv H. apply read_field_writes in E; [|discriminate..|exact Hst].
  bind_inv H. apply read_field_writes in E0; [|discriminate..|exact E].
  bind_inv H. apply read_field_writes in E1; [|discriminate..|exact E0].
  bind_inv H. apply read_field_writes in E2; [|discriminate..|exact E1].
  bind_inv H. apply read_field_writes in E3; [|discriminate..|exact E2].
  bind_inv H.
  assert (E5 : P (snd a4)).
  { destruct (_ =? 1).
    - unfold readWindowSwitching in E4.
      bind_inv E4. apply read_field_writes in E5; [|discriminate..|exact E3].
      bind_inv E4. apply read_field_writes in E6; [|discriminate..|exact E5].
      bind_inv E4. apply TableSelect_loop_writes in E7; [|exact E6].
      bind_inv E4. apply SubblockGain_loop_writes in E8; [|exact E7].
      destruct a8 as [s si]. cbn [snd] in E8. injection E4 as <-. cbn [snd].
      apply P_set; [discriminate..|].
      destruct (_ && _); apply P_set; try discriminate; exact E8.
    - unfold readNoWindowSwitching in E4.
      bind_inv E4. apply TableSelect_loop_writes in E5; [|exact E3].
      bind_inv E4. apply read_field_writes in E6; [|discriminate..|exact E5].
      bind_inv E4. apply read_field_writes in E7; [|discriminate..|exact E6].
      destruct a7 as [s si]. cbn [snd] in E7. injection E4 as <-. cbn [snd].
      assert (P (set si BlockType gr ch 0))
        by (apply P_set; [discriminate..|exact E7]).
      destruct (Bool.bool_dec mpeg1Frame true) as [Em | Em].
      + rewrite Em. assumption.
      + apply Bool.not_true_is_false in Em. rewrite Em. cbn [negb].
        apply P_set_mixed; assumption. }
  bind_inv H.
  assert (E7 : P (snd a5)).
  { destruct (Bool.bool_dec mpeg1Frame true) as [Em | Em].
    - rewrite Em in E6.
      apply read_field_writes in E6; [exact E6|auto|discriminate|exact E5].
    - apply Bool.not_true_is_false in Em. rewrite Em in E6.
      injection E6 as <-. exact E5. }
  bind_inv H. apply read_field_writes in E8; [|discriminate..|exact E7].
  apply read_field_writes in H; [exact H|discriminate..|exact E8].
Qed.

End Writes.

Lemma readScfsi_keeps (P : SideInfo -> Prop) (nch : Z) (st st' : pstate) :
  (forall si c band v, P si -> P (set_Scfsi si c band v)) ->
  P (snd st) -> readScfsi nch st = Ret st' -> P (snd st').
Proof.
  intros HP. unfold readScfsi.
  apply (for_range_invariant (fun st => P (snd st))). intros c st1 st2 _.
  apply (for_range_invariant (fun st => P (snd st))). intros band st3 st4 _ H3 H.
  destruct (2 <=? c)%nat; [discriminate|].
  bind_inv H. destruct a as [v s]. injection H as <-. cbn [snd].
  apply HP, H3.
Qed.

(** The parse as far as the two loops, with what it has stored up to
    there. *)
Lemma parse_loops (h : FrameHeader) (buf : list byte) (si : SideInfo)
  (P : SideInfo -> Prop) :
  (forall v0 v1, P (set_PrivateBits (set_MainDataBegin zero v0) v1)) ->
  (LowSamplingFrequency h = 0 ->
   forall si c band v, P si -> P (set_Scfsi si c band v)) ->
  (forall btr gr ch st st',
     Z.of_nat gr < Granules h -> Z.of_nat ch < NumberOfChannels h ->
     P (snd st) ->
     readGranuleChannel (LowSamplingFrequency h =? 0) btr gr ch st = Ret st' ->
     P (snd st')) ->
  parse h buf = Ret si -> P si.
Proof.
  intros P0 Pscfsi Pgr H. unfold parse in H.
  bind_inv H. rename a into btr.
  bind_inv H. destruct a as [v0 s0].
  bind_inv H. destruct a as [v1 s1].
  bind_inv H.
  assert (H1 : P (snd a)).
  { destruct (Z.eqb_spec (LowSamplingFrequency h) 0) as [Hl|Hl].
    - eapply readScfsi_keeps; [apply Pscfsi, Hl | | exact E2]. apply P0.
    - injection E2 as <-. apply P0. }
  bind_inv H. injection H as <-.
  revert E3. revert H1. generalize a a0.
  apply (for_range_invariant (fun st => P (snd st))).
  intros gr st3 st4 Hgr.
  apply (for_range_invariant (fun st => P (snd st))).
  intros ch st5 st6 Hch. apply Pgr; assumption.
Qed.

Lemma grch_set_eq (si : SideInfo) (f f' : field) (gr ch g c : nat) (v : Z) :
  grch (set si f gr ch v) f' g c =
    if field_eqb f' f && (g =? gr)%nat && (c =? ch)%nat then v
    else grch si f' g c.
Proof. reflexivity. Qed.



(** X9: in a frame of the low sampling frequencies (MPEG2) [Read]
    reads neither the scale-factor selection bits nor the pre-flag:
    every [Scfsi] and every [Preflag] entry of the side information it
    returns is zero. *)
Theorem Read_lsf_frame_has_no_scfsi_and_no_preflag {Source : Type}
  (ReadFull : Source -> Z -> list byte * option io_error * Source)
  (source source' : Source) (h : FrameHeader) (si : SideInfo) :
  LowSamplingFrequency h <> 0 ->
  Read ReadFull source h = Ret (Ok si, source') ->
  (forall ch band, Scfsi si ch band = 0) /\
  (forall gr ch, grch si Preflag gr ch = 0).
Proof.
  intros Hl H. destruct (Read_Ok_parse _ _ _ _ _ H) as (data & E).
  revert E.
  apply (parse_loops h _ si (fun si =>
           (forall ch band, Scfsi si ch band = 0) /\
           (forall gr ch, grch si Preflag gr ch = 0))).
  - intros v0 v1. cbn. auto.
  - intros Hz. contradiction.
  - intros btr g c st st' _ _.
    apply Z.eqb_neq in Hl. rewrite Hl.
    apply (readGranuleChannel_writes (fun si =>
             (forall ch band, Scfsi si ch band = 0) /\
             (forall gr ch, grch si Preflag gr ch = 0))).
    + intros si0 f v Hf _ (H1 & H2). split; [exact H1|].
      intros gr ch. rewrite grch_set_eq.
      destruct f; try apply H2. discriminate (Hf eq_refl).
    + intros si0 _ (H1 & H2). split; [exact H1|].
      intros gr ch. apply H2.
    + intros si0 region v HP. exact HP.
    + intros si0 window v HP. exact HP.
Qed.

Lemma Read_lsf_frame_has_no_scfsi_and_no_preflag_witness :
  (forall ch band, Scfsi parsed_mpeg2_ones ch band = 0) /\
  (forall gr ch, grch parsed_mpeg2_ones Preflag gr ch = 0).
Proof.
  apply (Read_lsf_frame_has_no_scfsi_and_no_preflag
           fixtures.mockReader_ReadFull
           (fixtures.mkMockReader (repeat xff 9) 0)
           (fixtures.mkMockReader (repeat xff 9) 9)
           header_mpeg2_mono).
  - cbn. lia.
  - vm_compute. reflexivity.
Defined.

Lemma readGranuleChannel_block_type (mpeg1Frame : bool) (bitsToRead : list Z)
  (gr ch : nat) (st st' : pstate) :
  readGranuleChannel mpeg1Frame bitsToRead gr ch st = Ret st' ->
  grch (snd st') WinSwitchFlag gr ch <> 1 ->
  grch (snd st') BlockType gr ch = 0.
Proof.
  unfold readGranuleChannel. destruct (_ || _); [discriminate|].
  destruct st as [s si].
  unfold readWindowSwitching, readNoWindowSwitching, for_range.
  unfold read_field.
  change (Z.to_nat 2) with 2%nat. change (Z.to_nat 3) with 3%nat.
  cbn [for_each seq obind fst snd]. intros H.
  do 5 next_bits H.
  rewrite grch_set_same in H.
  destruct (Z.eqb_spec z3 1) as [-> | Hz3].
  - do 7 next_bits H.
    destruct mpeg1Frame; cbn [obind fst snd] in H; repeat next_bits H;
      injection H as <-; intros Hw; exfalso; apply Hw; cbn [snd];
      match goal with |- context [if ?c then set _ _ _ _ _ else _] =>
        destruct c end;
      grch_simpl; reflexivity.
  - do 5 next_bits H.
    destruct mpeg1Frame; cbn [obind fst snd negb] in H; repeat next_bits H;
      injection H as <-; intros _; cbn [snd].
    + grch_simpl. reflexivity.
    + grch_simpl. reflexivity.
Qed.

(** X10: in the side information [Read] returns, a granule and channel
    whose [WinSwitchFlag] is not 1 has [BlockType] 0: the block type is
    read from the stream only under window switching, and is set to 0
    otherwise. *)
Theorem Read_sets_block_type_0_without_window_switching {Source : Type}
  (ReadFull : Source -> Z -> list byte * option io_error * Source)
  (source source' : Source) (h : FrameHeader) (si : SideInfo)
  (gr ch : nat) :
  Read ReadFull source h = Ret (Ok si, source') ->
  grch si WinSwitchFlag gr ch <> 1 ->
  grch si BlockType gr ch = 0.
Proof.
  intros H. destruct (Read_Ok_parse _ _ _ _ _ H) as (data & E).
  revert E.
  apply (parse_loops h _ si (fun si =>
           grch si WinSwitchFlag gr ch <> 1 -> grch si BlockType gr ch = 0)).
  - intros v0 v1 _. reflexivity.
  - intros _ si0 c band v HP. exact HP.
  - intros btr g c st st' _ _ HP Hrd.
    destruct (Nat.eqb_spec gr g) as [-> | Hg];
      [destruct (Nat.eqb_spec ch c) as [-> | Hc]|].
    + exact (readGranuleChannel_block_type _ _ _ _ _ _ Hrd).
    + assert (Hf : grch (snd st') WinSwitchFlag g ch
                     = grch (snd st) WinSwitchFlag g ch /\
                   grch (snd st') BlockType g ch
                     = grch (snd st) BlockType g ch).
      { revert Hrd.
        apply (readGranuleChannel_writes (fun si =>
                 grch si WinSwitchFlag g ch = grch (snd st) WinSwitchFlag g ch /\
                 grch si BlockType g ch = grch (snd st) BlockType g ch));
          try (intros; assumption); [|auto].
        intros si0 f v _ _ [H1 H2].
        rewrite !grch_set_other_index by (right; exact Hc). auto. }
      destruct Hf as [-> ->]. exact HP.
    + assert (Hf : grch (snd st') WinSwitchFlag gr ch
                     = grch (snd st) WinSwitchFlag gr ch /\
                   grch (snd st') BlockType gr ch
                     = grch (snd st) BlockType gr ch).
      { revert Hrd.
        apply (readGranuleChannel_writes (fun si =>
                 grch si WinSwitchFlag gr ch
                   = grch (snd st) WinSwitchFlag gr ch /\
                 grch si BlockType gr ch = grch (snd st) BlockType gr ch));
          try (intros; assumption); [|auto].
        intros si0 f v _ _ [H1 H2].
        rewrite !grch_set_other_index by (left; exact Hg). auto. }
      destruct Hf as [-> ->]. exact HP.
Qed.

Lemma Read_sets_block_type_0_without_window_switching_witness :
  grch fixtures.parsed_short_block BlockType 1 1 = 0.
Proof.
  apply (Read_sets_block_type_0_without_window_switching
           fixtures.mockReader_ReadFull
           (fixtures.mkMockReader fixtures.sideinfo_short_block 0)
           (fixtures.mkMockReader fixtures.sideinfo_short_block 32)
           fixtures.header_FFFB9044).
  - vm_compute. reflexivity.
  - vm_compute. discriminate.
Defined.

(** *** The bits of one granule and channel *)

Lemma bits_step (upd : SideInfo -> Z -> SideInfo) (w N p : Z)
  (st0 st : pstate) :
  room N st0 -> reads p st0 st -> 0 <= w <= 32 -> p + w <= N ->
  exists st',
    ('(v, s) <- Bits.Bits (fst st) w ;; Ret (s, upd (snd st) v))%go = Ret st' /\
    reads (p + w) st0 st'.
Proof.
  intros [_ Hroom] (Hin & Hpos & Hvec & Herr) Hw Hp.
  destruct (BitsMore.Bits_advances (fst st) w Hin Hw)
    as (v & s & -> & Hs & Hpos' & Hvec' & Herr').
  - unfold Bits.len in *. rewrite Hvec. lia.
  - cbn [obind]. eexists. split; [reflexivity|].
    unfold reads. cbn [fst]. split; [exact Hs|].
    split; [lia|]. split; congruence.
Qed.

Lemma reads_0 (N : Z) (st : pstate) : room N st -> reads 0 st st.
Proof. intros [Hin _]. unfold reads. split; [exact Hin|]. split; [lia | auto]. Qed.

Ltac read_step upd w N p HN HR :=
  let st := fresh "st" in
  let E := fresh "E" in
  let R := fresh "R" in
  destruct (bits_step upd w N p _ _ HN HR ltac:(lia) ltac:(lia))
    as (st & E & R);
  cbv beta in E; rewrite E; clear E; cbn [obind].

Lemma readGranuleChannel_reads (mpeg1Frame : bool) (bitsToRead : list Z)
  (gr ch : nat) (st : pstate) :
  (gr < 2)%nat -> (ch < 2)%nat ->
  nth 3 bitsToRead 0 = (if mpeg1Frame then 4 else 9) ->
  room (granuleChannelBits mpeg1Frame) st ->
  exists st',
    readGranuleChannel mpeg1Frame bitsToRead gr ch st = Ret st' /\
    reads (granuleChannelBits mpeg1Frame) st st'.
Proof.
  intros Hgr Hch Hb HN. pose proof (reads_0 _ _ HN) as R0.
  unfold readGranuleChannel.
  destruct (Nat.leb_spec 2 gr); [lia|].
  destruct (Nat.leb_spec 2 ch); [lia|]. cbn [orb].
  unfold readWindowSwitching, readNoWindowSwitching, for_range, read_field.
  change (Z.to_nat 2) with 2%nat. change (Z.to_nat 3) with 3%nat.
  cbn [for_each seq]. rewrite Hb.
  set (N := granuleChannelBits mpeg1Frame) in *.
  set (sc := if mpeg1Frame then 4 else 9).
  assert (HNsc : 0 <= sc <= 32 /\ N = (if mpeg1Frame then 55 + sc else 54 + sc))
    by (subst N sc; destruct mpeg1Frame; cbn; lia).
  destruct HNsc as [Hsc HNeq].
  assert (HN54 : 54 + sc <= N) by (destruct mpeg1Frame; lia).
  read_step (fun si v => set si Part2_3Length gr ch v) 12 N 0 HN R0.
  read_step (fun si v => set si BigValues gr ch v) 9 N (0 + 12) HN R.
  read_step (fun si v => set si GlobalGain gr ch v) 8 N (0 + 12 + 9) HN R1.
  read_step (fun si v => set si ScalefacCompress gr ch v) sc N
            (0 + 12 + 9 + 8) HN R2.
  read_step (fun si v => set si WinSwitchFlag gr ch v) 1 N
            (0 + 12 + 9 + 8 + sc) HN R3.
  set (p := 0 + 12 + 9 + 8 + sc + 1) in *.
  match goal with |- exists st', obind ?X _ = Ret st' /\ _ =>
    assert (exists st5, X = Ret st5 /\ reads (p + 22) st st5)
      as (st5 & -> & R5)
  end.
  { destruct (_ =? 1).
    - read_step (fun si v => set si BlockType gr ch v) 2 N p HN R4.
      read_step (fun si v => set si MixedBlockFlag gr ch v) 1 N (p + 2) HN R5.
      read_step (fun si v => set_TableSelect si gr ch 0 v) 5 N (p + 2 + 1)
                HN R6.
      read_step (fun si v => set_TableSelect si gr ch 1 v) 5 N
                (p + 2 + 1 + 5) HN R7.
      read_step (fun si v => set_SubblockGain si gr ch 0 v) 3 N
                (p + 2 + 1 + 5 + 5) HN R8.
      read_step (fun si v => set_SubblockGain si gr ch 1 v) 3 N
                (p + 2 + 1 + 5 + 5 + 3) HN R9.
      read_step (fun si v => set_SubblockGain si gr ch 2 v) 3 N
                (p + 2 + 1 + 5 + 5 + 3 + 3) HN R10.
      destruct st11 as [s si]. eexists. split; [reflexivity|].
      replace (p + 22) with (p + 2 + 1 + 5 + 5 + 3 + 3 + 3) by lia.
      exact R11.
    - read_step (fun si v => set_TableSelect si gr ch 0 v) 5 N p HN R4.
      read_step (fun si v => set_TableSelect si gr ch 1 v) 5 N (p + 5) HN R5.
      read_step (fun si v => set_TableSelect si gr ch 2 v) 5 N (p + 5 + 5)
                HN R6.
      read_step (fun si v => set si Region0Count gr ch v) 4 N (p + 5 + 5 + 5)
                HN R7.
      read_step (fun si v => set si Region1Count gr ch v) 3 N
                (p + 5 + 5 + 5 + 4) HN R8.
      destruct st9 as [s si]. eexists. split; [reflexivity|].
      replace (p + 22) with (p + 5 + 5 + 5 + 4 + 3) by lia.
      exact R9. }
  cbn [obind].
  destruct mpeg1Frame.
  - read_step (fun si v => set si Preflag gr ch v) 1 N (p + 22) HN R5.
    read_step (fun si v => set si ScalefacScale gr ch v) 1 N (p + 22 + 1)
              HN R6.
    read_step (fun si v => set si Count1TableSelect gr ch v) 1 N
              (p + 22 + 1 + 1) HN R7.
    eexists. split; [reflexivity|].
    replace N with (p + 22 + 1 + 1 + 1) by lia. exact R8.
  - cbn [obind].
    read_step (fun si v => set si ScalefacScale gr ch v) 1 N (p + 22) HN R5.
    read_step (fun si v => set si Count1TableSelect gr ch v) 1 N
              (p + 22 + 1) HN R6.
    eexists. split; [reflexivity|].
    replace N with (p + 22 + 1 + 1) by lia. exact R7.
Qed.

(** X11: with the bits of a granule ahead in the buffer (59 in an MPEG1
    frame, 63 in an MPEG2 frame), the parse of one granule of one
    channel moves the cursor on by exactly that many bits and records
    no error, whichever way the window-switching flag sends it: the two
    branches read 22 bits each. *)
Theorem granule_channel_reads_the_same_bits_on_both_branches
  (lsf : Z) (bitsToRead : list Z) (gr ch : nat) (st : pstate) :
  sideInfoBitsToRead lsf = Ret bitsToRead ->
  (gr < 2)%nat -> (ch < 2)%nat ->
  BitsSpec.inside (fst st) ->
  Bits.BitPos (fst st) + granuleChannelBits (lsf =? 0)
    <= 8 * Bits.LenInBytes (fst st) ->
  exists st',
    readGranuleChannel (lsf =? 0) bitsToRead gr ch st = Ret st' /\
    Bits.BitPos (fst st') =
      Bits.BitPos (fst st) + granuleChannelBits (lsf =? 0) /\
    Bits.Err (fst st') = Bits.Err (fst st).
Proof.
  intros Hrow Hgr Hch Hin Hroom.
  pose proof Hin as [Hwf _].
  rewrite (BitsMore.BitPos_wf _ Hwf) in *. unfold Bits.LenInBytes in Hroom.
  destruct (readGranuleChannel_reads (lsf =? 0) bitsToRead gr ch st Hgr Hch)
    as (st' & E & ([Hwf' _] & Hpos & _ & Herr)).
  - destruct (bitsToRead_rows _ _ Hrow) as [[-> ->] | [-> ->]]; reflexivity.
  - split; [exact Hin | lia].
  - exists st'. split; [exact E|].
    rewrite (BitsMore.BitPos_wf _ Hwf'). split; [exact Hpos | exact Herr].
Qed.

Lemma granule_channel_reads_the_same_bits_on_both_branches_witness :
  exists st',
    readGranuleChannel (0 =? 0) [9; 5; 3; 4] 0 0
      (Bits.SetPos (Bits.New fixtures.sideinfo_short_block) 20, zero) = Ret st' /\
    Bits.BitPos (fst st') = 20 + 59 /\
    Bits.Err (fst st') = None.
Proof.
  apply (granule_channel_reads_the_same_bits_on_both_branches 0 [9; 5; 3; 4]
           0 0 (Bits.SetPos (Bits.New fixtures.sideinfo_short_block) 20, zero)).
  - reflexivity.
  - lia.
  - lia.
  - vm_compute. intuition discriminate.
  - vm_compute. discriminate.
Defined.

End sideinfoMore.
(** ** Package maindata, further properties *)

Module maindataMore.
Import frameheader sideinfo maindata maindataSpec maindataFacts.

Lemma others_kept_refl (gr ch : nat) (md : MainData) : others_kept gr ch md md.
Proof. intros g c i _. reflexivity. Qed.

Lemma others_kept_trans (gr ch : nat) (md1 md2 md3 : MainData) :
  others_kept gr ch md1 md2 -> others_kept gr ch md2 md3 ->
  others_kept gr ch md1 md3.
Proof. intros H1 H2 g c i Hgc. rewrite H2, H1 by exact Hgc. reflexivity. Qed.

Lemma store_Is_others (md md' : MainData) (gr ch : nat) (i v : Z) :
  store_Is md gr ch i v = Ret md' -> others_kept gr ch md md'.
Proof.
  unfold store_Is. destruct (_ || _); [discriminate|].
  intros [= <-] g c k Hgc. cbn [Is].
  destruct (Nat.eqb_spec g gr), (Nat.eqb_spec c ch); cbn [andb];
    try reflexivity.
  exfalso. destruct Hgc; contradiction.
Qed.

Lemma for_each_store_others (gr ch : nat) (idx : list nat) (md md' : MainData) :
  for_each (fun i md => store_Is md gr ch (Z.of_nat i) 0) idx md = Ret md' ->
  others_kept gr ch md md'.
Proof.
  revert md. induction idx as [|i idx IH]; intros md; cbn [for_each].
  - intros [= <-]. apply others_kept_refl.
  - destruct (store_Is md gr ch (Z.of_nat i) 0) as [md1|] eqn:E; cbn [obind];
      [|discriminate].
    intros H. eapply others_kept_trans; [exact (store_Is_others _ _ _ _ _ _ E)|].
    apply IH, H.
Qed.

Lemma for_each_store_zeroes (gr ch : nat) (idx : list nat) (md md' : MainData) :
  for_each (fun i md => store_Is md gr ch (Z.of_nat i) 0) idx md = Ret md' ->
  (forall i, In i idx -> Is md' gr ch (Z.of_nat i) = 0) /\
  (forall k, (forall i, In i idx -> k <> Z.of_nat i) ->
             Is md' gr ch k = Is md gr ch k).
Proof.
  revert md. induction idx as [|i idx IH]; intros md; cbn [for_each].
  - intros [= <-]. split; [intros i [] | reflexivity].
  - destruct (store_Is md gr ch (Z.of_nat i) 0) as [md1|] eqn:E; cbn [obind];
      [|discriminate].
    intros H. destruct (IH _ H) as [Hz Hk].
    destruct (store_Is_inv _ _ _ _ _ _ E) as (_ & _ & _ & Hv & Ho).
    split.
    + intros j [<- | Hj]; [|apply Hz, Hj].
      destruct (in_dec Nat.eq_dec i idx) as [Hin | Hnin]; [apply Hz, Hin|].
      rewrite Hk; [exact Hv|].
      intros i' Hi' Heq. apply Nat2Z.inj in Heq. subst i'. contradiction.
    + intros k Hn. rewrite Hk by (intros i' Hi'; apply Hn; right; exact Hi').
      apply Ho. apply Hn. left. reflexivity.
Qed.

Section readHuffman.

Context {HuffmanError : Type}.
Variable huffman_Decode :
  Bits.t -> Z -> result HuffmanError (Z * Z * Z * Z) * Bits.t.
Variable SfBandIndicesLong : Z -> Z -> list Z.

#[local] Abbreviation regionStarts :=
  (regionStarts (HuffmanError := HuffmanError) SfBandIndicesLong).
#[local] Abbreviation bigValuesLoop := (bigValuesLoop huffman_Decode).
#[local] Abbreviation count1Loop := (count1Loop huffman_Decode).
#[local] Abbreviation huffmanLoops := (huffmanLoops huffman_Decode).
#[local] Abbreviation readHuffman :=
  (readHuffman huffman_Decode SfBandIndicesLong).

(** X12: for a granule without main data ([Part2_3Length] 0)
    [readHuffman] zeroes the 576 entries of [Is[gr][ch]] and returns no
    error; it leaves the other granules and channels of [Is], the bit
    reader and the side information as they were, [Count1[gr][ch]]
    included. *)
Theorem readHuffman_without_main_data_zeroes_the_granule
  (m : Bits.t) (h : FrameHeader) (si : SideInfo) (md : MainData)
  (part2Start : Z) (gr ch : nat) :
  (gr < 2)%nat -> (ch < 2)%nat ->
  grch si Part2_3Length gr ch = 0 ->
  exists md',
    readHuffman m h si md part2Start gr ch = Ret (None, (m, si, md')) /\
    (forall i, 0 <= i < 576 -> Is md' gr ch i = 0) /\
    others_kept gr ch md md'.
Proof.
  intros Hg Hc Hz.
  unfold maindata.readHuffman, maindata.readHuffman_fuel.
  destruct (Nat.leb_spec 2 gr); [lia|].
  destruct (Nat.leb_spec 2 ch); [lia|]. cbn [orb].
  rewrite Hz. cbn [Z.eqb]. unfold for_range.
  change (Z.to_nat consts.SamplesPerGr) with 576%nat.
  pose proof (for_range_store_no_panic 576 gr ch md Hg Hc
                ltac:(lia) 0%nat ltac:(lia)) as Hnp.
  destruct (for_each _ (seq 0 576) md) as [md'|] eqn:E; [|contradiction].
  cbn [obind]. exists md'. split; [reflexivity|].
  split; [|exact (for_each_store_others _ _ _ _ _ E)].
  intros i Hi. destruct (for_each_store_zeroes _ _ _ _ _ E) as [Hzero _].
  rewrite <- (Z2Nat.id i) by lia. apply Hzero. apply in_seq. lia.
Qed.

(** *** What a call changes *)

Lemma bigValuesLoop_others (fuel : nat) (si : SideInfo) (gr ch : nat)
  (r1 r2 isPos : Z) (m m' : Bits.t) (md md' : MainData) (e : option error) :
  bigValuesLoop fuel si gr ch r1 r2 isPos m md = Ret (e, (m', md')) ->
  others_kept gr ch md md'.
Proof.
  revert isPos m md.
  induction fuel as [|fuel IH]; intros isPos m md;
    cbn [maindata.bigValuesLoop].
  - destruct (_ <? _); intros [= _ _ <-]; apply others_kept_refl.
  - destruct (_ <? _); [|intros [= _ _ <-]; apply others_kept_refl].
    destruct (_ <=? _); [intros [= _ _ <-]; apply others_kept_refl|].
    destruct (huffman_Decode m _) as [[[[[x y] v] w]|e'] m1];
      [|intros [= _ _ <-]; apply others_kept_refl].
    destruct (store_Is md gr ch isPos x) as [md1|] eqn:E1; cbn [obind];
      [|discriminate].
    destruct (store_Is md1 gr ch (isPos + 1) y) as [md2|] eqn:E2;
      cbn [obind]; [|discriminate].
    intros H. apply IH in H.
    eapply others_kept_trans; [exact (store_Is_others _ _ _ _ _ _ E1)|].
    eapply others_kept_trans; [exact (store_Is_others _ _ _ _ _ _ E2)|].
    exact H.
Qed.

Lemma count1Loop_others (fuel : nat) (tableNum bitPosEnd : Z) (gr ch : nat)
  (isPos p : Z) (m m' : Bits.t) (md md' : MainData) (e : option error) :
  count1Loop fuel tableNum bitPosEnd gr ch isPos m md
    = Ret (e, (p, m', md')) ->
  others_kept gr ch md md'.
Proof.
  revert isPos m md.
  induction fuel as [|fuel IH]; intros isPos m md;
    cbn [maindata.count1Loop].
  - destruct (_ && _); intros [= _ _ _ <-]; apply others_kept_refl.
  - destruct (_ && _); [|intros [= _ _ _ <-]; apply others_kept_refl].
    destruct (huffman_Decode m _) as [[[[[x y] v] w]|e'] m1];
      [|intros [= _ _ _ <-]; apply others_kept_refl].
    destruct (store_Is md gr ch isPos v) as [md1|] eqn:E1; cbn [obind];
      [|discriminate].
    pose proof (store_Is_others _ _ _ _ _ _ E1) as K1.
    destruct (_ <=? _); [intros [= _ _ _ <-]; exact K1|].
    destruct (store_Is md1 gr ch _ w) as [md2|] eqn:E2; cbn [obind];
      [|discriminate].
    pose proof (others_kept_trans _ _ _ _ _ K1
                  (store_Is_others _ _ _ _ _ _ E2)) as K2.
    destruct (_ <=? _); [intros [= _ _ _ <-]; exact K2|].
    destruct (store_Is md2 gr ch _ x) as [md3|] eqn:E3; cbn [obind];
      [|discriminate].
    pose proof (others_kept_trans _ _ _ _ _ K2
                  (store_Is_others _ _ _ _ _ _ E3)) as K3.
    destruct (_ <=? _); [intros [= _ _ _ <-]; exact K3|].
    destruct (store_Is md3 gr ch _ y) as [md4|] eqn:E4; cbn [obind];
      [|discriminate].
    pose proof (others_kept_trans _ _ _ _ _ K3
                  (store_Is_others _ _ _ _ _ _ E4)) as K4.
    intros H. apply IH in H. exact (others_kept_trans _ _ _ _ _ K4 H).
Qed.

Lemma zeroLoop_others (fuel : nat) (gr ch : nat) (isPos : Z)
  (md md' : MainData) :
  zeroLoop fuel gr ch isPos md = Ret md' -> others_kept gr ch md md'.
Proof.
  revert isPos md. induction fuel as [|fuel IH]; intros isPos md;
    cbn [zeroLoop].
  - destruct (_ <? _); intros [= <-]; apply others_kept_refl.
  - destruct (_ <? _); [|intros [= <-]; apply others_kept_refl].
    destruct (store_Is md gr ch isPos 0) as [md1|] eqn:E; cbn [obind];
      [|discriminate].
    intros H. apply IH in H.
    exact (others_kept_trans _ _ _ _ _ (store_Is_others _ _ _ _ _ _ E) H).
Qed.

(** X13: whatever [readHuffman] returns, it has written to
    [Is[gr][ch]] only, and in the side information to
    [Count1[gr][ch]] at most: every other granule and channel of [Is]
    is as before, and the side information is the one passed in or that
    one with a new [Count1[gr][ch]]; when an error is returned the side
    information is unchanged. *)
Theorem readHuffman_writes_only_its_granule
  (m m' : Bits.t) (h : FrameHeader) (si si' : SideInfo) (md md' : MainData)
  (part2Start : Z) (gr ch : nat) (e : option error) :
  readHuffman m h si md part2Start gr ch = Ret (e, (m', si', md')) ->
  others_kept gr ch md md' /\
  (si' = si \/ exists count1, si' = set si Count1 gr ch count1) /\
  (e <> None -> si' = si).
Proof.
  unfold maindata.readHuffman, maindata.readHuffman_fuel.
  destruct (_ || _); [discriminate|].
  destruct (_ =? 0).
  - unfold for_range.
    destruct (for_each _ _ md) as [md1|] eqn:E; cbn [obind]; [|discriminate].
    intros [= <- <- <- <-].
    split; [exact (for_each_store_others _ _ _ _ _ E)|]. split; auto.
  - destruct (regionStarts h si gr ch) as [[[r1 r2]|e1]|]; cbn [obind];
      [| |discriminate].
    2:{ intros [= <- <- <- <-]. split; [apply others_kept_refl|].
        split; auto. }
    unfold maindata.huffmanLoops.
    destruct (bigValuesLoop 289 _ _ _ _ _ _ _ _)
      as [[[e1|] [m1 md1]]|] eqn:EB; cbn [obind]; [| |discriminate].
    { intros [= <- <- <- <-].
      split; [exact (bigValuesLoop_others _ _ _ _ _ _ _ _ _ _ _ _ EB)|].
      split; auto. }
    destruct (count1Loop 145 _ _ _ _ _ _ _)
      as [[[e2|] [[p m2] md2]]|] eqn:EC; cbn [obind]; [| |discriminate].
    { intros [= <- <- <- <-].
      split; [|split; auto].
      exact (others_kept_trans _ _ _ _ _
               (bigValuesLoop_others _ _ _ _ _ _ _ _ _ _ _ _ EB)
               (count1Loop_others _ _ _ _ _ _ _ _ _ _ _ _ EC)). }
    destruct (zeroLoop 576 _ _ _ _) as [md3|] eqn:EZ; cbn [obind];
      [|discriminate].
    intros [= <- <- <- <-]. split; [|split].
    + exact (others_kept_trans _ _ _ _ _
               (others_kept_trans _ _ _ _ _
                  (bigValuesLoop_others _ _ _ _ _ _ _ _ _ _ _ _ EB)
                  (count1Loop_others _ _ _ _ _ _ _ _ _ _ _ _ EC))
               (zeroLoop_others _ _ _ _ _ _ EZ)).
    + right. eauto.
    + intros Hne. contradiction.
Qed.

(** *** The errors *)

Lemma bigValuesLoop_error (fuel : nat) (si : SideInfo) (gr ch : nat)
  (r1 r2 isPos : Z) (m : Bits.t) (md : MainData) (e : error)
  (st : Bits.t * MainData) :
  Z.Even isPos -> isPos <= 576 ->
  bigValuesLoop fuel si gr ch r1 r2 isPos m md = Ret (Some e, st) ->
  match e with
  | IsPosTooBig p => p = 576 /\ 576 < int_mul (grch si BigValues gr ch) 2
  | DecodeError _ => True
  | _ => False
  end.
Proof.
  revert isPos m md.
  induction fuel as [|fuel IH]; intros isPos m md [k Hk] Hle;
    cbn [maindata.bigValuesLoop].
  - destruct (_ <? _); discriminate.
  - destruct (Z.ltb_spec isPos (int_mul (grch si BigValues gr ch) 2));
      [|discriminate].
    unfold consts.SamplesPerGr.
    destruct (Z.leb_spec 576 isPos).
    + intros [= <- _]. lia.
    + destruct (huffman_Decode m _) as [[[[[x y] v] w]|e'] m1];
        [|intros [= <- _]; exact I].
      destruct (store_Is md gr ch isPos x) as [md1|]; cbn [obind];
        [|discriminate].
      destruct (store_Is md1 gr ch (isPos + 1) y) as [md2|]; cbn [obind];
        [|discriminate].
      apply IH; [exists (k + 1); lia | lia].
Qed.

Lemma count1Loop_error (fuel : nat) (tableNum bitPosEnd : Z) (gr ch : nat)
  (isPos : Z) (m : Bits.t) (md : MainData) (e : error)
  (st : Z * Bits.t * MainData) :
  count1Loop fuel tableNum bitPosEnd gr ch isPos m md = Ret (Some e, st) ->
  exists e', e = DecodeError e'.
Proof.
  revert isPos m md.
  induction fuel as [|fuel IH]; intros isPos m md;
    cbn [maindata.count1Loop].
  - destruct (_ && _); discriminate.
  - destruct (_ && _); [|discriminate].
    destruct (huffman_Decode m _) as [[[[[x y] v] w]|e'] m1];
      [|intros [= <- _]; eauto].
    destruct (store_Is md gr ch isPos v) as [md1|]; cbn [obind];
      [|discriminate].
    destruct (_ <=? _); [discriminate|].
    destruct (store_Is md1 gr ch _ w) as [md2|]; cbn [obind]; [|discriminate].
    destruct (_ <=? _); [discriminate|].
    destruct (store_Is md2 gr ch _ x) as [md3|]; cbn [obind]; [|discriminate].
    destruct (_ <=? _); [discriminate|].
    destruct (store_Is md3 gr ch _ y) as [md4|]; cbn [obind]; [|discriminate].
    apply IH.
Qed.

(** X14: the errors [readHuffman] can return.  An index error is
    returned only for a granule that is not a short-block one
    ([WinSwitchFlag] 1 with [BlockType] 2), carries the index computed
    from the region counts, which is not an index of the long band
    table, and comes with nothing read or stored.  The position error
    is only ever reported for position 576, and only when twice
    [BigValues] exceeds 576.  Any other error is one of [huffman.Decode]. *)
Theorem readHuffman_errors
  (m : Bits.t) (h : FrameHeader) (si : SideInfo) (md : MainData)
  (part2Start : Z) (gr ch : nat) (e : error) (st : state) :
  readHuffman m h si md part2Start gr ch = Ret (Some e, st) ->
  let l := SfBandIndicesLong (LowSamplingFrequency h) (SamplingFrequency h) in
  let short :=
    (grch si WinSwitchFlag gr ch =? 1) && (grch si BlockType gr ch =? 2) in
  match e with
  | InvalidIndexI i =>
      short = false /\ i = int_add (grch si Region0Count gr ch) 1 /\
      ~ 0 <= i < Z.of_nat (List.length l) /\ st = (m, si, md)
  | InvalidIndexJ j =>
      short = false /\
      j = int_add (int_add (grch si Region0Count gr ch)
                           (grch si Region1Count gr ch)) 2 /\
      ~ 0 <= j < Z.of_nat (List.length l) /\ st = (m, si, md)
  | IsPosTooBig p => p = 576 /\ 576 < int_mul (grch si BigValues gr ch) 2
  | DecodeError _ => True
  end.
Proof.
  unfold maindata.readHuffman, maindata.readHuffman_fuel.
  destruct (_ || _); [discriminate|].
  destruct (_ =? 0).
  { destruct (for_range _ _ md); cbn [obind]; discriminate. }
  cbv zeta. unfold maindata.regionStarts. cbv zeta.
  destruct (_ && _) eqn:Eshort.
  - cbn [obind]. unfold maindata.huffmanLoops.
    destruct (bigValuesLoop 289 _ _ _ _ _ _ _ _)
      as [[[e1|] [m1 md1]]|] eqn:EB; cbn [obind]; [| |discriminate].
    + intros [= <- _].
      pose proof (bigValuesLoop_error 289 si gr ch _ _ 0 m md e1 _
                    ltac:(exists 0; lia) ltac:(lia) EB) as He.
      destruct e1; try contradiction; exact He.
    + destruct (count1Loop 145 _ _ _ _ _ _ _)
        as [[[e2|] [[p m2] md2]]|] eqn:EC; cbn [obind]; [| |discriminate].
      * intros [= <- _]. destruct (count1Loop_error _ _ _ _ _ _ _ _ _ _ EC)
          as (e' & ->). exact I.
      * destruct (zeroLoop 576 _ _ _ _); cbn [obind]; discriminate.
  - set (i := int_add (grch si Region0Count gr ch) 1).
    set (j := int_add (int_add (grch si Region0Count gr ch)
                               (grch si Region1Count gr ch)) 2).
    set (l := SfBandIndicesLong _ _).
    destruct (Z.ltb_spec i 0); cbn [orb obind].
    { intros [= <- <-]. repeat split; lia. }
    destruct (Z.leb_spec (Z.of_nat (length l)) i); cbn [obind].
    { intros [= <- <-]. repeat split; lia. }
    unfold at_index.
    destruct (Z.ltb_spec i 0); [lia|].
    destruct (Z.leb_spec (Z.of_nat (length l)) i); [lia|]. cbn [orb obind].
    destruct (Z.ltb_spec j 0); cbn [orb obind].
    { intros [= <- <-]. repeat split; lia. }
    destruct (Z.leb_spec (Z.of_nat (length l)) j); cbn [obind].
    { intros [= <- <-]. repeat split; lia. }
    destruct (Z.ltb_spec j 0); [lia|].
    destruct (Z.leb_spec (Z.of_nat (length l)) j); [lia|]. cbn [orb obind].
    unfold maindata.huffmanLoops.
    destruct (bigValuesLoop 289 _ _ _ _ _ _ _ _)
      as [[[e1|] [m1 md1]]|] eqn:EB; cbn [obind]; [| |discriminate].
    + intros [= <- _].
      pose proof (bigValuesLoop_error 289 si gr ch _ _ 0 m md e1 _
                    ltac:(exists 0; lia) ltac:(lia) EB) as He.
      destruct e1; try contradiction; exact He.
    + destruct (count1Loop 145 _ _ _ _ _ _ _)
        as [[[e2|] [[p m2] md2]]|] eqn:EC; cbn [obind]; [| |discriminate].
      * intros [= <- _]. destruct (count1Loop_error _ _ _ _ _ _ _ _ _ _ EC)
          as (e' & ->). exact I.
      * destruct (zeroLoop 576 _ _ _ _); cbn [obind]; discriminate.
Qed.

End readHuffman.

Lemma readHuffman_without_main_data_zeroes_the_granule_witness :
  exists md',
    readHuffman fixtures.four_bit_Decode fixtures.bands_44100
      fixtures.ones_reader fixtures.header_FFFB9044
      (fixtures.sideinfo_long 0 10 7 13) (mkMainData (fun _ _ _ => 7)) 0 1 1
    = Ret (None, (fixtures.ones_reader, fixtures.sideinfo_long 0 10 7 13, md')) /\
    (forall i, 0 <= i < 576 -> Is md' 1 1 i = 0) /\
    others_kept 1 1 (mkMainData (fun _ _ _ => 7)) md'.
Proof.
  apply (readHuffman_without_main_data_zeroes_the_granule
           fixtures.four_bit_Decode fixtures.bands_44100
           fixtures.ones_reader fixtures.header_FFFB9044
           (fixtures.sideinfo_long 0 10 7 13) (mkMainData (fun _ _ _ => 7))
           0 1%nat 1%nat); [lia | lia | reflexivity].
Defined.

Lemma readHuffman_writes_only_its_granule_witness :
  let '(m', si', md') := fixtures.after_98_bits in
  others_kept 0 0 fixtures.zero_maindata md' /\
  (si' = fixtures.sideinfo_98_bits \/
   exists count1, si' = set fixtures.sideinfo_98_bits Count1 0 0 count1) /\
  (@None (error (HuffmanError := unit)) <> None ->
   si' = fixtures.sideinfo_98_bits).
Proof.
  destruct fixtures.after_98_bits as [[m' si'] md'] eqn:E.
  apply (readHuffman_writes_only_its_granule
           fixtures.four_bit_Decode fixtures.bands_44100
           fixtures.ones_reader m' fixtures.header_FFFB9044
           fixtures.sideinfo_98_bits si' fixtures.zero_maindata md'
           0 0%nat 0%nat None).
  rewrite <- E. vm_compute. reflexivity.
Defined.

Lemma readHuffman_errors_witness :
  576 = 576 /\ 576 < int_mul 300 2.
Proof.
  apply (readHuffman_errors
           fixtures.four_bit_Decode fixtures.bands_44100
           fixtures.ones_reader fixtures.header_FFFB9044
           fixtures.sideinfo_300_big_values fixtures.zero_maindata
           0 0%nat 0%nat (IsPosTooBig 576) after_300_big_values).
  vm_compute. reflexivity.
Defined.

End maindataMore.
(** ** Package imdct, further properties *)

Module imdctMore.
Import imdct imdctSpec.

Section Win.

Context {F : Type}.
Variable zero : F.
Variable add mul : F -> F -> F.
Variable imdctWinData cosN12 cosN36 : nat -> nat -> F.

#[local] Abbreviation Win := (Win zero add mul imdctWinData cosN12 cosN36).

Lemma Win_bad_block_type (inp : list F) (blockType : Z) :
  blockType < 0 \/ 3 < blockType -> Win inp blockType = Panic.
Proof.
  intros Hbt. unfold imdct.Win.
  destruct (Z.eqb_spec blockType 2); [lia|].
  destruct (Z.ltb_spec blockType 0); [reflexivity|].
  destruct (Z.leb_spec 4 blockType); [reflexivity | lia].
Qed.

Lemma Win_short_input (inp : list F) (blockType : Z) :
  (length inp < 18)%nat -> Win inp blockType = Panic.
Proof.
  intros Hlen. unfold imdct.Win.
  destruct (Z.eqb_spec blockType 2).
  - do 18 (destruct inp as [|? inp]; [vm_compute; reflexivity|]).
    cbn [length] in Hlen. lia.
  - destruct (_ || _); [reflexivity|].
    do 18 (destruct inp as [|? inp]; [reflexivity|]).
    cbn [length] in Hlen. lia.
Qed.

(** X15: for block types 0, 1 and 3 and an input of 18 lines or more,
    [Win] returns 36 samples, sample [p] being the sum over the first
    18 lines [m] of [in[m] * cosN36[m][p]], times
    [imdctWinData[blockType][p]]; nothing is added between samples. *)
Theorem Win_long_blocks (inp : list F) (blockType : Z) :
  (18 <= length inp)%nat ->
  blockType = 0 \/ blockType = 1 \/ blockType = 3 ->
  Win inp blockType
    = Ret (map (long_block zero add mul imdctWinData cosN36 inp
                  (Z.to_nat blockType))
               (seq 0 36)).
Proof.
  intros Hlen Hbt.
  do 18 (destruct inp as [|? inp]; [cbn [length] in Hlen; lia|]).
  destruct Hbt as [-> | [-> | ->]]; reflexivity.
Qed.

(** X16: [Win] panics for an input of fewer than 18 lines, whatever the
    block type, and for a block type outside 0..3, whatever the
    input. *)
Theorem Win_panics_on_short_input_or_bad_block_type
  (inp : list F) (blockType : Z) :
  (length inp < 18)%nat \/ blockType < 0 \/ 3 < blockType ->
  Win inp blockType = Panic.
Proof.
  intros [Hlen | Hbt].
  - apply Win_short_input, Hlen.
  - apply Win_bad_block_type, Hbt.
Qed.

(** X17: for an input of 18 lines or more and a block type from 0 to
    3, [Win] returns 36 samples, and they depend on the first 18 lines
    only. *)
Theorem Win_gives_36_samples_from_18_lines (inp : list F) (blockType : Z) :
  (18 <= length inp)%nat -> 0 <= blockType <= 3 ->
  exists out,
    Win inp blockType = Ret out /\ length out = 36%nat /\
    Win (firstn 18 inp) blockType = Ret out.
Proof.
  intros Hlen Hbt.
  do 18 (destruct inp as [|? inp]; [cbn [length] in Hlen; lia|]).
  assert (Hc : blockType = 0 \/ blockType = 1 \/ blockType = 2 \/
               blockType = 3) by lia.
  destruct Hc as [-> | [-> | [-> | ->]]];
    (eexists; split; [reflexivity|]; split; reflexivity).
Qed.

End Win.

Lemma Win_long_blocks_witness :
  imdct.Win 0 Z.add Z.mul (fun bt p => Z.of_nat (bt + p + 1))
    fixtures.cosN12_milli (fun m p => Z.of_nat (m + 2 * p))
    (repeat 1 18) 3
  = Ret (map (long_block 0 Z.add Z.mul (fun bt p => Z.of_nat (bt + p + 1))
                (fun m p => Z.of_nat (m + 2 * p)) (repeat 1 18) 3)
             (seq 0 36)).
Proof.
  apply (Win_long_blocks 0 Z.add Z.mul (fun bt p => Z.of_nat (bt + p + 1))
           fixtures.cosN12_milli (fun m p => Z.of_nat (m + 2 * p))
           (repeat 1 18) 3).
  - cbn. lia.
  - right. right. reflexivity.
Defined.

Lemma Win_panics_on_short_input_or_bad_block_type_witness :
  fixtures.Win_milli (repeat 1000 17) 2 = Panic.
Proof.
  apply (Win_panics_on_short_input_or_bad_block_type 0 Z.add Z.mul
           fixtures.short_window_milli fixtures.cosN12_milli (fun _ _ => 0)
           (repeat 1000 17) 2).
  left. cbn. lia.
Defined.

Lemma Win_gives_36_samples_from_18_lines_witness :
  exists out,
    fixtures.Win_milli (fixtures.first_line_only ++ [7; 7]) 2 = Ret out /\
    length out = 36%nat /\
    fixtures.Win_milli (firstn 18 (fixtures.first_line_only ++ [7; 7])) 2
      = Ret out.
Proof.
  apply (Win_gives_36_samples_from_18_lines 0 Z.add Z.mul
           fixtures.short_window_milli fixtures.cosN12_milli (fun _ _ => 0)
           (fixtures.first_line_only ++ [7; 7]) 2).
  - cbn. lia.
  - lia.
Defined.

End imdctMore.
(** ** Package mp3, further properties *)

Module decoderMore.
Import mp3 decoder decoderSpec.

Section Decoder.

Context {Source Frame SeekError FrameError : Type}.
Variable source_Seek : Source -> Z -> Z -> option SeekError * Source.
Variable frame_Read :
  Source -> option Frame -> option Frame * option FrameError * Source.
Variable frame_Decode : Frame -> list byte.
Variable is_EOF : FrameError -> bool.

#[local] Abbreviation readFrame :=
  (readFrame (SeekError := SeekError) frame_Read frame_Decode is_EOF).
#[local] Abbreviation readFrames :=
  (readFrames frame_Read frame_Decode is_EOF).
#[local] Abbreviation seekToFrame :=
  (seekToFrame source_Seek frame_Read frame_Decode is_EOF).
#[local] Abbreviation Seek :=
  (Seek source_Seek frame_Read frame_Decode is_EOF).
#[local] Abbreviation Decoder := (Decoder (Source := Source) (Frame := Frame)).
#[local] Abbreviation error :=
  (error (SeekError := SeekError) (FrameError := FrameError)).

(** *** What [Seek] changes *)

Lemma same_stream_refl (d : Decoder) : same_stream d d.
Proof. repeat split. Qed.

Lemma same_stream_trans (d1 d2 d3 : Decoder) :
  same_stream d1 d2 -> same_stream d2 d3 -> same_stream d1 d3.
Proof.
  intros (A1 & A2 & A3 & A4) (B1 & B2 & B3 & B4).
  repeat split; congruence.
Qed.

Lemma readFrame_keeps (d d' : Decoder) (e : option error) :
  readFrame d = Ret (e, d') -> same_stream d d' /\ pos d' = pos d.
Proof.
  unfold mp3.readFrame.
  destruct (frame_Read (source d) (frame d)) as [[f err] s].
  destruct err as [e1|].
  - intros [= _ <-]. split; [repeat split | reflexivity].
  - destruct f as [fr|]; [|discriminate].
    intros [= _ <-]. split; [repeat split | reflexivity].
Qed.

Lemma readFrames_keeps (n : nat) (d d' : Decoder) (e : option error) :
  readFrames n d = Ret (e, d') -> same_stream d d' /\ pos d' = pos d.
Proof.
  revert d. induction n as [|n IH]; intros d; cbn [mp3.readFrames].
  - intros [= _ <-]. split; [apply same_stream_refl | reflexivity].
  - destruct (readFrame d) as [[[e1|] d1]|] eqn:E; cbn [obind];
      [| |discriminate].
    + intros [= _ <-]. exact (readFrame_keeps _ _ _ E).
    + intros H. apply IH in H. destruct H as [H1 H2].
      destruct (readFrame_keeps _ _ _ E) as [K1 K2].
      split; [exact (same_stream_trans _ _ _ K1 H1) | congruence].
Qed.

Lemma seekToFrame_keeps (d d' : Decoder) (f : Z) (n : nat)
  (e : option error) :
  seekToFrame d f n = Ret (e, d') -> same_stream d d' /\ pos d' = pos d.
Proof.
  unfold mp3.seekToFrame.
  destruct (at_index (frameStarts d) f) as [start|]; cbn [obind];
    [|discriminate].
  destruct (source_Seek (source d) start 0) as [[e1|] s].
  - intros [= _ <-]. split; [repeat split | reflexivity].
  - intros H. apply readFrames_keeps in H. exact H.
Qed.

Lemma Seek_to_position (d d' : Decoder) (npos : Z) (r : result error Z) :
  (let d := set_frame (set_buf (set_pos d npos) []) None in
   let d := if pos d <? 0 then set_pos d 0 else d in
   if negb (length d =? invalidLength) && (length d <=? pos d)
   then Ret (Ok npos, d)
   else
     (f <- int64_div (pos d) (bytesPerFrame d) ;;
      if 0 <? f then
        r <- seekToFrame d (f - 1) 2 ;;
        match r with
        | (Some e, d) => Ret (Err e, d)
        | (None, d) =>
          rem <- int64_rem (pos d) (bytesPerFrame d) ;;
          b <- slice_from (buf d) (int64_add (bytesPerFrame d) rem) ;;
          Ret (Ok npos, set_buf d b)
        end
      else
        r <- seekToFrame d f 1 ;;
        match r with
        | (Some e, d) => Ret (Err e, d)
        | (None, d) =>
          b <- slice_from (buf d) (pos d) ;;
          Ret (Ok npos, set_buf d b)
        end)%go) = Ret (r, d') ->
  same_stream d d' /\
  (forall n, r = Ok n -> n = npos /\ pos d' = Z.max 0 n).
Proof.
  cbv zeta.
  set (d0 := set_frame (set_buf (set_pos d npos) []) None).
  set (d1 := if pos d0 <? 0 then set_pos d0 0 else d0).
  assert (H1 : same_stream d d1 /\ pos d1 = Z.max 0 npos).
  { subst d1 d0. cbn [pos set_frame set_buf set_pos].
    destruct (Z.ltb_spec npos 0); (split; [repeat split|]);
      cbn [pos set_pos set_frame set_buf]; lia. }
  destruct H1 as [S1 P1]. clearbody d1. clear d0.
  destruct (_ && _).
  { intros [= <- <-]. split; [exact S1|].
    intros n [= <-]. split; [reflexivity | exact P1]. }
  destruct (int64_div (pos d1) (bytesPerFrame d1)) as [f|]; cbn [obind];
    [|discriminate].
  destruct (0 <? f).
  - destruct (seekToFrame d1 (f - 1) 2) as [[[e|] d2]|] eqn:E; cbn [obind];
      [| |discriminate];
      destruct (seekToFrame_keeps _ _ _ _ _ E) as [S2 P2].
    + intros [= <- <-]. split; [exact (same_stream_trans _ _ _ S1 S2)|].
      intros n Hn. discriminate Hn.
    + destruct (int64_rem _ _) as [rem|]; cbn [obind]; [|discriminate].
      destruct (slice_from _ _) as [b|]; cbn [obind]; [|discriminate].
      intros [= <- <-]. split; [exact (same_stream_trans _ _ _ S1 S2)|].
      intros n [= <-]. split; [reflexivity|]. cbn [pos set_buf]. congruence.
  - destruct (seekToFrame d1 f 1) as [[[e|] d2]|] eqn:E; cbn [obind];
      [| |discriminate];
      destruct (seekToFrame_keeps _ _ _ _ _ E) as [S2 P2].
    + intros [= <- <-]. split; [exact (same_stream_trans _ _ _ S1 S2)|].
      intros n Hn. discriminate Hn.
    + destruct (slice_from _ _) as [b|]; cbn [obind]; [|discriminate].
      intros [= <- <-]. split; [exact (same_stream_trans _ _ _ S1 S2)|].
      intros n [= <-]. split; [reflexivity|]. cbn [pos set_buf]. congruence.
Qed.

Lemma whence_cases (whence : Z) :
  whence = SeekStart \/ whence = SeekCurrent \/ whence = SeekEnd \/
  ((whence =? SeekStart) = false /\ (whence =? SeekCurrent) = false /\
   (whence =? SeekEnd) = false).
Proof.
  destruct (Z.eqb_spec whence SeekStart); [auto|].
  destruct (Z.eqb_spec whence SeekCurrent); [auto|].
  destruct (Z.eqb_spec whence SeekEnd); [auto|].
  right. right. right. repeat split.
Qed.

(** X18: whatever [Seek] returns, the decoder's sample rate, length,
    frame offsets and bytes per frame are as before.  A call that
    returns a position - other than the query [Seek(0, io.SeekCurrent)] -
    returns the position asked for ([offset], [pos + offset] or
    [Length() + offset]) as it is, and leaves the decoder at that
    position, or at 0 when it is negative.  A call with a [whence]
    other than the three returns the invalid-whence error and leaves
    the decoder untouched. *)
Theorem Seek_reports_the_target_and_keeps_the_stream
  (d d' : Decoder) (offset whence : Z) (r : result error Z) :
  Seek d offset whence = Ret (r, d') ->
  same_stream d d' /\
  (forall n, r = Ok n -> ~ (offset = 0 /\ whence = SeekCurrent) ->
             n = target d offset whence /\ pos d' = Z.max 0 n) /\
  (whence <> SeekStart -> whence <> SeekCurrent -> whence <> SeekEnd ->
   r = Err InvalidWhence /\ d' = d).
Proof.
  unfold mp3.Seek, target.
  destruct (whence_cases whence) as [-> | [-> | [-> | (E0 & E1 & E2)]]].
  - rewrite andb_false_r. change (SeekStart =? SeekStart) with true.
    cbv iota. intros H. apply Seek_to_position in H. destruct H as [S H].
    split; [exact S|]. split; [|intros H0; contradiction].
    intros n Hn _. exact (H n Hn).
  - change (SeekCurrent =? SeekCurrent) with true.
    change (SeekCurrent =? SeekStart) with false. rewrite andb_true_r.
    destruct (Z.eqb_spec offset 0) as [Ho|Ho].
    + intros [= <- <-]. split; [apply same_stream_refl|].
      split; [|intros _ H1; contradiction].
      intros n _ Hn. exfalso. apply Hn. auto.
    + cbv iota. intros H. apply Seek_to_position in H. destruct H as [S H].
      split; [exact S|]. split; [|intros _ H1; contradiction].
      intros n Hn _. exact (H n Hn).
  - rewrite andb_false_r. change (SeekEnd =? SeekStart) with false.
    change (SeekEnd =? SeekCurrent) with false.
    change (SeekEnd =? SeekEnd) with true.
    cbv iota. intros H. apply Seek_to_position in H. destruct H as [S H].
    split; [exact S|]. split; [|intros _ _ H2; contradiction].
    intros n Hn _. exact (H n Hn).
  - rewrite E0, E1, E2, andb_false_r.
    intros [= <- <-]. split; [apply same_stream_refl|].
    split; [intros n Hn; discriminate Hn | auto].
Qed.

(** X19: on a decoder that knows its length, a [Seek] to the end or
    beyond does not touch the source: it drops the buffer and the
    frame, moves the position to the target and returns it. *)
Theorem Seek_at_or_past_the_end_reads_nothing (d : Decoder) (p : Z) :
  length d <> invalidLength -> 0 <= p -> length d <= p ->
  Seek d p SeekStart =
    Ret (Ok p,
         {| source := source d; sampleRate := sampleRate d;
            length := length d; frameStarts := frameStarts d; buf := [];
            frame := None; pos := p; bytesPerFrame := bytesPerFrame d |}).
Proof.
  intros Hl Hp Hend. unfold mp3.Seek.
  rewrite andb_false_r. change (SeekStart =? SeekStart) with true.
  cbv iota zeta. cbn [pos set_frame set_buf set_pos].
  destruct (Z.ltb_spec p 0); [lia|].
  cbn [length pos set_frame set_buf set_pos].
  destruct (Z.eqb_spec (length d) invalidLength); [contradiction|].
  destruct (Z.leb_spec (length d) p); [reflexivity | lia].
Qed.

(** X20: a [Seek] to a negative position leaves the decoder as
    [Seek(0, io.SeekStart)] leaves it - same frames decoded, same
    buffer, position 0 - and fails where that one fails; only the
    number returned differs: it is the negative position asked for. *)
Theorem Seek_to_a_negative_position_is_Seek_to_0 (d : Decoder) (p : Z) :
  p < 0 ->
  Seek d p SeekStart =
    match Seek d 0 SeekStart with
    | Ret (Ok _, d') => Ret (Ok p, d')
    | other => other
    end.
Proof.
  intros Hp. unfold mp3.Seek.
  rewrite !andb_false_r. change (SeekStart =? SeekStart) with true.
  cbv iota zeta. cbn [pos set_frame set_buf set_pos].
  destruct (Z.ltb_spec p 0); [|lia]. change (0 <? 0) with false. cbv iota.
  set (d0 := set_pos (set_frame (set_buf (set_pos d p) []) None) 0).
  replace (set_frame (set_buf (set_pos d 0) []) None) with d0 by reflexivity.
  destruct (_ && _); [reflexivity|].
  destruct (int64_div (pos d0) (bytesPerFrame d0)) as [f|]; cbn [obind];
    [|reflexivity].
  destruct (0 <? f).
  - destruct (seekToFrame d0 (f - 1) 2) as [[[e|] d2]|]; cbn [obind];
      [reflexivity| |reflexivity].
    destruct (int64_rem _ _) as [rem|]; cbn [obind]; [|reflexivity].
    destruct (slice_from _ _) as [b|]; cbn [obind]; reflexivity.
  - destruct (seekToFrame d0 f 1) as [[[e|] d2]|]; cbn [obind];
      [reflexivity| |reflexivity].
    destruct (slice_from _ _) as [b|]; cbn [obind]; reflexivity.
Qed.

(** *** [Read] *)

#[local] Abbreviation fillBuf :=
  (fillBuf (SeekError := SeekError) frame_Read frame_Decode is_EOF).
#[local] Abbreviation Read :=
  (Read (SeekError := SeekError) frame_Read frame_Decode is_EOF).

Lemma readFrame_appends (d d' : Decoder) :
  readFrame d = Ret (None, d') -> exists pcm, buf d' = buf d ++ pcm.
Proof.
  unfold mp3.readFrame.
  destruct (frame_Read (source d) (frame d)) as [[f err] s].
  destruct err as [e1|]; [discriminate|].
  destruct f as [fr|]; [|discriminate].
  intros [= <-]. cbn [buf set_buf]. eauto.
Qed.

Lemma readFrame_error_keeps_buf (d d' : Decoder) (e : error) :
  readFrame d = Ret (Some e, d') -> buf d' = buf d.
Proof.
  unfold mp3.readFrame.
  destruct (frame_Read (source d) (frame d)) as [[f err] s].
  destruct err as [e1|].
  - intros [= _ <-]. reflexivity.
  - destruct f as [fr|]; discriminate.
Qed.

Lemma fillBuf_result (fuel : nat) (d d' : Decoder) (e : option error) :
  fillBuf fuel d = Ret (Some (e, d')) ->
  same_stream d d' /\ pos d' = pos d /\
  (exists pcm, buf d' = buf d ++ pcm) /\
  (buf d <> [] -> d' = d /\ e = None) /\
  match e with
  | None => buf d' <> []
  | Some _ => buf d' = []
  end.
Proof.
  revert d. induction fuel as [|fuel IH]; intros d; cbn [decoder.fillBuf].
  - destruct (buf d) as [|x b] eqn:Eb; [discriminate|].
    intros [= <- <-]. split; [apply same_stream_refl|].
    split; [reflexivity|]. split; [exists []; now rewrite app_nil_r|].
    split; [auto|]. rewrite Eb. discriminate.
  - destruct (buf d) as [|x b] eqn:Eb.
    + destruct (readFrame d) as [[[e1|] d1]|] eqn:E; cbn [obind];
        [| |discriminate].
      * intros [= <- <-]. destruct (readFrame_keeps _ _ _ E) as [S P].
        split; [exact S|]. split; [exact P|].
        rewrite (readFrame_error_keeps_buf _ _ _ E), Eb.
        split; [exists []; reflexivity|]. split; [intros H; contradiction|].
        reflexivity.
      * intros H. destruct (IH _ H) as (S2 & P2 & (pcm2 & B2) & _ & He).
        destruct (readFrame_keeps _ _ _ E) as [S1 P1].
        destruct (readFrame_appends _ _ E) as (pcm1 & B1).
        split; [exact (same_stream_trans _ _ _ S1 S2)|].
        split; [congruence|].
        split; [exists (pcm1 ++ pcm2); rewrite B2, B1, Eb; reflexivity|].
        split; [intros H0; contradiction | exact He].
    + intros [= <- <-]. split; [apply same_stream_refl|].
      split; [reflexivity|]. split; [exists []; now rewrite app_nil_r|].
      split; [auto|]. rewrite Eb. discriminate.
Qed.

(** X21: a [Read] into a buffer of [n] bytes that returns bytes returns
    at most [n] of them, and at least one when [n] is not 0; it
    advances the position by their number; the bytes returned, followed
    by the bytes it keeps buffered, are what was buffered before
    followed by what was decoded meanwhile; and with bytes buffered
    before the call nothing is decoded: source and frame are untouched.
    A [Read] that returns an error found the buffer empty and leaves it
    empty and the position where it was.  In every case the decoder's
    sample rate, length, frame offsets and bytes per frame are as
    before. *)
Theorem Read_serves_the_buffer_in_order
  (fuel : nat) (d d' : Decoder) (n : nat) (r : result error (list byte)) :
  Read fuel d n = Ret (Some (r, d')) ->
  same_stream d d' /\
  match r with
  | Ok got =>
      (List.length got <= n)%nat /\ (n <> 0%nat -> got <> []) /\
      pos d' = int64_add (pos d) (Z.of_nat (List.length got)) /\
      (exists pcm, got ++ buf d' = buf d ++ pcm) /\
      (buf d <> [] ->
       got = firstn n (buf d) /\ source d' = source d /\ frame d' = frame d)
  | Err _ => buf d = [] /\ buf d' = [] /\ pos d' = pos d
  end.
Proof.
  unfold decoder.Read.
  destruct (fillBuf fuel d) as [[[[e|] d1]|]|] eqn:E; cbn [obind];
    try discriminate.
  - intros [= <- <-].
    destruct (fillBuf_result _ _ _ _ E) as (S & P & (pcm & B) & Hne & He).
    split; [exact S|]. split; [|split; assumption].
    destruct (buf d) as [|x b]; [reflexivity|].
    destruct Hne as [_ Hn]; discriminate.
  - intros [= <- <-].
    destruct (fillBuf_result _ _ _ _ E) as (S & P & (pcm & B) & Hne & He).
    split; [exact S|].
    cbn [pos buf source frame set_pos set_buf].
    split; [rewrite length_firstn; lia|].
    split.
    { intros Hn. destruct (buf d1) as [|x b]; [contradiction|].
      destruct n; [contradiction | discriminate]. }
    split; [congruence|].
    split.
    { exists pcm. rewrite <- B.
      rewrite length_firstn, <- length_firstn.
      replace (skipn (List.length (firstn n (buf d1))) (buf d1))
        with (skipn n (buf d1)).
      - apply firstn_skipn.
      - rewrite length_firstn.
        destruct (Nat.le_gt_cases n (List.length (buf d1))).
        + now rewrite Nat.min_l.
        + rewrite Nat.min_r by lia.
          rewrite !skipn_all2 by lia. reflexivity. }
    intros Hb. destruct (Hne Hb) as [-> _]. auto.
Qed.

(** X22: when every frame decodes to at least one byte, [Read] comes to
    its end after at most one frame: one iteration of its loop is
    enough, and more change nothing. *)
Theorem Read_decodes_at_most_one_frame (fuel : nat) (d : Decoder) (n : nat) :
  (forall fr, frame_Decode fr <> []) ->
  Read 1 d n <> Ret None /\ Read (S fuel) d n = Read 1 d n.
Proof.
  intros Hdec.
  assert (H1 : forall k, fillBuf (S k) d = fillBuf 1 d /\
                         fillBuf 1 d <> Ret None).
  { intros k. cbn [decoder.fillBuf].
    destruct (buf d) as [|x b] eqn:Eb; [|split; [reflexivity | discriminate]].
    unfold mp3.readFrame.
    destruct (frame_Read (source d) (frame d)) as [[f err] s].
    destruct err as [e1|]; cbn [obind];
      [split; [reflexivity | discriminate]|].
    destruct f as [fr|]; cbn [obind]; [|split; [reflexivity | discriminate]].
    assert (Hb : exists y c, buf (set_buf (set_frame (set_source d s) (Some fr))
                              (buf (set_frame (set_source d s) (Some fr))
                               ++ frame_Decode fr)) = y :: c).
    { cbn [buf set_buf set_frame set_source]. rewrite Eb. cbn [app].
      destruct (frame_Decode fr) as [|y c] eqn:Ed; [|eauto].
      exfalso. exact (Hdec fr Ed). }
    destruct Hb as (y & c & Hb).
    destruct k; cbn [decoder.fillBuf]; rewrite Hb;
      split; solve [reflexivity | discriminate]. }
  destruct (H1 fuel) as [Hk Hn]. unfold decoder.Read. rewrite Hk.
  split; [|reflexivity].
  destruct (fillBuf 1 d) as [[[[e|] d1]|]|]; cbn [obind];
    solve [discriminate | contradiction].
Qed.

(** *** Positions, samples and durations *)

#[local] Abbreviation seekBytes :=
  (seekBytes source_Seek frame_Read frame_Decode is_EOF).
#[local] Abbreviation SeekToSample :=
  (SeekToSample source_Seek frame_Read frame_Decode is_EOF).
#[local] Abbreviation SeekToTime :=
  (SeekToTime source_Seek frame_Read frame_Decode is_EOF).

Lemma int64_div_nonneg (x y : Z) :
  0 <= x < 2 ^ 63 -> 0 < y -> int64_div x y = Ret (x / y).
Proof.
  intros Hx Hy. unfold int64_div.
  destruct (Z.eqb_spec y 0); [lia|].
  rewrite Z.quot_div_nonneg by lia.
  assert (0 <= x / y <= x).
  { split; [apply Z.div_pos; lia|].
    apply Z.div_le_upper_bound; [lia|]. nia. }
  rewrite wrap_int_small by lia. reflexivity.
Qed.

Lemma int_mul_small (x y : Z) :
  - 2 ^ 63 <= x * y < 2 ^ 63 -> int_mul x y = x * y.
Proof. intros H. unfold int_mul. apply wrap_int_small. exact H. Qed.

Lemma bytesToDuration_value (d : Decoder) (bytes : Z) :
  0 < sampleRate d < 2 ^ 61 -> 0 <= bytes -> Second * bytes < 2 ^ 63 ->
  bytesToDuration d bytes = Ret (Second * bytes / (4 * sampleRate d)).
Proof.
  intros Hsr Hb Hov. unfold bytesToDuration.
  rewrite (int_mul_small Second bytes) by (unfold Second in *; lia).
  rewrite (int_mul_small (sampleRate d) 4) by lia.
  rewrite int64_div_nonneg by (unfold Second in *; lia).
  rewrite (Z.mul_comm (sampleRate d) 4). reflexivity.
Qed.

Lemma durationToBytes_value (d : Decoder) (dur : Z) :
  0 < sampleRate d < 2 ^ 61 -> 0 <= dur ->
  dur * (4 * sampleRate d) < 2 ^ 63 ->
  durationToBytes d dur = Ret (dur * (4 * sampleRate d) / Second).
Proof.
  intros Hsr Hd Hov. unfold durationToBytes.
  rewrite (int_mul_small (sampleRate d) 4) by lia.
  rewrite (Z.mul_comm (sampleRate d) 4).
  rewrite int_mul_small by nia.
  rewrite int64_div_nonneg by (unfold Second; nia). reflexivity.
Qed.

Lemma duration_of_bytes_bounds (sr4 bytes : Z) :
  0 < sr4 -> 0 <= bytes ->
  let dur := Second * bytes / sr4 in
  0 <= dur /\ dur * sr4 <= Second * bytes /\
  Second * bytes - sr4 < dur * sr4.
Proof.
  intros Hs Hb dur.
  pose proof (Z.div_mod (Second * bytes) sr4 ltac:(lia)) as Hdm.
  pose proof (Z.mod_pos_bound (Second * bytes) sr4 ltac:(lia)) as Hm.
  fold dur in Hdm.
  assert (0 <= dur) by (apply Z.div_pos; unfold Second; lia).
  split; [assumption|]. split; lia.
Qed.

(** X23: a byte position turned into a duration and back loses at most
    one byte and gains none: for a sample rate of at most 250 MHz and a
    position whose nanoseconds fit an [int64],
    [durationToBytes(bytesToDuration(bytes))] is [bytes] or
    [bytes - 1]. *)
Theorem duration_round_trip_loses_at_most_one_byte (d : Decoder) (bytes : Z) :
  0 < sampleRate d -> 4 * sampleRate d <= Second ->
  0 <= bytes -> Second * bytes < 2 ^ 63 ->
  exists dur back,
    bytesToDuration d bytes = Ret dur /\ 0 <= dur /\
    durationToBytes d dur = Ret back /\ bytes - 1 <= back <= bytes.
Proof.
  intros Hsr Hsmall Hb Hov.
  assert (Hsr' : 0 < sampleRate d < 2 ^ 61) by (unfold Second in *; lia).
  destruct (duration_of_bytes_bounds (4 * sampleRate d) bytes
              ltac:(lia) Hb) as (Hd0 & Hle & Hgt).
  set (dur := Second * bytes / (4 * sampleRate d)) in *.
  exists dur, (dur * (4 * sampleRate d) / Second).
  split; [apply bytesToDuration_value; assumption|].
  split; [exact Hd0|].
  split; [apply durationToBytes_value; [assumption | assumption | lia]|].
  split.
  - apply Z.div_le_lower_bound; [unfold Second; lia|]. lia.
  - apply Z.div_le_upper_bound; [unfold Second; lia|]. lia.
Qed.

Lemma clear_low_bits (x : Z) : Z.land x (Z.lnot 3) = 4 * (x / 4).
Proof.
  rewrite <- Z.ldiff_land. change 3 with (Z.ones 2).
  rewrite Z.ldiff_ones_r by lia.
  rewrite Z.shiftl_mul_pow2, Z.shiftr_div_pow2 by lia.
  change (2 ^ 2) with 4. lia.
Qed.

(** X24: on a decoder that knows its length, [SeekToTime(t)] is a
    [Seek] from the start to a byte position that is a multiple of 4
    and lies between 0 and the length: a [t] below 0 goes to 0, and no
    [t] goes beyond the end. *)
Theorem SeekToTime_seeks_to_a_sample_inside_the_stream (d : Decoder) (t : Z) :
  0 <= length d -> Second * length d < 2 ^ 63 ->
  0 < sampleRate d < 2 ^ 61 ->
  exists bytes,
    SeekToTime d t = seekBytes d bytes /\
    0 <= bytes <= length d /\ bytes mod 4 = 0 /\
    (t <= 0 -> bytes = 0).
Proof.
  intros Hl Hov Hsr. unfold decoder.SeekToTime, decoder.Duration.
  destruct (Z.eqb_spec (length d) invalidLength) as [E|_];
    [unfold invalidLength in E; lia|].
  rewrite bytesToDuration_value by assumption. cbn [obind].
  destruct (duration_of_bytes_bounds (4 * sampleRate d) (length d)
              ltac:(lia) Hl) as (Hd0 & Hle & _).
  set (maxDur := Second * length d / (4 * sampleRate d)) in *.
  set (t0 := if t <? 0 then 0 else t).
  set (t1 := if maxDur <? t0 then maxDur else t0).
  assert (Ht1 : 0 <= t1 <= maxDur /\ (t <= 0 -> t1 = 0)).
  { subst t1 t0. destruct (Z.ltb_spec t 0);
      match goal with |- context [if ?a <? ?b then _ else _] =>
        destruct (Z.ltb_spec a b) end; lia. }
  destruct Ht1 as [Ht1 Ht0].
  rewrite durationToBytes_value by (try assumption; nia). cbn [obind].
  rewrite clear_low_bits.
  set (b := t1 * (4 * sampleRate d) / Second).
  assert (Hb : 0 <= b <= length d).
  { subst b. split.
    - apply Z.div_pos; [nia | unfold Second; lia].
    - apply Z.div_le_upper_bound; [unfold Second; lia|]. nia. }
  exists (4 * (b / 4)). split; [reflexivity|].
  pose proof (Z.div_mod b 4 ltac:(lia)).
  pose proof (Z.mod_pos_bound b 4 ltac:(lia)).
  split; [lia|]. split.
  - rewrite Z.mul_comm. apply Z.mod_mul. lia.
  - intros Hneg. subst b. rewrite (Ht0 Hneg). reflexivity.
Qed.

(** X25: on a decoder that knows its length, [SeekToSample(sample)] is
    a [Seek] from the start to byte [4 * s], where [s] is [sample]
    brought into the range from 0 to the sample count [length / 4]. *)
Theorem SeekToSample_clamps_to_the_sample_count (d : Decoder) (sample : Z) :
  0 <= length d < 2 ^ 63 ->
  SeekToSample d sample =
    seekBytes d (4 * Z.min (Z.max 0 sample) (length d / 4)).
Proof.
  intros Hl. unfold decoder.SeekToSample, decoder.SampleCount.
  destruct (Z.eqb_spec (length d) invalidLength) as [E|_];
    [unfold invalidLength in E; lia|].
  rewrite Z.quot_div_nonneg by lia.
  pose proof (Z.div_mod (length d) 4 ltac:(lia)).
  pose proof (Z.mod_pos_bound (length d) 4 ltac:(lia)).
  set (s0 := if sample <? 0 then 0 else sample).
  set (s1 := if length d / 4 <? s0 then length d / 4 else s0).
  assert (Hs : s1 = Z.min (Z.max 0 sample) (length d / 4)).
  { subst s1 s0. destruct (Z.ltb_spec sample 0);
      match goal with |- context [if ?a <? ?b then _ else _] =>
        destruct (Z.ltb_spec a b) end; lia. }
  rewrite Hs. rewrite int_mul_small by lia.
  rewrite Z.mul_comm. reflexivity.
Qed.

End Decoder.

Lemma Seek_reports_the_target_and_keeps_the_stream_witness :
  let d' :=
    {| source := 417; sampleRate := 44100; length := 24;
       frameStarts := [0; 417; 834]; buf := repeat x00 8;
       frame := Some 0; pos := 0; bytesPerFrame := 8 |} in
  same_stream fixtures.toy_decoder d' /\
  (forall n, Ok (E := error (SeekError := unit) (FrameError := unit)) (-5)
               = Ok n ->
             ~ (-5 = 0 /\ SeekStart = SeekCurrent) ->
             n = -5 /\ pos d' = Z.max 0 n) /\
  (SeekStart <> SeekStart -> SeekStart <> SeekCurrent -> SeekStart <> SeekEnd ->
   Ok (E := error (SeekError := unit) (FrameError := unit)) (-5)
     = Err InvalidWhence /\ d' = fixtures.toy_decoder).
Proof.
  intros d'.
  apply (Seek_reports_the_target_and_keeps_the_stream
           fixtures.toy_Seek fixtures.toy_Read fixtures.toy_Decode
           (fun _ => true) fixtures.toy_decoder d' (-5) SeekStart (Ok (-5))).
  vm_compute. reflexivity.
Defined.

Lemma Seek_at_or_past_the_end_reads_nothing_witness :
  mp3.Seek fixtures.toy_Seek fixtures.toy_Read fixtures.toy_Decode
    (fun _ => true) fixtures.toy_decoder 24 SeekStart =
    Ret (Ok 24,
         {| source := 417; sampleRate := 44100; length := 24;
            frameStarts := [0; 417; 834]; buf := [];
            frame := None; pos := 24; bytesPerFrame := 8 |}).
Proof.
  apply (Seek_at_or_past_the_end_reads_nothing
           fixtures.toy_Seek fixtures.toy_Read fixtures.toy_Decode
           (fun _ => true) fixtures.toy_decoder 24).
  - cbn. discriminate.
  - lia.
  - cbn. lia.
Defined.

Lemma Seek_to_a_negative_position_is_Seek_to_0_witness :
  mp3.Seek fixtures.toy_Seek fixtures.toy_Read fixtures.toy_Decode
    (fun _ => true) fixtures.toy_decoder (-5) SeekStart =
    Ret (Ok (-5),
         {| source := 417; sampleRate := 44100; length := 24;
            frameStarts := [0; 417; 834]; buf := repeat x00 8;
            frame := Some 0; pos := 0; bytesPerFrame := 8 |}).
Proof.
  rewrite (Seek_to_a_negative_position_is_Seek_to_0
             fixtures.toy_Seek fixtures.toy_Read fixtures.toy_Decode
             (fun _ => true) fixtures.toy_decoder (-5)) by lia.
  vm_compute. reflexivity.
Defined.

Lemma Read_serves_the_buffer_in_order_witness :
  let d' :=
    {| source := 417; sampleRate := 44100; length := 24;
       frameStarts := [0; 417; 834]; buf := [];
       frame := Some 0; pos := 8; bytesPerFrame := 8 |} in
  same_stream fixtures.toy_decoder d' /\
  (List.length [x00; x00] <= 5)%nat /\
  (5%nat <> 0%nat -> [x00; x00] <> []) /\
  pos d' = int64_add 6 2 /\
  (exists pcm, [x00; x00] ++ buf d' = [x00; x00] ++ pcm) /\
  ([x00; x00] <> [] ->
   [x00; x00] = firstn 5 [x00; x00] /\ source d' = 417 /\
   frame d' = Some 0).
Proof.
  intros d'.
  apply (Read_serves_the_buffer_in_order (SeekError := unit)
           fixtures.toy_Read fixtures.toy_Decode (fun _ => true)
           1 fixtures.toy_decoder d' 5 (Ok [x00; x00])).
  vm_compute. reflexivity.
Defined.

Lemma Read_decodes_at_most_one_frame_witness :
  decoder.Read (SeekError := unit) fixtures.toy_Read fixtures.toy_Decode
    (fun _ => true) 1 fixtures.toy_decoder 5 <> Ret None /\
  decoder.Read (SeekError := unit) fixtures.toy_Read fixtures.toy_Decode
    (fun _ => true) 4 fixtures.toy_decoder 5 =
  decoder.Read (SeekError := unit) fixtures.toy_Read fixtures.toy_Decode
    (fun _ => true) 1 fixtures.toy_decoder 5.
Proof.
  apply (Read_decodes_at_most_one_frame (SeekError := unit)
           fixtures.toy_Read fixtures.toy_Decode (fun _ => true)
           3 fixtures.toy_decoder 5).
  intros fr. unfold fixtures.toy_Decode. cbn. discriminate.
Defined.

Lemma duration_round_trip_loses_at_most_one_byte_witness :
  exists dur back,
    bytesToDuration fixtures.toy_decoder 4 = Ret dur /\ 0 <= dur /\
    durationToBytes fixtures.toy_decoder dur = Ret back /\
    4 - 1 <= back <= 4.
Proof.
  apply (duration_round_trip_loses_at_most_one_byte fixtures.toy_decoder 4);
    cbn; unfold Second; lia.
Defined.

Lemma SeekToTime_seeks_to_a_sample_inside_the_stream_witness :
  exists bytes,
    decoder.SeekToTime fixtures.toy_Seek fixtures.toy_Read
      fixtures.toy_Decode (fun _ => true) fixtures.toy_decoder 50000 =
    decoder.seekBytes fixtures.toy_Seek fixtures.toy_Read
      fixtures.toy_Decode (fun _ => true) fixtures.toy_decoder bytes /\
    0 <= bytes <= 24 /\ bytes mod 4 = 0 /\ (50000 <= 0 -> bytes = 0).
Proof.
  apply (SeekToTime_seeks_to_a_sample_inside_the_stream
           fixtures.toy_Seek fixtures.toy_Read fixtures.toy_Decode
           (fun _ => true) fixtures.toy_decoder 50000);
    cbn; unfold Second; lia.
Defined.

Lemma SeekToSample_clamps_to_the_sample_count_witness :
  decoder.SeekToSample fixtures.toy_Seek fixtures.toy_Read
    fixtures.toy_Decode (fun _ => true) fixtures.toy_decoder 100 =
  decoder.seekBytes fixtures.toy_Seek fixtures.toy_Read
    fixtures.toy_Decode (fun _ => true) fixtures.toy_decoder
    (4 * Z.min (Z.max 0 100) (24 / 4)).
Proof.
  apply (SeekToSample_clamps_to_the_sample_count
           fixtures.toy_Seek fixtures.toy_Read fixtures.toy_Decode
           (fun _ => true) fixtures.toy_decoder 100).
  cbn. lia.
Defined.

End decoderMore.
(** ** Package lameinfo, properties *)

Module lameinfoFacts.
Import lameinfo lameinfoSpec.

(** *** Bytes, slices and big-endian words *)

Lemma slice_len_nonneg (s : list byte) : 0 <= len s.
Proof. unfold len. lia. Qed.

Lemma len_app (a b : list byte) : len (a ++ b) = len a + len b.
Proof. unfold len. rewrite length_app. lia. Qed.

Lemma len_repeat (x : byte) (n : nat) : len (repeat x n) = Z.of_nat n.
Proof. unfold len. now rewrite repeat_length. Qed.

Lemma slice_ok (s : list byte) (lo hi : Z) :
  0 <= lo <= hi -> hi <= len s ->
  exists b, slice s lo hi = Ret b /\ len b = hi - lo.
Proof.
  intros H1 H2. unfold slice.
  destruct (Z.ltb_spec lo 0); [lia|].
  destruct (Z.ltb_spec hi lo); [lia|].
  destruct (Z.ltb_spec (len s) hi); [lia|]. cbn [orb].
  eexists. split; [reflexivity|].
  unfold len in *. rewrite length_firstn, length_skipn. lia.
Qed.

Lemma slice_app_at (pre seg post : list byte) (lo hi : Z) :
  lo = len pre -> hi = len pre + len seg ->
  slice (pre ++ seg ++ post) lo hi = Ret seg.
Proof.
  intros -> ->. unfold slice. rewrite !len_app.
  pose proof (slice_len_nonneg pre). pose proof (slice_len_nonneg seg).
  pose proof (slice_len_nonneg post).
  destruct (Z.ltb_spec (len pre) 0); [lia|].
  destruct (Z.ltb_spec (len pre + len seg) (len pre)); [lia|].
  destruct (Z.ltb_spec (len pre + (len seg + len post)) (len pre + len seg));
    [lia|].
  cbn [orb]. f_equal.
  replace (Z.to_nat (len pre)) with (length pre) by (unfold len; lia).
  replace (Z.to_nat (len pre + len seg - len pre)) with (length seg)
    by (unfold len; lia).
  rewrite skipn_app, skipn_all, Nat.sub_diag. cbn [skipn app].
  rewrite firstn_app, firstn_all, Nat.sub_diag. cbn [firstn].
  apply app_nil_r.
Qed.

Lemma index_app_at (pre post : list byte) (x : byte) (i : Z) :
  i = len pre -> index (pre ++ x :: post) i = Ret x.
Proof.
  intros ->. unfold index. rewrite len_app.
  pose proof (slice_len_nonneg pre). pose proof (slice_len_nonneg (x :: post)).
  assert (0 < len (x :: post)) by (unfold len; cbn [length]; lia).
  destruct (Z.ltb_spec (len pre) 0); [lia|].
  destruct (Z.leb_spec (len pre + len (x :: post)) (len pre)); [lia|].
  cbn [orb]. f_equal.
  replace (Z.to_nat (len pre)) with (length pre) by (unfold len; lia).
  rewrite app_nth2 by lia. now rewrite Nat.sub_diag.
Qed.

Lemma index_ok (s : list byte) (i : Z) :
  0 <= i < len s -> exists x, index s i = Ret x.
Proof.
  intros Hi. unfold index.
  destruct (Z.ltb_spec i 0); [lia|].
  destruct (Z.leb_spec (len s) i); [lia|]. cbn [orb]. eauto.
Qed.

Lemma byte_val_below_256 (x : byte) : 0 <= byte_val x < 256.
Proof.
  unfold byte_val, Bits.byte_val. pose proof (Byte.to_N_bounded x). lia.
Qed.

Lemma byte_val_byte_of (x : Z) : byte_val (byte_of x) = x mod 256.
Proof.
  unfold byte_of, byte_val, Bits.byte_val.
  pose proof (Z.mod_pos_bound x 256 ltac:(lia)) as Hm.
  destruct (Byte.of_N (Z.to_N (x mod 256))) as [b|] eqn:E.
  - apply Byte.to_of_N in E. rewrite E. lia.
  - apply Byte.of_N_None_iff in E. lia.
Qed.

Lemma testbit_mod_256 (x n : Z) :
  0 <= n -> Z.testbit (x mod 256) n = (n <? 8) && Z.testbit x n.
Proof.
  intros Hn. change 256 with (2 ^ 8).
  destruct (Z.ltb_spec n 8).
  - rewrite Z.mod_pow2_bits_low by lia. reflexivity.
  - rewrite Z.mod_pow2_bits_high by lia. reflexivity.
Qed.

Lemma Uint32_be_bytes (v : Z) :
  0 <= v < 2 ^ 32 -> Uint32 (be_bytes v) = Ret v.
Proof.
  intros Hv. unfold be_bytes, Uint32. rewrite !byte_val_byte_of. f_equal.
  apply Z.bits_inj'. intros n Hn.
  rewrite !Z.lor_spec.
  rewrite !Z.shiftl_spec by lia.
  rewrite testbit_mod_256 by lia.
  destruct (Z.ltb_spec n 8).
  { rewrite (Z.testbit_neg_r _ (n - 8)), (Z.testbit_neg_r _ (n - 16)),
      (Z.testbit_neg_r _ (n - 24)) by lia.
    cbn [andb]. now rewrite !orb_false_r. }
  cbn [andb orb].
  destruct (Z.ltb_spec n 16).
  { rewrite testbit_mod_256 by lia. rewrite Z.shiftr_spec by lia.
    rewrite (Z.testbit_neg_r _ (n - 16)), (Z.testbit_neg_r _ (n - 24)) by lia.
    destruct (Z.ltb_spec (n - 8) 8); [|lia]. cbn [andb].
    rewrite !orb_false_r. f_equal. lia. }
  rewrite testbit_mod_256 by lia.
  destruct (Z.ltb_spec (n - 8) 8); [lia|]. cbn [andb orb].
  destruct (Z.ltb_spec n 24).
  { rewrite testbit_mod_256 by lia. rewrite Z.shiftr_spec by lia.
    rewrite (Z.testbit_neg_r _ (n - 24)) by lia.
    destruct (Z.ltb_spec (n - 16) 8); [|lia]. cbn [andb].
    rewrite orb_false_r. f_equal. lia. }
  rewrite testbit_mod_256 by lia.
  destruct (Z.ltb_spec (n - 16) 8); [lia|]. cbn [andb orb].
  rewrite testbit_mod_256 by lia. rewrite Z.shiftr_spec by lia.
  replace (n - 24 + 24) with n by lia.
  destruct (Z.ltb_spec (n - 24) 8); cbn [andb]; [reflexivity|].
  symmetry. apply Z.bits_above_log2; [lia|].
  destruct (Z.eq_dec v 0) as [-> | Hnz]; [cbn; lia|].
  assert (Z.log2 v < 32) by (apply Z.log2_lt_pow2; lia). lia.
Qed.

Lemma lor_bound (a b n : Z) :
  0 <= n -> 0 <= a < 2 ^ n -> 0 <= b < 2 ^ n -> 0 <= Z.lor a b < 2 ^ n.
Proof.
  intros Hn Ha Hb.
  assert (H0 : 0 <= Z.lor a b) by (apply Z.lor_nonneg; lia).
  split; [exact H0|].
  destruct (Z.eq_dec (Z.lor a b) 0) as [E|E];
    [rewrite E; apply Z.pow_pos_nonneg; lia|].
  apply Z.log2_lt_pow2; [lia|].
  rewrite Z.log2_lor by lia.
  destruct (Z.eq_dec a 0) as [-> | Hane], (Z.eq_dec b 0) as [-> | Hbne].
  - cbn in E. contradiction.
  - rewrite Z.max_r by (cbn; apply Z.log2_nonneg).
    apply Z.log2_lt_pow2; lia.
  - rewrite Z.max_l by (cbn; apply Z.log2_nonneg).
    apply Z.log2_lt_pow2; lia.
  - apply Z.max_lub_lt; apply Z.log2_lt_pow2; lia.
Qed.

Lemma shiftl_byte_bound (x k : Z) :
  0 <= k -> 0 <= x < 256 -> 0 <= Z.shiftl x k < 2 ^ (k + 8).
Proof.
  intros Hk Hx. rewrite Z.shiftl_mul_pow2 by lia.
  rewrite Z.pow_add_r by lia. change (2 ^ 8) with 256.
  assert (0 < 2 ^ k) by (apply Z.pow_pos_nonneg; lia). nia.
Qed.

Lemma Uint32_range (b : list byte) (v : Z) :
  Uint32 b = Ret v -> 0 <= v < 2 ^ 32.
Proof.
  unfold Uint32.
  destruct b as [|b0 [|b1 [|b2 [|b3 b]]]]; try discriminate.
  set (val := Z.lor _ _). intros Heq. injection Heq as Hv.
  rewrite <- Hv. subst val. clear Hv.
  pose proof (byte_val_below_256 b0). pose proof (byte_val_below_256 b1).
  pose proof (byte_val_below_256 b2). pose proof (byte_val_below_256 b3).
  pose proof (shiftl_byte_bound (byte_val b2) 8 ltac:(lia) ltac:(lia)).
  pose proof (shiftl_byte_bound (byte_val b1) 16 ltac:(lia) ltac:(lia)).
  pose proof (shiftl_byte_bound (byte_val b0) 24 ltac:(lia) ltac:(lia)).
  change (2 ^ (8 + 8)) with 65536 in *.
  change (2 ^ (16 + 8)) with 16777216 in *.
  change (2 ^ (24 + 8)) with (2 ^ 32) in *.
  repeat apply lor_bound; lia.
Qed.

Lemma Uint32_ok (b : list byte) :
  len b = 4 -> exists v, Uint32 b = Ret v.
Proof.
  unfold len. destruct b as [|b0 [|b1 [|b2 [|b3 b]]]]; cbn [length];
    try lia.
  intros _. unfold Uint32. eauto.
Qed.

(** *** The steps of [Parse] *)

Lemma int_add_small (x y : Z) :
  - 2 ^ 63 <= x + y < 2 ^ 63 -> int_add x y = x + y.
Proof. intros H. unfold int_add. apply wrap_int_small. exact H. Qed.

Lemma u32_at (frame : list byte) (pos : Z) :
  0 <= pos < 2 ^ 62 -> pos + 4 <= len frame ->
  exists v, (b <- slice frame pos (int_add pos 4) ;; Uint32 b)%go = Ret v /\
            0 <= v < 2 ^ 32.
Proof.
  intros Hp Hl. rewrite int_add_small by lia.
  destruct (slice_ok frame pos (pos + 4) ltac:(lia) Hl) as (b & -> & Hb).
  cbn [obind]. destruct (Uint32_ok b ltac:(lia)) as (v & E).
  exists v. split; [exact E | exact (Uint32_range _ _ E)].
Qed.

Lemma readUint32_cases (frame : list byte) (pos : Z) :
  0 <= pos < 2 ^ 62 ->
  readUint32 frame pos = Ret None \/
  exists v, readUint32 frame pos = Ret (Some (v, pos + 4)) /\
            0 <= v < 2 ^ 32 /\ pos + 4 <= len frame.
Proof.
  intros Hp. unfold readUint32.
  destruct (Z.ltb_spec (len frame) (int_add pos 4)) as [|Hl]; [now left|].
  right. rewrite (int_add_small pos 4) in Hl by lia.
  destruct (u32_at frame pos Hp Hl) as (v & -> & Hv). cbn [obind].
  rewrite int_add_small by lia. eauto.
Qed.

Lemma optional_uint32 (c : bool) (frame : list byte) (info : Info) (pos : Z)
  (set : Info -> Z -> Info) :
  0 <= pos < 2 ^ 62 ->
  let r :=
    if c
    then ebind (readUint32 frame pos) (fun '(v, pos) =>
           Ret (Some (set info v, pos)))
    else Ret (Some (info, pos)) in
  r = Ret None \/
  exists info' pos',
    r = Ret (Some (info', pos')) /\ pos <= pos' <= pos + 4 /\
    (if c then exists v, 0 <= v < 2 ^ 32 /\ info' = set info v
     else info' = info).
Proof.
  intros Hp r. subst r. destruct c.
  - destruct (readUint32_cases frame pos Hp) as [-> | (v & -> & Hv & Hl)];
      cbn [ebind]; [now left|].
    right. eexists _, _. split; [reflexivity|]. split; [lia | eauto].
  - right. eexists _, _. split; [reflexivity|]. split; [lia | reflexivity].
Qed.

Lemma optional_TOC (c : bool) (frame : list byte) (info : Info) (pos : Z) :
  0 <= pos < 2 ^ 62 ->
  let r :=
    if c
    then if len frame <? int_add pos 100 then Ret None
         else (toc <- slice frame pos (int_add pos 100) ;;
               Ret (Some (set_TOC info toc, int_add pos 100)))%go
    else Ret (Some (info, pos)) in
  r = Ret None \/
  exists info' pos',
    r = Ret (Some (info', pos')) /\ pos <= pos' <= pos + 100 /\
    (if c then exists toc, len toc = 100 /\ info' = set_TOC info toc
     else info' = info).
Proof.
  intros Hp r. subst r. destruct c.
  - rewrite int_add_small by lia.
    destruct (Z.ltb_spec (len frame) (pos + 100)) as [|Hl]; [now left|].
    destruct (slice_ok frame pos (pos + 100) ltac:(lia) Hl) as (b & -> & Hb).
    cbn [obind]. right. eexists _, _. split; [reflexivity|].
    split; [lia|]. exists b. split; [lia | reflexivity].
  - right. eexists _, _. split; [reflexivity|]. split; [lia | reflexivity].
Qed.

Lemma delay_range (b0 b1 : byte) :
  0 <= Z.lor (to_uint16 (Z.shiftl (byte_val b0) 4)) (Z.shiftr (byte_val b1) 4)
    < 4096.
Proof.
  pose proof (byte_val_below_256 b0). pose proof (byte_val_below_256 b1).
  change 4096 with (2 ^ 12). apply lor_bound; [lia| |].
  - unfold to_uint16. rewrite Z.shiftl_mul_pow2 by lia.
    change (2 ^ 4) with 16. rewrite Z.mod_small; change (2 ^ 16) with 65536;
      change (2 ^ 12) with 4096; lia.
  - rewrite Z.shiftr_div_pow2 by lia. change (2 ^ 4) with 16.
    change (2 ^ 12) with 4096.
    split; [apply Z.div_pos; lia|].
    apply Z.div_lt_upper_bound; lia.
Qed.

Lemma padding_range (b1 b2 : byte) :
  0 <= Z.lor (to_uint16 (Z.shiftl (Z.land (byte_val b1) 0x0F) 8)) (byte_val b2)
    < 4096.
Proof.
  pose proof (byte_val_below_256 b1). pose proof (byte_val_below_256 b2).
  assert (Hl : 0 <= Z.land (byte_val b1) 0x0F < 16).
  { change 0x0F with (Z.ones 4). rewrite Z.land_ones by lia.
    apply Z.mod_pos_bound. lia. }
  change 4096 with (2 ^ 12). apply lor_bound; [lia| |].
  - unfold to_uint16. rewrite Z.shiftl_mul_pow2 by lia.
    change (2 ^ 8) with 256. rewrite Z.mod_small; change (2 ^ 16) with 65536;
      change (2 ^ 12) with 4096; lia.
  - change (2 ^ 12) with 4096. lia.
Qed.

Lemma readLAME_cases (frame : list byte) (info : Info) (pos : Z) :
  0 <= pos < 2 ^ 62 ->
  exists info',
    readLAME frame info pos = Ret info' /\
    (info' = info \/
     exists version,
       len version = 9 /\ isLAMEVersion version = true /\
       (info' = set_LAMEVersion info version \/
        exists delay padding,
          0 <= delay < 4096 /\ 0 <= padding < 4096 /\
          info' = set_delay_padding (set_LAMEVersion info version)
                    delay padding)).
Proof.
  intros Hp. unfold readLAME.
  rewrite (int_add_small pos 9) by lia.
  rewrite (int_add_small (pos + 9) 12) by lia.
  rewrite (int_add_small (pos + 9 + 12) 3) by lia.
  rewrite (int_add_small (pos + 9 + 12) 1) by lia.
  rewrite (int_add_small (pos + 9 + 12) 2) by lia.
  destruct (Z.ltb_spec (len frame) (pos + 9)) as [|Hl]; cbn [negb];
    [eauto|].
  destruct (slice_ok frame pos (pos + 9) ltac:(lia) Hl) as (v & -> & Hv).
  cbn [obind].
  destruct (isLAMEVersion v) eqn:Ev; [|eauto].
  destruct (Z.ltb_spec (len frame) (pos + 9 + 12 + 3)) as [|Hd]; cbn [negb].
  { eexists. split; [reflexivity|]. right. exists v.
    split; [lia|]. split; [exact Ev | now left]. }
  destruct (index_ok frame (pos + 9 + 12) ltac:(lia)) as (b0 & ->).
  destruct (index_ok frame (pos + 9 + 12 + 1) ltac:(lia)) as (b1 & ->).
  destruct (index_ok frame (pos + 9 + 12 + 2) ltac:(lia)) as (b2 & ->).
  cbn [obind]. eexists. split; [reflexivity|]. right. exists v.
  split; [lia|]. split; [exact Ev|]. right.
  eexists _, _. split; [apply delay_range|].
  split; [apply padding_range | reflexivity].
Qed.

Lemma sideInfoSize_range (v : Z) (mono : bool) :
  9 <= sideInfoSize v mono <= 32.
Proof. unfold sideInfoSize. destruct (v =? 1), mono; lia. Qed.

Lemma Parse_cases (frame : list byte) :
  Parse frame = Ret None \/
  exists info, Parse frame = Ret (Some info) /\ well_formed info /\
               21 <= len frame.
Proof.
  unfold Parse.
  destruct (Z.ltb_spec (len frame) 4) as [|Hl4]; [now left|].
  destruct (u32_at frame 0 ltac:(lia) ltac:(lia)) as (header & E & Hh).
  change (int_add 0 4) with 4 in E. rewrite E. clear E.
  cbn [obind].
  destruct (negb _); [now left|].
  destruct (_ =? 1); [now left|].
  cbv zeta.
  set (version := if Z.land (Z.shiftr header 19) 3 =? 0 then 25 else _).
  set (mono := Z.land (Z.shiftr header 6) 3 =? 3).
  set (sideInfo := if version =? 1 then sideInfoSize 1 mono
                   else sideInfoSize 2 mono).
  assert (Hsi : 9 <= sideInfo <= 32).
  { subst sideInfo. destruct (version =? 1); apply sideInfoSize_range. }
  clearbody sideInfo. clear version mono.
  rewrite (int_add_small 4 sideInfo) by lia.
  rewrite (int_add_small (4 + sideInfo) 4) by lia.
  destruct (Z.ltb_spec (len frame) (4 + sideInfo + 4)) as [|Hl1];
    [now left|].
  destruct (slice_ok frame (4 + sideInfo) (4 + sideInfo + 4)
              ltac:(lia) Hl1) as (tag & -> & Htag).
  cbn [obind].
  destruct (_ && _); [now left|].
  set (info0 := {| IsXing := _ |}).
  destruct (readUint32_cases frame (4 + sideInfo + 4) ltac:(lia))
    as [-> | (fl & -> & Hfl & Hl2)]; cbn [ebind]; [now left|].
  set (info1 := set_Flags info0 fl).
  destruct (optional_uint32 (HasFrameCount info1) frame info1
              (4 + sideInfo + 4 + 4) set_FrameCount ltac:(lia))
    as [E | (info2 & pos2 & E & Hp2 & H2)]; cbv zeta in E; rewrite E;
    cbn [ebind]; [now left|]. clear E.
  destruct (optional_uint32 (HasByteCount info2) frame info2
              pos2 set_ByteCount ltac:(lia))
    as [E | (info3 & pos3 & E & Hp3 & H3)]; cbv zeta in E; rewrite E;
    cbn [ebind]; [now left|]. clear E.
  destruct (optional_TOC (HasTOC info3) frame info3 pos3 ltac:(lia))
    as [E | (info4 & pos4 & E & Hp4 & H4)]; cbv zeta in E; rewrite E;
    cbn [ebind]; [now left|]. clear E.
  destruct (optional_uint32 (HasVBRScale info4) frame info4
              pos4 set_VBRScale ltac:(lia))
    as [E | (info5 & pos5 & E & Hp5 & H5)]; cbv zeta in E; rewrite E;
    cbn [ebind]; [now left|]. clear E.
  destruct (readLAME_cases frame info5 pos5 ltac:(lia))
    as (info6 & -> & H6).
  cbn [obind]. right. exists info6. split; [reflexivity|].
  split; [|lia].
  assert (W5 : well_formed info5).
  { destruct (HasFrameCount info1) eqn:E1;
      [destruct H2 as (fc & Hfc & ->) | subst info2];
    (destruct (HasByteCount _) eqn:E2;
      [destruct H3 as (bc & Hbc & ->) | subst info3]);
    (destruct (HasTOC _) eqn:E3;
      [destruct H4 as (toc & Htoc & ->) | subst info4]);
    (destruct (HasVBRScale _) eqn:E4;
      [destruct H5 as (vs & Hvs & ->) | subst info5]);
    unfold well_formed, HasFrameCount, HasByteCount, HasTOC, HasVBRScale,
      HasLAMEInfo in *;
    cbn [Flags FrameCount ByteCount TOC VBRScale LAMEVersion EncoderDelay
         EncoderPadding IsXing set_Flags set_FrameCount set_ByteCount set_TOC
         set_VBRScale info1 info0 bytes_eqb negb] in *;
    rewrite ?len_repeat;
    repeat split; try lia; try congruence; try reflexivity. }
  clear - W5 H6.
  destruct W5 as (A1 & A2 & A3 & A4 & A5 & A6 & A7 & A8 & A9 & A10 & A11 & A12).
  assert (Hv9 : forall v, len v = 9 -> bytes_eqb v [] = false).
  { intros [|x v] Hv; [discriminate Hv | reflexivity]. }
  destruct H6 as [-> | (v & Hv & Ev & [-> | (dl & pd & Hdl & Hpd & ->)])].
  - unfold well_formed. repeat split; try assumption; try lia.
  - unfold well_formed, HasFrameCount, HasByteCount, HasTOC, HasVBRScale,
      HasLAMEInfo in *.
    cbn [Flags FrameCount ByteCount TOC VBRScale LAMEVersion EncoderDelay
         EncoderPadding set_LAMEVersion] in *.
    rewrite (Hv9 v Hv). cbn [negb]. repeat split; try assumption; try lia.
  - unfold well_formed, HasFrameCount, HasByteCount, HasTOC, HasVBRScale,
      HasLAMEInfo in *.
    cbn [Flags FrameCount ByteCount TOC VBRScale LAMEVersion EncoderDelay
         EncoderPadding set_LAMEVersion set_delay_padding] in *.
    rewrite (Hv9 v Hv). cbn [negb]. repeat split; try assumption; try lia.
Qed.

(** *** Frames laid out in pieces *)

Lemma slice_at (frame pre seg post : list byte) (lo hi : Z) :
  frame = pre ++ seg ++ post -> lo = len pre -> hi = lo + len seg ->
  slice frame lo hi = Ret seg.
Proof. intros -> -> ->. now apply slice_app_at. Qed.

Lemma index_at (frame pre post : list byte) (x : byte) (i : Z) :
  frame = pre ++ x :: post -> i = len pre -> index frame i = Ret x.
Proof. intros -> ->. now apply index_app_at. Qed.

Lemma readUint32_at (frame pre post : list byte) (v pos : Z) :
  frame = pre ++ be_bytes v ++ post -> pos = len pre ->
  0 <= v < 2 ^ 32 -> pos < 2 ^ 62 ->
  readUint32 frame pos = Ret (Some (v, pos + 4)).
Proof.
  intros Hf Hp Hv Hs. pose proof (slice_len_nonneg pre).
  unfold readUint32. rewrite int_add_small by lia.
  assert (Hl : pos + 4 <= len frame).
  { rewrite Hf, !len_app. change (len (be_bytes v)) with 4.
    pose proof (slice_len_nonneg post). lia. }
  destruct (Z.ltb_spec (len frame) (pos + 4)); [lia|].
  rewrite (slice_at frame pre (be_bytes v) post pos (pos + 4) Hf Hp
             ltac:(reflexivity)).
  cbn [obind]. rewrite Uint32_be_bytes by exact Hv. reflexivity.
Qed.

Lemma optional_uint32_at (c : bool) (frame pre post : list byte)
  (info : Info) (v pos : Z) (set : Info -> Z -> Info) :
  frame = pre ++ (if c then be_bytes v else []) ++ post -> pos = len pre ->
  0 <= v < 2 ^ 32 -> pos < 2 ^ 62 ->
  (if c
   then ebind (readUint32 frame pos) (fun '(v, pos) =>
          Ret (Some (set info v, pos)))
   else Ret (Some (info, pos)))
  = Ret (Some (if c then set info v else info,
               len (pre ++ if c then be_bytes v else []))).
Proof.
  intros Hf Hp Hv Hs. rewrite len_app, <- Hp. destruct c.
  - rewrite (readUint32_at frame pre post v pos Hf Hp Hv Hs).
    reflexivity.
  - change (len []) with 0. now rewrite Z.add_0_r.
Qed.

Lemma optional_TOC_at (c : bool) (frame pre post toc : list byte)
  (info : Info) (pos : Z) :
  frame = pre ++ (if c then toc else []) ++ post -> pos = len pre ->
  len toc = 100 -> pos < 2 ^ 62 ->
  (if c
   then if len frame <? int_add pos 100 then Ret None
        else (t <- slice frame pos (int_add pos 100) ;;
              Ret (Some (set_TOC info t, int_add pos 100)))%go
   else Ret (Some (info, pos)))
  = Ret (Some (if c then set_TOC info toc else info,
               len (pre ++ if c then toc else []))).
Proof.
  intros Hf Hp Ht Hs. pose proof (slice_len_nonneg pre).
  rewrite len_app, <- Hp. destruct c.
  - rewrite int_add_small by lia.
    assert (Hl : pos + 100 <= len frame).
    { rewrite Hf, !len_app, Ht. pose proof (slice_len_nonneg post). lia. }
    destruct (Z.ltb_spec (len frame) (pos + 100)); [lia|].
    rewrite (slice_at frame pre toc post pos (pos + 100) Hf Hp
               ltac:(lia)).
    cbn [obind]. rewrite Ht. reflexivity.
  - change (len []) with 0. now rewrite Z.add_0_r.
Qed.

Lemma readLAME_at (frame pre post : list byte) (info : Info) (pos : Z)
  (version : list byte) (d0 d1 d2 : byte) :
  frame = pre ++ version ++ repeat x00 12 ++ [d0; d1; d2] ++ post ->
  pos = len pre -> len version = 9 -> pos < 2 ^ 62 ->
  readLAME frame info pos =
    Ret (if isLAMEVersion version
         then set_delay_padding (set_LAMEVersion info version)
                (Z.lor (to_uint16 (Z.shiftl (byte_val d0) 4))
                       (Z.shiftr (byte_val d1) 4))
                (Z.lor (to_uint16 (Z.shiftl (Z.land (byte_val d1) 0x0F) 8))
                       (byte_val d2))
         else info).
Proof.
  intros Hf Hp Hv Hs. pose proof (slice_len_nonneg pre). pose proof (slice_len_nonneg post).
  unfold readLAME.
  rewrite (int_add_small pos 9) by lia.
  rewrite (int_add_small (pos + 9) 12) by lia.
  rewrite (int_add_small (pos + 9 + 12) 3) by lia.
  rewrite (int_add_small (pos + 9 + 12) 1) by lia.
  rewrite (int_add_small (pos + 9 + 12) 2) by lia.
  assert (Hl : len frame = pos + 9 + 12 + 3 + len post).
  { rewrite Hf, !len_app, Hv, len_repeat. change (len [d0; d1; d2]) with 3.
    lia. }
  destruct (Z.ltb_spec (len frame) (pos + 9)); [lia|]. cbn [negb].
  rewrite (slice_at frame pre version _ pos (pos + 9) Hf Hp ltac:(lia)).
  cbn [obind]. destruct (isLAMEVersion version); [|reflexivity].
  destruct (Z.ltb_spec (len frame) (pos + 9 + 12 + 3)); [lia|]. cbn [negb].
  rewrite (index_at frame (pre ++ version ++ repeat x00 12) ([d1; d2] ++ post)
             d0).
  2:{ rewrite Hf, <- !app_assoc. reflexivity. }
  2:{ rewrite !len_app, Hv, len_repeat. lia. }
  rewrite (index_at frame (pre ++ version ++ repeat x00 12 ++ [d0])
             ([d2] ++ post) d1).
  2:{ rewrite Hf, <- !app_assoc. reflexivity. }
  2:{ rewrite !len_app, Hv, len_repeat. change (len [d0]) with 1. lia. }
  rewrite (index_at frame (pre ++ version ++ repeat x00 12 ++ [d0; d1])
             post d2).
  2:{ rewrite Hf, <- !app_assoc. reflexivity. }
  2:{ rewrite !len_app, Hv, len_repeat. change (len [d0; d1]) with 2. lia. }
  reflexivity.
Qed.

Lemma readLAME_at_zeros (frame pre post : list byte) (info : Info) (pos : Z) :
  frame = pre ++ repeat x00 9 ++ post -> pos = len pre -> pos < 2 ^ 62 ->
  readLAME frame info pos = Ret info.
Proof.
  intros Hf Hp Hs. pose proof (slice_len_nonneg pre). pose proof (slice_len_nonneg post).
  unfold readLAME. rewrite (int_add_small pos 9) by lia.
  assert (Hl : len frame = pos + 9 + len post).
  { rewrite Hf, !len_app, len_repeat. lia. }
  destruct (Z.ltb_spec (len frame) (pos + 9)); [lia|]. cbn [negb].
  rewrite (slice_at frame pre (repeat x00 9) post pos (pos + 9) Hf Hp
             ltac:(reflexivity)).
  reflexivity.
Qed.

(** *** The three bytes of delay and padding *)

Lemma forall_below (P : Z -> bool) (n : nat) :
  forallb (fun i => P (Z.of_nat i)) (seq 0 n) = true ->
  forall z, 0 <= z < Z.of_nat n -> P z = true.
Proof.
  intros H z Hz. rewrite forallb_forall in H.
  rewrite <- (Z2Nat.id z) by lia. apply H. apply in_seq. lia.
Qed.

Lemma delay_bits (delay ph : Z) :
  0 <= delay < 4096 -> 0 <= ph < 16 ->
  Z.lor (to_uint16 (Z.shiftl (Z.shiftr delay 4 mod 256) 4))
        (Z.shiftr (Z.lor (to_uint16 (Z.shiftl delay 4) mod 256) (ph mod 256)
                     mod 256) 4)
    = delay.
Proof.
  intros Hd Hp.
  pose (P := fun d => forallb (fun j =>
    Z.lor (to_uint16 (Z.shiftl (Z.shiftr d 4 mod 256) 4))
          (Z.shiftr (Z.lor (to_uint16 (Z.shiftl d 4) mod 256)
                           (Z.of_nat j mod 256) mod 256) 4) =? d)
    (seq 0 16)).
  assert (HP : P delay = true).
  { apply (forall_below P 4096); [vm_compute; reflexivity | exact Hd]. }
  unfold P in HP.
  pose proof (forall_below (fun j =>
    Z.lor (to_uint16 (Z.shiftl (Z.shiftr delay 4 mod 256) 4))
          (Z.shiftr (Z.lor (to_uint16 (Z.shiftl delay 4) mod 256)
                           (j mod 256) mod 256) 4) =? delay)
    16 HP ph ltac:(lia)) as H.
  cbv beta in H. apply Z.eqb_eq in H. exact H.
Qed.

Lemma padding_bits (dl padding : Z) :
  0 <= dl < 16 -> 0 <= padding < 4096 ->
  Z.lor (to_uint16 (Z.shiftl
           (Z.land (Z.lor (dl * 16) (Z.shiftr padding 8 mod 256) mod 256)
                   0x0F) 8))
        (padding mod 256)
    = padding.
Proof.
  intros Hd Hp.
  pose (P := fun p => forallb (fun j =>
    Z.lor (to_uint16 (Z.shiftl
             (Z.land (Z.lor (Z.of_nat j * 16) (Z.shiftr p 8 mod 256) mod 256)
                     0x0F) 8))
          (p mod 256) =? p)
    (seq 0 16)).
  assert (HP : P padding = true).
  { apply (forall_below P 4096); [vm_compute; reflexivity | exact Hp]. }
  unfold P in HP.
  pose proof (forall_below (fun j =>
    Z.lor (to_uint16 (Z.shiftl
             (Z.land (Z.lor (j * 16) (Z.shiftr padding 8 mod 256) mod 256)
                     0x0F) 8))
          (padding mod 256) =? padding)
    16 HP dl ltac:(lia)) as H.
  cbv beta in H. apply Z.eqb_eq in H. exact H.
Qed.

Lemma shifted_delay_low_byte (delay : Z) :
  0 <= delay < 4096 ->
  to_uint16 (Z.shiftl delay 4) mod 256 = delay mod 16 * 16.
Proof.
  intros Hd. unfold to_uint16. rewrite Z.shiftl_mul_pow2 by lia.
  change (2 ^ 4) with 16. change (2 ^ 16) with 65536.
  rewrite (Z.mod_small (delay * 16) 65536) by lia.
  pose proof (Z.div_mod delay 16 ltac:(lia)).
  pose proof (Z.mod_pos_bound delay 16 ltac:(lia)).
  replace (delay * 16) with (delay mod 16 * 16 + delay / 16 * 256) by lia.
  rewrite Z.mod_add by lia. apply Z.mod_small. lia.
Qed.

Lemma delay_padding_round_trip (delay padding : Z) :
  0 <= delay < 4096 -> 0 <= padding < 4096 ->
  let d0 := byte_of (Z.shiftr delay 4) in
  let d1 := byte_of (Z.lor (byte_val (byte_of (to_uint16 (Z.shiftl delay 4))))
                           (byte_val (byte_of (Z.shiftr padding 8)))) in
  let d2 := byte_of padding in
  Z.lor (to_uint16 (Z.shiftl (byte_val d0) 4)) (Z.shiftr (byte_val d1) 4)
    = delay /\
  Z.lor (to_uint16 (Z.shiftl (Z.land (byte_val d1) 0x0F) 8)) (byte_val d2)
    = padding.
Proof.
  intros Hd Hp d0 d1 d2. subst d0 d1 d2. rewrite !byte_val_byte_of.
  assert (Hph : 0 <= Z.shiftr padding 8 < 16).
  { rewrite Z.shiftr_div_pow2 by lia. change (2 ^ 8) with 256.
    split; [apply Z.div_pos; lia | apply Z.div_lt_upper_bound; lia]. }
  split.
  - apply delay_bits; assumption.
  - rewrite shifted_delay_low_byte by exact Hd.
    apply padding_bits; [apply Z.mod_pos_bound; lia | exact Hp].
Qed.

Lemma land_low_byte (f m : Z) :
  0 <= m < 256 -> Z.land (f mod 256) m = Z.land f m.
Proof.
  intros Hm. apply Z.bits_inj'. intros n Hn.
  rewrite !Z.land_spec, testbit_mod_256 by lia.
  destruct (Z.ltb_spec n 8); cbn [andb]; [reflexivity|].
  replace (Z.testbit m n) with false; [now rewrite andb_false_r|].
  symmetry. destruct (Z.eq_dec m 0) as [-> | Hne]; [apply Z.bits_0|].
  apply Z.bits_above_log2; [lia|].
  assert (Z.log2 m < 8) by (apply Z.log2_lt_pow2; change (2 ^ 8) with 256; lia).
  lia.
Qed.

Lemma Uint32_low_byte (b : byte) :
  Uint32 [x00; x00; x00; b] = Ret (byte_val b).
Proof.
  unfold Uint32. change (byte_val x00) with 0.
  rewrite !Z.shiftl_0_l, !Z.lor_0_r. reflexivity.
Qed.

End lameinfoFacts.
(** ** Package lameinfo, results *)

Module lameinfoMore.
Import lameinfo lameinfoSpec lameinfoFacts.

(** X26: [Parse] never panics: for every byte slice it returns
    [ErrNoXingHeader] or an [Info]; the [Info] is well formed - fields
    of the width they are read at, fields that are not flagged left at
    zero, a LAME version that is empty or nine bytes that
    [isLAMEVersion] accepts, 12-bit delay and padding - and a frame of
    fewer than 21 bytes is always refused. *)
Theorem Parse_returns_the_error_or_a_well_formed_Info (frame : list byte) :
  (Parse frame = Ret None \/
   exists info, Parse frame = Ret (Some info) /\ well_formed info) /\
  (len frame < 21 -> Parse frame = Ret None).
Proof.
  destruct (Parse_cases frame) as [E | (info & E & W & L)].
  - split; [now left | intros _; exact E].
  - split; [right; eauto | lia].
Qed.

Lemma Parse_returns_the_error_or_a_well_formed_Info_witness :
  Parse (repeat xff 20) = Ret None.
Proof.
  apply (Parse_returns_the_error_or_a_well_formed_Info (repeat xff 20)).
  vm_compute. reflexivity.
Defined.

(** X27: the gapless-playback values of a parsed [Info]:
    [TotalDelay] is 529 plus the encoder delay, between 529 and 4624,
    [TotalPadding] is the encoder padding less 529 and not below 0, at
    most 3566; without a LAME version they are 529 and 0. *)
Theorem Parse_total_delay_and_padding (frame : list byte) (info : Info) :
  Parse frame = Ret (Some info) ->
  TotalDelay info = EncoderDelay info + 529 /\
  529 <= TotalDelay info <= 4624 /\
  TotalPadding info = Z.max 0 (EncoderPadding info - 529) /\
  0 <= TotalPadding info <= 3566 /\
  (HasLAMEInfo info = false -> TotalDelay info = 529 /\ TotalPadding info = 0).
Proof.
  intros E. destruct (Parse_cases frame) as [E' | (info' & E' & W & _)];
    rewrite E in E'; [discriminate|]. injection E' as <-.
  destruct W as (_ & _ & _ & _ & _ & _ & _ & _ & _ & Hd & Hp & HL).
  unfold TotalDelay, TotalPadding, DecoderDelay, int_add, int_sub.
  destruct (HasLAMEInfo info); cbn [negb].
  - rewrite !wrap_int_small by lia.
    destruct (Z.ltb_spec (EncoderPadding info - 529) 0);
      repeat split; try lia; discriminate.
  - destruct HL as [-> ->]. repeat split; lia.
Qed.

Lemma app_if (c : bool) (a b : list byte) :
  (if c then a ++ b else a) = a ++ (if c then b else []).
Proof. destruct c; [reflexivity | now rewrite app_nil_r]. Qed.

Lemma fitted_length (lv : list byte) :
  len (firstn 9 (lv ++ repeat x00 9)) = 9.
Proof.
  unfold len. rewrite length_firstn, length_app, repeat_length. lia.
Qed.

Lemma opt_len (c : bool) (a : list byte) (n : Z) :
  len a = n -> len (if c then a else []) = if c then n else 0.
Proof. intros <-. now destruct c. Qed.

(** X28: [Parse] reads back what [buildTestFrame] wrote: for options
    whose counts fit 32 bits and whose delay and padding fit 12 bits,
    the frame parses without error to the tag kind, the low byte of the
    flags, the frame count, byte count and VBR scale where flagged and
    0 where not, the table of contents where flagged, and - when the
    version string, fitted to nine bytes, is one [isLAMEVersion]
    accepts - that version with the delay and the padding; otherwise
    to no version and no delay or padding. *)
Theorem Parse_reads_back_buildTestFrame (opts : testFrameOptions) :
  0 <= frameCount opts < 2 ^ 32 -> 0 <= byteCount opts < 2 ^ 32 ->
  0 <= vbrScale opts < 2 ^ 32 ->
  0 <= encoderDelay opts < 4096 -> 0 <= encoderPadding opts < 4096 ->
  let version := firstn 9 (lameVersion opts ++ repeat x00 9) in
  let lame :=
    negb (bytes_eqb (lameVersion opts) []) && isLAMEVersion version in
  let has (flag : Z) := negb (Z.land (flags opts) flag =? 0) in
  Parse (buildTestFrame opts) =
    Ret (Some
      {| IsXing := isXing opts;
         Flags := flags opts mod 256;
         FrameCount := if has FlagFrameCount then frameCount opts else 0;
         ByteCount := if has FlagByteCount then byteCount opts else 0;
         TOC := if has FlagTOC
                then map (fun i => byte_of (Z.of_nat i)) (seq 0 100)
                else repeat x00 100;
         VBRScale := if has FlagVBRScale then vbrScale opts else 0;
         LAMEVersion := if lame then version else [];
         EncoderDelay := if lame then encoderDelay opts else 0;
         EncoderPadding := if lame then encoderPadding opts else 0 |}).
Proof.
  intros Hfc Hbc Hvs Hdl Hpd version lame has.
  unfold buildTestFrame.
  destruct opts as [xing fl fc bc vs lv dl pd].
  cbv beta iota zeta delta [isXing flags frameCount byteCount vbrScale
    lameVersion encoderDelay encoderPadding] in *.
  fold version.
  fold (has FlagFrameCount) (has FlagByteCount) (has FlagTOC)
    (has FlagVBRScale).
  set (hdr := [xff; xfb; x90; x00]).
  set (side := repeat x00 32).
  set (tag := if xing then str_Xing else str_Info).
  set (flagBytes := [x00; x00; x00; byte_of fl]).
  set (toc := map (fun i => byte_of (Z.of_nat i)) (seq 0 100)).
  set (d0 := byte_of (Z.shiftr dl 4)).
  set (d1 := byte_of (Z.lor (byte_val (byte_of (to_uint16 (Z.shiftl dl 4))))
                            (byte_val (byte_of (Z.shiftr pd 8))))).
  set (d2 := byte_of pd).
  rewrite !app_if.
  set (o1 := if has FlagFrameCount then be_bytes fc else []).
  set (o2 := if has FlagByteCount then be_bytes bc else []).
  set (o3 := if has FlagTOC then toc else []).
  set (o4 := if has FlagVBRScale then be_bytes vs else []).
  set (lameSeg := if negb (bytes_eqb lv []) then _ else []).
  set (body := ((((hdr ++ side ++ tag ++ flagBytes) ++ o1) ++ o2) ++ o3)
               ++ o4).
  assert (Hhdr : len hdr = 4) by reflexivity.
  assert (Hside : len side = 32) by reflexivity.
  assert (Htag : len tag = 4) by (subst tag; destruct xing; reflexivity).
  assert (Hflag : len flagBytes = 4) by reflexivity.
  assert (Ho1 : len o1 = if has FlagFrameCount then 4 else 0)
    by (apply opt_len; reflexivity).
  assert (Ho2 : len o2 = if has FlagByteCount then 4 else 0)
    by (apply opt_len; reflexivity).
  assert (Ho3 : len o3 = if has FlagTOC then 100 else 0)
    by (apply opt_len; reflexivity).
  assert (Ho4 : len o4 = if has FlagVBRScale then 4 else 0)
    by (apply opt_len; reflexivity).
  assert (Hv9 : len version = 9) by apply fitted_length.
  assert (Hbody : 44 <= len body <= 156).
  { subst body. rewrite !len_app, Hhdr, Hside, Htag, Hflag, Ho1, Ho2, Ho3, Ho4.
    destruct (has FlagFrameCount), (has FlagByteCount), (has FlagTOC),
      (has FlagVBRScale); lia. }
  assert (Hseg : 0 <= len lameSeg <= 36).
  { subst lameSeg. destruct (negb _); [|cbn; lia].
    rewrite !len_app, Hv9, !len_repeat. change (len [d0; d1; d2]) with 3. lia. }
  rewrite len_app.
  destruct (Z.ltb_spec (len body + len lameSeg) 417) as [Hlt|]; [|lia].
  unfold int_sub. rewrite wrap_int_small by lia.
  set (pad := repeat x00 _).
  assert (Hpad : exists pad', pad = repeat x00 9 ++ pad').
  { subst pad. exists (repeat x00 (Z.to_nat (417 - (len body + len lameSeg)) - 9)).
    rewrite <- repeat_app. f_equal. lia. }
  clearbody pad.
  set (frame := (body ++ lameSeg) ++ pad).
  assert (Hframe : frame =
            hdr ++ side ++ tag ++ flagBytes ++ o1 ++ o2 ++ o3 ++ o4
            ++ lameSeg ++ pad).
  { subst frame body. rewrite <- !app_assoc. reflexivity. }
  clearbody frame. clear Hlt Hbody. clear body.
  (* the header *)
  unfold Parse.
  assert (Hlen : 44 <= len frame).
  { rewrite Hframe, !len_app, Hhdr, Hside, Htag, Hflag.
    pose proof (slice_len_nonneg o1). pose proof (slice_len_nonneg o2).
    pose proof (slice_len_nonneg o3). pose proof (slice_len_nonneg o4).
    pose proof (slice_len_nonneg lameSeg). pose proof (slice_len_nonneg pad). lia. }
  destruct (Z.ltb_spec (len frame) 4); [lia|].
  rewrite (slice_at frame [] hdr
             (side ++ tag ++ flagBytes ++ o1 ++ o2 ++ o3 ++ o4 ++ lameSeg
              ++ pad) 0 4 Hframe eq_refl eq_refl).
  cbn [obind].
  change (Uint32 hdr) with (Ret 0xFFFB9000). cbn [obind].
  change (Z.land 0xFFFB9000 0xFFE00000 =? 0xFFE00000) with true.
  cbn [negb].
  change (Z.land (Z.shiftr 0xFFFB9000 19) 3) with 3.
  change (3 =? 1) with false. change (3 =? 0) with false.
  change (3 =? 2) with false. change (3 =? 3) with true.
  change (Z.land (Z.shiftr 0xFFFB9000 6) 3) with 0.
  cbv beta iota zeta. change (1 =? 1) with true. change (0 =? 3) with false.
  cbv beta iota. change (sideInfoSize 1 false) with 32.
  change (int_add 4 32) with 36. change (int_add 36 4) with 40.
  destruct (Z.ltb_spec (len frame) 40); [lia|].
  (* the tag *)
  rewrite (slice_at frame (hdr ++ side) tag
             (flagBytes ++ o1 ++ o2 ++ o3 ++ o4 ++ lameSeg ++ pad) 36 40);
    [|rewrite Hframe, <- !app_assoc; reflexivity
     |reflexivity
     |rewrite Htag; reflexivity].
  cbn [obind].
  assert (Etag : negb (bytes_eqb tag str_Xing) && negb (bytes_eqb tag str_Info)
                 = false /\ bytes_eqb tag str_Xing = xing)
    by (subst tag; destruct xing; split; reflexivity).
  destruct Etag as [-> ->].
  (* the flags *)
  assert (Hfl : readUint32 frame 40 = Ret (Some (fl mod 256, 44))).
  { unfold readUint32. change (int_add 40 4) with 44.
    destruct (Z.ltb_spec (len frame) 44); [lia|].
    rewrite (slice_at frame (hdr ++ side ++ tag) flagBytes
               (o1 ++ o2 ++ o3 ++ o4 ++ lameSeg ++ pad) 40 44);
      [|rewrite Hframe, <- !app_assoc; reflexivity
       |rewrite !len_app, Hhdr, Hside, Htag; reflexivity
       |rewrite Hflag; reflexivity].
    cbn [obind]. unfold flagBytes. rewrite Uint32_low_byte.
    cbn [obind]. now rewrite byte_val_byte_of. }
  rewrite Hfl. cbn [ebind].
  set (info1 := set_Flags _ _).
  assert (Hhas : forall flag i, Flags i = fl mod 256 -> 0 <= flag < 256 ->
                 negb (Z.land (Flags i) flag =? 0) = has flag).
  { intros flag i -> Hflag'. subst has. cbv beta.
    now rewrite land_low_byte. }
  (* the optional fields *)
  unfold HasFrameCount at 1.
  rewrite (Hhas FlagFrameCount info1) by (try reflexivity; cbv; intuition congruence).
  rewrite (optional_uint32_at (has FlagFrameCount) frame
             (hdr ++ side ++ tag ++ flagBytes) (o2 ++ o3 ++ o4 ++ lameSeg ++ pad)
             info1 fc 44 set_FrameCount);
    [|fold o1; rewrite Hframe, <- !app_assoc; reflexivity
     |rewrite !len_app, Hhdr, Hside, Htag, Hflag; reflexivity
     |exact Hfc|lia].
  cbn [ebind]. fold o1.
  set (info2 := if has FlagFrameCount then _ else info1).
  assert (F2 : Flags info2 = fl mod 256)
    by (subst info2; destruct (has FlagFrameCount); reflexivity).
  unfold HasByteCount at 1.
  rewrite (Hhas FlagByteCount info2 F2) by (cbv; intuition congruence).
  rewrite (optional_uint32_at (has FlagByteCount) frame
             ((hdr ++ side ++ tag ++ flagBytes) ++ o1)
             (o3 ++ o4 ++ lameSeg ++ pad)
             info2 bc _ set_ByteCount);
    [|fold o2; rewrite Hframe, <- !app_assoc; reflexivity
     |reflexivity
     |exact Hbc
     |rewrite !len_app, Hhdr, Hside, Htag, Hflag, Ho1;
      destruct (has FlagFrameCount); lia].
  cbn [ebind]. fold o2.
  set (info3 := if has FlagByteCount then _ else info2).
  assert (F3 : Flags info3 = fl mod 256)
    by (subst info3; destruct (has FlagByteCount); exact F2).
  unfold HasTOC at 1.
  rewrite (Hhas FlagTOC info3 F3) by (cbv; intuition congruence).
  rewrite (optional_TOC_at (has FlagTOC) frame
             (((hdr ++ side ++ tag ++ flagBytes) ++ o1) ++ o2)
             (o4 ++ lameSeg ++ pad) toc info3);
    [|fold o3; rewrite Hframe, <- !app_assoc; reflexivity
     |reflexivity
     |reflexivity
     |rewrite !len_app, Hhdr, Hside, Htag, Hflag, Ho1, Ho2;
      destruct (has FlagFrameCount), (has FlagByteCount); lia].
  cbn [ebind]. fold o3.
  set (info4 := if has FlagTOC then _ else info3).
  assert (F4 : Flags info4 = fl mod 256)
    by (subst info4; destruct (has FlagTOC); exact F3).
  unfold HasVBRScale at 1.
  rewrite (Hhas FlagVBRScale info4 F4) by (cbv; intuition congruence).
  rewrite (optional_uint32_at (has FlagVBRScale) frame
             ((((hdr ++ side ++ tag ++ flagBytes) ++ o1) ++ o2) ++ o3)
             (lameSeg ++ pad)
             info4 vs _ set_VBRScale);
    [|fold o4; rewrite Hframe, <- !app_assoc; reflexivity
     |reflexivity
     |exact Hvs
     |rewrite !len_app, Hhdr, Hside, Htag, Hflag, Ho1, Ho2, Ho3;
      destruct (has FlagFrameCount), (has FlagByteCount), (has FlagTOC); lia].
  cbn [ebind]. fold o4.
  set (info5 := if has FlagVBRScale then _ else info4).
  set (pre := ((((hdr ++ side ++ tag ++ flagBytes) ++ o1) ++ o2) ++ o3) ++ o4).
  assert (Hpre : len pre < 2 ^ 62).
  { subst pre. rewrite !len_app, Hhdr, Hside, Htag, Hflag, Ho1, Ho2, Ho3, Ho4.
    destruct (has FlagFrameCount), (has FlagByteCount), (has FlagTOC),
      (has FlagVBRScale); lia. }
  (* the LAME tag *)
  assert (HL : readLAME frame info5 (len pre) =
               Ret (if lame
                    then set_delay_padding (set_LAMEVersion info5 version) dl pd
                    else info5)).
  { subst lame lameSeg. destruct (negb (bytes_eqb lv [])); cbn [andb].
    - rewrite (readLAME_at frame pre (repeat x00 12 ++ pad) info5 (len pre)
                 version d0 d1 d2);
        [|rewrite Hframe; subst pre; rewrite <- !app_assoc; reflexivity
         |reflexivity|exact Hv9|exact Hpre].
      destruct (delay_padding_round_trip dl pd Hdl Hpd) as [Ed Ep].
      cbv zeta in Ed, Ep. fold d0 d1 d2 in Ed, Ep. rewrite Ed, Ep.
      reflexivity.
    - destruct Hpad as (pad' & ->).
      apply (readLAME_at_zeros frame pre pad'); [|reflexivity|exact Hpre].
      rewrite Hframe. subst pre. rewrite <- !app_assoc. reflexivity. }
  rewrite HL. cbn [obind]. do 2 f_equal.
  subst info5 info4 info3 info2 info1.
  destruct lame, (has FlagFrameCount), (has FlagByteCount), (has FlagTOC),
    (has FlagVBRScale); reflexivity.
Qed.

Lemma Parse_total_delay_and_padding_witness :
  TotalDelay info_LAMEInfo = 576 + 529 /\
  529 <= TotalDelay info_LAMEInfo <= 4624 /\
  TotalPadding info_LAMEInfo = Z.max 0 (1848 - 529) /\
  0 <= TotalPadding info_LAMEInfo <= 3566 /\
  (HasLAMEInfo info_LAMEInfo = false ->
   TotalDelay info_LAMEInfo = 529 /\ TotalPadding info_LAMEInfo = 0).
Proof.
  apply (Parse_total_delay_and_padding (buildTestFrame options_LAMEInfo)
           info_LAMEInfo).
  vm_compute. reflexivity.
Defined.

Lemma Parse_reads_back_buildTestFrame_witness :
  Parse (buildTestFrame options_LAMEInfo) = Ret (Some info_LAMEInfo).
Proof.
  rewrite (Parse_reads_back_buildTestFrame options_LAMEInfo);
    [reflexivity | cbn; lia ..].
Defined.

(** *** Frame sizes and [ParseFromReader] *)


Lemma calculateFrameSize_checked
  (mpegVersion layer bitrateIndex samplingRateIndex padding : Z) :
  mpegVersion = 0 \/ mpegVersion = 2 \/ mpegVersion = 3 ->
  1 <= layer <= 3 -> 1 <= bitrateIndex <= 14 ->
  0 <= samplingRateIndex <= 2 -> 0 <= padding <= 1 ->
  exists size,
    calculateFrameSize mpegVersion layer bitrateIndex samplingRateIndex
      padding = Ret size /\
    24 <= size <= 1729.
Proof.
  intros Hv Hl Hb Hs Hp.
  pose (chk := fun v l b s p =>
    match calculateFrameSize v l b s p with
    | Ret size => (24 <=? size) && (size <=? 1729)
    | Panic => false
    end).
  assert (H : forallb (fun v => forallb (fun l => forallb (fun b =>
              forallb (fun s => forallb (fun p => chk v l b s p) [0; 1])
                      [0; 1; 2])
              [1; 2; 3; 4; 5; 6; 7; 8; 9; 10; 11; 12; 13; 14])
              [1; 2; 3]) [0; 2; 3] = true)
    by (vm_compute; reflexivity).
  rewrite forallb_forall in H.
  specialize (H mpegVersion ltac:(cbn [In]; lia)). cbv beta in H.
  rewrite forallb_forall in H.
  specialize (H layer ltac:(cbn [In]; lia)). cbv beta in H.
  rewrite forallb_forall in H.
  specialize (H bitrateIndex ltac:(cbn [In]; lia)). cbv beta in H.
  rewrite forallb_forall in H.
  specialize (H samplingRateIndex ltac:(cbn [In]; lia)). cbv beta in H.
  rewrite forallb_forall in H.
  specialize (H padding ltac:(cbn [In]; lia)). cbv beta in H.
  unfold chk in H.
  destruct (calculateFrameSize _ _ _ _ _) as [size|]; [|discriminate].
  exists size. split; [reflexivity | lia].
Qed.

(** X29: for header fields that pass the checks of [ParseFromReader]
    (a version other than the reserved one, a layer from 1 to 3, a
    bitrate index from 1 to 14, a sampling-rate index from 0 to 2)
    [calculateFrameSize] indexes inside its tables and returns a size
    between 24 and 1729 bytes. *)
Theorem calculateFrameSize_is_between_24_and_1729
  (mpegVersion layer bitrateIndex samplingRateIndex padding : Z) :
  mpegVersion = 0 \/ mpegVersion = 2 \/ mpegVersion = 3 ->
  1 <= layer <= 3 -> 1 <= bitrateIndex <= 14 ->
  0 <= samplingRateIndex <= 2 -> 0 <= padding <= 1 ->
  exists size,
    calculateFrameSize mpegVersion layer bitrateIndex samplingRateIndex
      padding = Ret size /\
    24 <= size <= 1729.
Proof. apply calculateFrameSize_checked. Qed.

Lemma calculateFrameSize_is_between_24_and_1729_witness :
  exists size,
    calculateFrameSize 3 1 9 0 0 = Ret size /\ 24 <= size <= 1729.
Proof.
  apply (calculateFrameSize_is_between_24_and_1729 3 1 9 0 0); lia.
Defined.

Section ParseFromReader.

Context {Reader IOError : Type}.
Variable io_ReadFull : Reader -> Z -> list byte * option IOError * Reader.


End ParseFromReader.

(** [TestParseFromReader]: a reader over the bytes of the frame built
    for [options_LAMEInfo] gives the [Info] of the options and is left
    empty. *)
Example ParseFromReader_of_a_built_frame :
  ParseFromReader bytesReader_ReadFull (buildTestFrame options_LAMEInfo)
  = Ret (Ok info_LAMEInfo, []).
Proof. vm_compute. reflexivity. Qed.

End lameinfoMore.
